(** * ApplicationPool2: Process, Spawner and Pool

    A shallow embedding of the scheduling core of the application pool
    (ext/common/ApplicationPool2): [Process] (Process.h), the startup
    negotiation of [Spawner] (Spawner.h) and the admission controller
    [Pool] (Pool.h), together with the properties the specification
    states about them.

    Conventions.
    - C++ integers are [Z]; unsigned arithmetic is written with its
      wrap-around ([wrap32], [wrap64]); an operation the C++ standard
      leaves undefined (signed overflow, an out-of-range conversion, a
      null dereference) makes the embedded function return [None].
    - [double] is IEEE binary64, computed with the executable
      specification [SpecFloat] of the standard library.
    - Objects held through [shared_ptr] are values stored in their
      owner; a Process is identified by its gupid, a Group and a
      SuperGroup by their names.
    - Classes of the repository the sources of which are not part of this
      development (Socket, PriorityQueue, Group, SuperGroup, BufferedIO)
      are modelled from the specification; every such definition says so. *)

From Stdlib Require Import ZArith Lia Bool List String Ascii.
From Stdlib Require Import Floats.SpecFloat.
From stdpp Require Import base option list strings pretty gmap.

Local Open Scope Z_scope.

(** ** Machine integers *)

Definition INT_MAX : Z := 2147483647.
Definition UINT_MAX : Z := 4294967295.
Definition ULLONG_MAX : Z := 18446744073709551615.

Definition wrap32 (z : Z) : Z := z mod 2 ^ 32.
Definition wrap64 (z : Z) : Z := z mod 2 ^ 64.

(** errno values of the host platform (Linux, <errno.h>). *)
Definition ESRCH : Z := 3.
Definition EPIPE : Z := 32.

(** ** IEEE binary64, as used by [Process::utilization] *)

Module Double.

Definition prec : Z := 53.
Definition emax : Z := 1024.

(** Conversion of an integer ([int] or [long long]) to [double],
    rounding to nearest, ties to even. *)
Definition of_Z (n : Z) : spec_float := binary_normalize prec emax n 0 false.

Definition div (x y : spec_float) : spec_float := SFdiv prec emax x y.

(** The value of a finite double, truncated toward zero. *)
Definition trunc (x : spec_float) : option Z :=
  match x with
  | S754_zero _ => Some 0
  | S754_finite s m e =>
      let v := match e with
               | Zneg p => Z.quot (Zpos m) (2 ^ Zpos p)
               | _ => Zpos m * 2 ^ e
               end in
      Some (if s then - v else v)
  | _ => None
  end.

(** [(int) x]: truncation toward zero; the conversion is undefined
    when the truncated value is not representable as an [int]. *)
Definition to_int (x : spec_float) : option Z :=
  match trunc x with
  | Some v => if (- INT_MAX - 1 <=? v) && (v <=? INT_MAX) then Some v else None
  | None => None
  end.

End Double.

(** ** Socket

    Modelled from the spec: the Socket class (Socket.h). "Socket: name,
    address, protocol tag, concurrency limit (0 = unlimited), current
    session count"; the per-Process queue of session sockets orders them
    by the utilization function of section 4.4, and a saturated socket
    is one whose session count has reached its concurrency limit. *)

Module Socket.

Record t := mk {
  name : string;
  address : string;
  protocol : string;
  concurrency : Z;
  sessions : Z
}.

Definition utilization (s : t) : Z :=
  if concurrency s =? 0 then
    if sessions s =? 0 then 0 else 1
  else sessions s * INT_MAX / concurrency s.

Definition atFullCapacity (s : t) : bool :=
  negb (concurrency s =? 0) && (concurrency s <=? sessions s).

Definition with_sessions (n : Z) (s : t) : t :=
  mk (name s) (address s) (protocol s) (concurrency s) n.

End Socket.

(** ** PriorityQueue

    Modelled from the spec: Utils/PriorityQueue.h, a min-priority queue
    with [push], [pop] and [decrease]. Entries are (priority, value)
    pairs; [pop] removes an entry of least priority (the earliest pushed
    among equals). The values stored by a Process are the positions of
    its session sockets in its socket list. *)

Module PriorityQueue.

Definition t := list (Z * nat).

Definition push (q : t) (v : nat) (prio : Z) : t := q ++ [(prio, v)].

Fixpoint min_entry (e : Z * nat) (q : t) : Z * nat :=
  match q with
  | [] => e
  | e' :: q' => if fst e' <? fst e then min_entry e' q' else min_entry e q'
  end.

Fixpoint remove_first (e : Z * nat) (q : t) : t :=
  match q with
  | [] => []
  | e' :: q' =>
      if (fst e' =? fst e) && Nat.eqb (snd e') (snd e) then q'
      else e' :: remove_first e q'
  end.

Definition pop (q : t) : option (nat * t) :=
  match q with
  | [] => None
  | e :: q' => let m := min_entry e q' in Some (snd m, remove_first m q)
  end.

Definition decrease (q : t) (v : nat) (prio : Z) : t :=
  map (fun e => if Nat.eqb (snd e) v then (prio, v) else e) q.

End PriorityQueue.

(** ** Process (Process.h) *)

Inductive LifeStatus := ALIVE | SHUTTING_DOWN | SHUT_DOWN.
Inductive EnabledStatus := ENABLED | DISABLING | DISABLED.

Global Instance LifeStatus_eq_dec : EqDecision LifeStatus.
Proof. solve_decision. Defined.

Global Instance EnabledStatus_eq_dec : EqDecision EnabledStatus.
Proof. solve_decision. Defined.

(** A checked-out session: the gupid of its Process and the position of
    its Socket in that Process's socket list. *)
Record Session := mkSession {
  session_process : string;
  session_socket : nat
}.

(** The outcome of [kill(pid, 0)]: its return value and [errno]. *)
Record KillResult := mkKill { kill_ret : Z; kill_errno : Z }.

Module Process.

Record t := mk {
  group : string;                      (* weak_ptr<Group> group *)
  sessionSockets : PriorityQueue.t;
  pid : Z;
  gupid : string;
  connectPassword : string;
  sockets : list Socket.t;
  spawnerCreationTime : Z;
  spawnStartTime : Z;
  concurrency : Z;
  dummy : bool;
  requiresShutdown : bool;
  spawnEndTime : Z;
  lastUsed : Z;
  sessions : Z;
  processed : Z;
  lifeStatus : LifeStatus;
  enabled : EnabledStatus;
  oobwRequested : bool;
  m_osProcessExists : bool
}.

Definition set_group (g : string) (p : t) : t :=
  mk g (sessionSockets p) (pid p) (gupid p) (connectPassword p) (sockets p)
     (spawnerCreationTime p) (spawnStartTime p) (concurrency p) (dummy p)
     (requiresShutdown p) (spawnEndTime p) (lastUsed p) (sessions p) (processed p)
     (lifeStatus p) (enabled p) (oobwRequested p) (m_osProcessExists p).
Definition set_sessionSockets (q : PriorityQueue.t) (p : t) : t :=
  mk (group p) q (pid p) (gupid p) (connectPassword p) (sockets p)
     (spawnerCreationTime p) (spawnStartTime p) (concurrency p) (dummy p)
     (requiresShutdown p) (spawnEndTime p) (lastUsed p) (sessions p) (processed p)
     (lifeStatus p) (enabled p) (oobwRequested p) (m_osProcessExists p).
Definition set_sockets (l : list Socket.t) (p : t) : t :=
  mk (group p) (sessionSockets p) (pid p) (gupid p) (connectPassword p) l
     (spawnerCreationTime p) (spawnStartTime p) (concurrency p) (dummy p)
     (requiresShutdown p) (spawnEndTime p) (lastUsed p) (sessions p) (processed p)
     (lifeStatus p) (enabled p) (oobwRequested p) (m_osProcessExists p).
Definition set_lastUsed (n : Z) (p : t) : t :=
  mk (group p) (sessionSockets p) (pid p) (gupid p) (connectPassword p) (sockets p)
     (spawnerCreationTime p) (spawnStartTime p) (concurrency p) (dummy p)
     (requiresShutdown p) (spawnEndTime p) n (sessions p) (processed p)
     (lifeStatus p) (enabled p) (oobwRequested p) (m_osProcessExists p).
Definition set_sessions (n : Z) (p : t) : t :=
  mk (group p) (sessionSockets p) (pid p) (gupid p) (connectPassword p) (sockets p)
     (spawnerCreationTime p) (spawnStartTime p) (concurrency p) (dummy p)
     (requiresShutdown p) (spawnEndTime p) (lastUsed p) n (processed p)
     (lifeStatus p) (enabled p) (oobwRequested p) (m_osProcessExists p).
Definition set_processed (n : Z) (p : t) : t :=
  mk (group p) (sessionSockets p) (pid p) (gupid p) (connectPassword p) (sockets p)
     (spawnerCreationTime p) (spawnStartTime p) (concurrency p) (dummy p)
     (requiresShutdown p) (spawnEndTime p) (lastUsed p) (sessions p) n
     (lifeStatus p) (enabled p) (oobwRequested p) (m_osProcessExists p).
Definition set_lifeStatus (s : LifeStatus) (p : t) : t :=
  mk (group p) (sessionSockets p) (pid p) (gupid p) (connectPassword p) (sockets p)
     (spawnerCreationTime p) (spawnStartTime p) (concurrency p) (dummy p)
     (requiresShutdown p) (spawnEndTime p) (lastUsed p) (sessions p) (processed p)
     s (enabled p) (oobwRequested p) (m_osProcessExists p).
Definition set_osProcessExists (b : bool) (p : t) : t :=
  mk (group p) (sessionSockets p) (pid p) (gupid p) (connectPassword p) (sockets p)
     (spawnerCreationTime p) (spawnStartTime p) (concurrency p) (dummy p)
     (requiresShutdown p) (spawnEndTime p) (lastUsed p) (sessions p) (processed p)
     (lifeStatus p) (enabled p) (oobwRequested p) b.

(** [int] addition; [None] on signed overflow. *)
Definition int_add (a b : Z) : option Z :=
  let r := a + b in
  if (- INT_MAX - 1 <=? r) && (r <=? INT_MAX) then Some r else None.




(** indexSessionSockets(): the loop state is the queue being filled and
    the running [concurrency], with -1 marking "unlimited"; [i] is the
    position of the socket that is visited. *)
Fixpoint indexSessionSockets_loop (l : list Socket.t) (i : nat)
    (q : PriorityQueue.t) (conc : Z) : option (PriorityQueue.t * Z) :=
  match l with
  | [] => Some (q, conc)
  | socket :: l' =>
      if String.eqb (Socket.protocol socket) "session"
         || String.eqb (Socket.protocol socket) "http_session" then
        let q' := PriorityQueue.push q i (Socket.utilization socket) in
        if negb (conc =? -1) then
          if Socket.concurrency socket =? 0 then
            indexSessionSockets_loop l' (S i) q' (-1)
          else
            match int_add conc (Socket.concurrency socket) with
            | Some c' => indexSessionSockets_loop l' (S i) q' c'
            | None => None
            end
        else indexSessionSockets_loop l' (S i) q' conc
      else indexSessionSockets_loop l' (S i) q conc
  end.

Definition indexSessionSockets (l : list Socket.t) : option (PriorityQueue.t * Z) :=
  match indexSessionSockets_loop l 0%nat [] 0 with
  | Some (q, conc) => Some (q, if conc =? -1 then 0 else conc)
  | None => None
  end.

(** The constructor; [now] is SystemTime::getUsec(). A null socket list
    is the empty list, on which indexSessionSockets() changes nothing. *)
Definition make (now : Z) (pid_ : Z) (gupid_ connectPassword_ : string)
    (sockets_ : list Socket.t) (spawnerCreationTime_ spawnStartTime_ : Z) : option t :=
  match indexSessionSockets sockets_ with
  | Some (q, conc) =>
      Some (mk "" q pid_ gupid_ connectPassword_ sockets_ spawnerCreationTime_
               spawnStartTime_ conc false true now now 0 0 ALIVE ENABLED false true)
  | None => None
  end.

Definition isAlive (p : t) : bool := bool_decide (lifeStatus p = ALIVE).
Definition isShutDown (p : t) : bool := bool_decide (lifeStatus p = SHUT_DOWN).
Definition getLifeStatus (p : t) : LifeStatus := lifeStatus p.

(** setShuttingDown(): [None] when the assertion [lifeStatus == ALIVE]
    fails. The half-close of the admin socket is an effect on the
    operating system only. *)
Definition setShuttingDown (p : t) : option t :=
  if isAlive p then Some (set_lifeStatus SHUTTING_DOWN p) else None.

(** shutdown(): [None] when an assertion fails. Unlinking the Unix
    socket files is an effect on the file system only. *)
Definition shutdown (p : t) : option t :=
  if isShutDown p || negb (requiresShutdown p) then Some p
  else if sessions p =? 0 then
    match (if isAlive p then setShuttingDown p else Some p) with
    | Some p' => Some (set_lifeStatus SHUT_DOWN p')
    | None => None
    end
  else None.

(** osProcessExists(): [k] is what [kill(pid, 0)] answers if it is
    called. The cached flag is written back (the field is [mutable]). *)
Definition osProcessExists (k : KillResult) (p : t) : bool * t :=
  if negb (dummy p) && m_osProcessExists p then
    let b := (kill_ret k =? 0) || negb (kill_errno k =? ESRCH) in
    (b, set_osProcessExists b p)
  else (false, p).

(** canBeShutDown(): [&&] does not evaluate osProcessExists() when
    sessions != 0. *)
Definition canBeShutDown (k : KillResult) (p : t) : bool * t :=
  if sessions p =? 0 then
    let '(b, p') := osProcessExists k p in (negb b, p')
  else (false, p).

(** utilization(): [None] when the conversion of the quotient to
    [int] is undefined. *)
Definition utilization (p : t) : option Z :=
  if concurrency p =? 0 then
    if sessions p =? 0 then Some 0 else Some 1
  else
    Double.to_int
      (Double.div (Double.of_Z (sessions p * INT_MAX)) (Double.of_Z (concurrency p))).

Definition atFullUtilization (p : t) : bool :=
  negb (concurrency p =? 0) && (concurrency p <=? sessions p).

Definition atFullCapacity (p : t) : bool := atFullUtilization p.

(** newSession(): [now] is SystemTime::getUsec(). The outer [None] is
    undefined behaviour: pop() on an empty queue returns a null
    pointer, which is dereferenced, and [sessions++] overflows an
    [int] at INT_MAX. In the saturated case the socket has been popped
    and is not pushed back. *)
Definition newSession (now : Z) (p : t) : option (option Session * t) :=
  match PriorityQueue.pop (sessionSockets p) with
  | None => None
  | Some (i, q) =>
      match sockets p !! i with
      | None => None
      | Some socket =>
          if Socket.atFullCapacity socket then
            Some (None, set_sessionSockets q p)
          else if (Socket.sessions socket <? INT_MAX) && (sessions p <? INT_MAX) then
            let socket' := Socket.with_sessions (Socket.sessions socket + 1) socket in
            let p1 := set_sockets (<[i := socket']> (sockets p)) p in
            let p2 := set_sessions (sessions p + 1) p1 in
            let p3 := set_processed (wrap32 (processed p + 1)) p2 in
            let p4 := set_sessionSockets
                        (PriorityQueue.push q i (Socket.utilization socket')) p3 in
            let p5 := set_lastUsed now p4 in
            Some (Some (mkSession (gupid p) i), p5)
          else None
      end
  end.

(** sessionClosed(): [None] when an assertion fails. *)
Definition sessionClosed (s : Session) (p : t) : option t :=
  match sockets p !! session_socket s with
  | None => None
  | Some socket =>
      if (0 <? Socket.sessions socket) && (0 <? sessions p) then
        let socket' := Socket.with_sessions (Socket.sessions socket - 1) socket in
        let p1 := set_sockets (<[session_socket s := socket']> (sockets p)) p in
        let p2 := set_sessions (sessions p - 1) p1 in
        let p3 := set_sessionSockets
                    (PriorityQueue.decrease (sessionSockets p) (session_socket s)
                       (Socket.utilization socket')) p2 in
        if atFullUtilization p3 then None else Some p3
      else None
  end.

(** Repeated liveness probes: the answers of osProcessExists() to a
    sequence of [kill] outcomes. *)
Fixpoint probes (ks : list KillResult) (p : t) : list bool :=
  match ks with
  | [] => []
  | k :: ks' => let '(b, p') := osProcessExists k p in b :: probes ks' p'
  end.

(** Repeated canBeShutDown() checks. *)
Fixpoint shutdownChecks (ks : list KillResult) (p : t) : list bool :=
  match ks with
  | [] => []
  | k :: ks' => let '(b, p') := canBeShutDown k p in b :: shutdownChecks ks' p'
  end.

(** The priorities in the session-socket queue are the utilizations of
    the sockets they stand for: push() and decrease() are always given
    socket->utilization(). *)
Definition synced (p : t) : Prop :=
  forall prio i, In (prio, i) (sessionSockets p) ->
    exists socket, sockets p !! i = Some socket /\ prio = Socket.utilization socket.

(** The documented range of the counters: "session >= 0", and
    "p.sessions <= p.concurrency when p.concurrency > 0", with a
    concurrency small enough for sessions * INT_MAX to be exact in a
    double. *)
Definition inRange (p : t) : Prop :=
  0 <= sessions p /\
  (concurrency p = 0 \/ (0 < concurrency p < 2 ^ 22 /\ sessions p <= concurrency p)).

(** [int sessions] and [int concurrency]: the values of the type. The
    smallest [int] is left out for the concurrency: one session divided
    by it gives a quotient that is truncated to 0. *)
Definition intCounters (p : t) : Prop :=
  - INT_MAX - 1 <= sessions p <= INT_MAX /\ - INT_MAX <= concurrency p <= INT_MAX.

End Process.

(** ProcessList (Process.h): a list of processes with bounds-checked
    indexing; get() throws RuntimeException("Index out of bounds"). *)
Module ProcessList.

Definition t := list Process.t.

Fixpoint get_from (it : t) (i index : nat) : option Process.t :=
  match it with
  | [] => None
  | p :: it' => if Nat.eqb i index then Some p else get_from it' (S i) index
  end.

Definition get (l : t) (index : nat) : option Process.t := get_from l 0%nat index.

Definition last_iterator (l : t) : option nat :=
  match l with
  | [] => None
  | _ => Some (Nat.pred (length l))
  end.

End ProcessList.

(** ** Options

    Modelled from the spec: the fields of Options (Options.h) that Pool
    and Spawner read. "The app-group name derives deterministically from
    (app root, environment, user)"; [toVector] is the flattened
    key/value vector that toVector() produces. *)

Module Options.

Record t := mk {
  appRoot : string;
  appGroupName : string;
  startTimeout : Z;
  preexecChroot : string;
  postexecChroot : string;
  minProcesses : Z;
  allowTrashingNonIdleProcesses : bool;
  maxPreloaderIdleTime : Z;
  toVector : list string
}.

Definition getAppGroupName (o : t) : string := appGroupName o.
Definition getMaxPreloaderIdleTime (o : t) : Z := maxPreloaderIdleTime o.

End Options.

(** ** Spawner (Spawner.h): the startup negotiation *)

Module Spawner.

Definition LF : string := String "010" EmptyString.
Definition DQUOTE : string := String "034" EmptyString.

Inductive ErrorKind :=
  | PRELOADER_STARTUP_TIMEOUT
  | APP_STARTUP_TIMEOUT
  | APP_STARTUP_PROTOCOL_ERROR
  | APP_STARTUP_EXPLAINABLE_ERROR
  | INTERNAL_ERROR.

Global Instance ErrorKind_eq_dec : EqDecision ErrorKind.
Proof. solve_decision. Defined.

(** The exceptions that cross the negotiation code. [sys] is the text
    SystemException::sys() returns. *)
Inductive Exception :=
  | SystemException (sys : string) (code : Z)
  | TimeoutException
  | SpawnException (msg errorPage : string) (isHTML : bool) (kind : ErrorKind)
      (annotations : gmap string string).

Inductive Outcome (A : Type) :=
  | Return (a : A)
  | Throw (e : Exception)
  | Undefined.
Arguments Return {A} a.
Arguments Throw {A} e.
Arguments Undefined {A}.

(** How an I/O channel ends once its data is consumed. *)
Inductive ChannelEnd :=
  | EndOfFile
  | FailsWith (sys : string) (code : Z)
  | TimesOut.

(** Modelled from the spec: BufferedIO (Utils/BufferedIO.h), the reader
    on the child's admin socket. The protocol is "line-based, UTF-8, LF
    terminators, max line length 4096 bytes", followed on error by "a
    free-form error body until EOF". [pending] is everything the child
    will still write; [ending] is what a read meets after it. *)
Record BufferedIO := mkIO { pending : string; ending : ChannelEnd }.

(** The first line of [s], its terminator included, cut after [max]
    characters, and the rest. *)
Fixpoint takeLine (max : nat) (s : string) : string * string :=
  match max with
  | O => (EmptyString, s)
  | S max' =>
      match s with
      | EmptyString => (EmptyString, EmptyString)
      | String c s' =>
          if Ascii.eqb c "010" then (String c EmptyString, s')
          else let '(l, r) := takeLine max' s' in (String c l, r)
      end
  end.

Definition endsWithNewline (s : string) : bool :=
  match String.get (Nat.pred (String.length s)) s with
  | Some c => Ascii.eqb c "010"
  | None => false
  end.

Definition readLine (max : nat) (io : BufferedIO) : Outcome string * BufferedIO :=
  let '(line, rest) := takeLine max (pending io) in
  if endsWithNewline line || Nat.eqb (String.length line) max then
    (Return line, mkIO rest (ending io))
  else
    match ending io with
    | EndOfFile => (Return line, mkIO rest (ending io))
    | FailsWith sys code => (Throw (SystemException sys code), mkIO rest (ending io))
    | TimesOut => (Throw TimeoutException, mkIO rest (ending io))
    end.

Definition readAll (io : BufferedIO) : Outcome string * BufferedIO :=
  match ending io with
  | EndOfFile => (Return (pending io), mkIO EmptyString EndOfFile)
  | FailsWith sys code =>
      (Throw (SystemException sys code), mkIO EmptyString (ending io))
  | TimesOut => (Throw TimeoutException, mkIO EmptyString (ending io))
  end.

(** What the Spawner knows of its surroundings: the resource locator,
    the generation directory, the version string, and two helpers that
    only render text for error messages. *)
Record Config := mkConfig {
  passengerRoot : string;
  passengerVersion : string;
  rubyLibDir : string;
  generationPath : string;
  creationTime : Z;
  cEscapeString : string -> string;       (* Utils/StrIntUtils.h *)
  strerror : Z -> string                  (* <string.h> *)
}.

(** The outcome of one writeExact() on the admin socket. *)
Inductive WriteOutcome :=
  | Written
  | WriteFails (sys : string) (code : Z)
  | WriteTimesOut.

(** NegotiationDetails. [stderrCapturer] is the output captured so far
    ([None] for a null pointer), [stderrRest] what the child still
    writes to stderr within the two seconds throwAppSpawnException()
    waits, [writes] the outcomes of the successive writes on the admin
    socket, [sent] the bytes written so far, [debugDir] the files of
    the debug directory ([None] for a null pointer), [fileOwner] the
    answer of lstat() (the owner of a path, or the [errno] it fails with),
    [expectedUid] is preparation->uid. *)
Record NegotiationDetails := mkDetails {
  stderrCapturer : option string;
  stderrRest : string;
  pid : Z;
  options : Options.t;
  debugDir : option (gmap string string);
  fileOwner : string -> Z + Z;
  expectedUid : Z;
  writes : list WriteOutcome;
  sent : string;
  io : BufferedIO;
  gupid : string;
  connectPassword : string;
  spawnStartTime : Z;
  timeout : Z
}.

Definition set_io (x : BufferedIO) (d : NegotiationDetails) : NegotiationDetails :=
  mkDetails (stderrCapturer d) (stderrRest d) (pid d) (options d) (debugDir d)
    (fileOwner d) (expectedUid d) (writes d) (sent d) x (gupid d)
    (connectPassword d) (spawnStartTime d) (timeout d).
Definition set_stderrCapturer (x : option string) (d : NegotiationDetails) :=
  mkDetails x (stderrRest d) (pid d) (options d) (debugDir d)
    (fileOwner d) (expectedUid d) (writes d) (sent d) (io d) (gupid d)
    (connectPassword d) (spawnStartTime d) (timeout d).
Definition set_writes (x : list WriteOutcome) (y : string) (d : NegotiationDetails) :=
  mkDetails (stderrCapturer d) (stderrRest d) (pid d) (options d) (debugDir d)
    (fileOwner d) (expectedUid d) x y (io d) (gupid d)
    (connectPassword d) (spawnStartTime d) (timeout d).
Definition set_start (g c : string) (t0 tmo : Z) (d : NegotiationDetails) :=
  mkDetails (stderrCapturer d) (stderrRest d) (pid d) (options d) (debugDir d)
    (fileOwner d) (expectedUid d) (writes d) (sent d) (io d) g c t0 tmo.

(** A computation on the negotiation state. *)
Definition M (A : Type) : Type := NegotiationDetails -> Outcome A * NegotiationDetails.

Definition ret {A} (a : A) : M A := fun d => (Return a, d).
Definition throw {A} (e : Exception) : M A := fun d => (Throw e, d).
Definition bind {A B} (m : M A) (f : A -> M B) : M B :=
  fun d =>
    match m d with
    | (Return a, d') => f a d'
    | (Throw e, d') => (Throw e, d')
    | (Undefined, d') => (Undefined, d')
    end.

(** try { m } catch (e) { h e } *)
Definition try_catch {A} (m : M A) (h : Exception -> M A) : M A :=
  fun d =>
    match m d with
    | (Throw e, d') => h e d'
    | r => r
    end.

Notation "'do' x <- m ; k" := (bind m (fun x => k))
  (at level 10, x name, m at level 100, k at level 200).
Notation "'run' m ; k" := (bind m (fun _ => k))
  (at level 10, m at level 100, k at level 200).

Definition io_readLine (max : nat) : M string :=
  fun d => let '(r, io') := readLine max (io d) in (r, set_io io' d).
Definition io_readAll : M string :=
  fun d => let '(r, io') := readAll (io d) in (r, set_io io' d).

(** std::string::find(needle): the position of the first occurrence. *)
Fixpoint find (needle s : string) : option nat :=
  if String.prefix needle s then Some 0%nat
  else match s with
       | EmptyString => None
       | String _ s' => option_map S (find needle s')
       end.

Definition startsWith (s prefix : string) : bool := String.prefix prefix s.

(** writeExact() on the admin socket. *)
Definition writeExact (data : string) : M unit :=
  fun d =>
    match writes d with
    | [] | Written :: _ => (Return tt, set_writes (tail (writes d)) (sent d +:+ data) d)
    | WriteFails sys code :: w => (Throw (SystemException sys code), set_writes w (sent d) d)
    | WriteTimesOut :: w => (Throw TimeoutException, set_writes w (sent d) d)
    end.

(** The loop of sendSpawnRequest() over the flattened options; a vector
    of odd length makes it read past the end. *)
Fixpoint appendArgs (data : string) (args : list string) : option string :=
  match args with
  | [] => Some data
  | key :: value :: args' => appendArgs (data +:+ key +:+ ": " +:+ value +:+ LF) args'
  | [_] => None
  end.

Definition spawnRequestHeader (c : Config) (d : NegotiationDetails) : string :=
  "You have control 1.0" +:+ LF +:+
  "passenger_root: " +:+ passengerRoot c +:+ LF +:+
  "passenger_version: " +:+ passengerVersion c +:+ LF +:+
  "ruby_libdir: " +:+ rubyLibDir c +:+ LF +:+
  "generation_dir: " +:+ generationPath c +:+ LF +:+
  "gupid: " +:+ gupid d +:+ LF +:+
  "connect_password: " +:+ connectPassword d +:+ LF.

Definition sendSpawnRequest (c : Config) : M unit :=
  try_catch
    (fun d =>
       match appendArgs (spawnRequestHeader c d) (Options.toVector (options d)) with
       | None => (Undefined, d)
       | Some data => (run writeExact data; writeExact LF) d
       end)
    (fun e =>
       match e with
       | SystemException _ code => if code =? EPIPE then ret tt else throw e
       | _ => throw e
       end).

(** annotateAppSpawnException() *)
Definition annotations_of (d : NegotiationDetails) : gmap string string :=
  match debugDir d with
  | Some files => files
  | None => ∅
  end.

(** throwAppSpawnException(): the captured stderr output becomes the
    error page; unless the error is a timeout, what the child still
    writes to stderr is appended. *)
Definition throwAppSpawnException {A} (msg : string) (errorKind : ErrorKind) : M A :=
  fun d =>
    let stderrOutput :=
      match stderrCapturer d with
      | Some data =>
          if bool_decide (errorKind <> PRELOADER_STARTUP_TIMEOUT)
             && bool_decide (errorKind <> APP_STARTUP_TIMEOUT)
          then data +:+ stderrRest d else data
      | None => EmptyString
      end in
    let d' := set_stderrCapturer None d in
    (Throw (SpawnException msg stderrOutput false errorKind (annotations_of d')), d').

(** readMessageLine(): lines that do not start with "!> " go to the
    captured output and the next line is read. Every line read is not
    empty, so [fuel] bounds the loop by the length of the pending data. *)
Fixpoint readMessageLine_loop (fuel : nat) : M string :=
  match fuel with
  | O => fun d => (Undefined, d)
  | S fuel' =>
      do result <- io_readLine 4096;
      if String.eqb result EmptyString then ret result
      else if startsWith result "!> " then
        ret (substring 3 (String.length result - 3) result)
      else
        run (fun d =>
           (Return tt,
            match stderrCapturer d with
            | Some data => set_stderrCapturer (Some (data +:+ result)) d
            | None => d
            end));
        readMessageLine_loop fuel'
  end.

Definition readMessageLine : M string :=
  fun d => readMessageLine_loop (S (String.length (pending (io d)))) d.

(** handleSpawnErrorResponse(): the attribute lines, then the body. *)
Fixpoint handleSpawnErrorResponse_loop {A} (fuel : nat)
    (attributes : gmap string string) (k : gmap string string -> M A) : M A :=
  match fuel with
  | O => fun d => (Undefined, d)
  | S fuel' =>
      do line <- readMessageLine;
      if String.eqb line EmptyString then
        throwAppSpawnException
          ("An error occurred while starting the " +:+
           "web application. It unexpected closed the connection while " +:+
           "sending its startup response.")
          APP_STARTUP_PROTOCOL_ERROR
      else if negb (endsWithNewline line) then
        throwAppSpawnException
          ("An error occurred while starting the " +:+
           "web application. It sent a line without a newline character " +:+
           "in its startup response.")
          APP_STARTUP_PROTOCOL_ERROR
      else if String.eqb line LF then k attributes
      else
        match find ": " line with
        | None =>
            throwAppSpawnException
              ("An error occurred while starting the " +:+
               "web application. It sent a startup response line without " +:+
               "separator.")
              APP_STARTUP_PROTOCOL_ERROR
        | Some pos =>
            let key := substring 0 pos line in
            let value := substring (pos + 2) (String.length line - pos - 3) line in
            handleSpawnErrorResponse_loop fuel' (<[key := value]> attributes) k
        end
  end.

Definition handleSpawnErrorResponse {A} : M A :=
  fun d0 =>
    handleSpawnErrorResponse_loop (S (String.length (pending (io d0)))) ∅
      (fun attributes =>
         try_catch
           (do message <- io_readAll;
            fun d =>
              (Throw (SpawnException
                        "An error occured while starting the web application."
                        message
                        (String.eqb (default EmptyString (attributes !! "html")) "true")
                        APP_STARTUP_EXPLAINABLE_ERROR
                        (annotations_of d)), d))
           (fun e =>
              match e with
              | SystemException sys _ =>
                  throwAppSpawnException
                    ("An error occurred while starting the " +:+
                     "web application. It tried to report an error message, but " +:+
                     "an I/O error occurred while reading this error message: " +:+ sys)
                    APP_STARTUP_PROTOCOL_ERROR
              | TimeoutException =>
                  throwAppSpawnException
                    ("An error occurred while starting the " +:+
                     "web application. It tried to report an error message, but " +:+
                     "it took too much time doing that.")
                    APP_STARTUP_TIMEOUT
              | _ => throw e
              end))
      d0.

(** Modelled from the spec: the address helpers of Utils/IOUtils.h.
    "<address> is unix:/absolute/path or tcp://host:port". *)
Inductive ServerAddressType := SAT_UNIX | SAT_TCP | SAT_UNKNOWN.

Definition getSocketAddressType (address : string) : ServerAddressType :=
  if startsWith address "unix:" then SAT_UNIX
  else if startsWith address "tcp://" then SAT_TCP
  else SAT_UNKNOWN.

Definition parseUnixSocketAddress (address : string) : string :=
  substring 5 (String.length address - 5) address.

(** Modelled from the spec: split() of Utils/StrIntUtils.h, which cuts
    a string at every occurrence of the separator, as in the record
    "socket: <name>;<address>;<protocol>;<concurrency>"; the empty
    string has no component. *)
Fixpoint split_aux (sep : ascii) (cur : string) (s : string) : list string :=
  match s with
  | EmptyString => [cur]
  | String c s' =>
      if Ascii.eqb c sep then cur :: split_aux sep EmptyString s'
      else split_aux sep (cur +:+ String c EmptyString) s'
  end.

Definition split (s : string) (sep : ascii) : list string :=
  match s with
  | EmptyString => []
  | _ => split_aux sep EmptyString s
  end.

(** atoi() of the C library: white space, an optional sign, then the
    longest run of decimal digits; [None] when the value does not fit
    an [int]. *)
Definition isspace (c : ascii) : bool :=
  let n := nat_of_ascii c in
  Nat.eqb n 32 || (Nat.leb 9 n && Nat.leb n 13).

Definition isdigit (c : ascii) : bool :=
  let n := nat_of_ascii c in Nat.leb 48 n && Nat.leb n 57.

Fixpoint atoi_digits (acc : Z) (s : string) : Z :=
  match s with
  | String c s' =>
      if isdigit c then atoi_digits (acc * 10 + (Z.of_nat (nat_of_ascii c) - 48)) s'
      else acc
  | EmptyString => acc
  end.

Fixpoint atoi_skip (s : string) : string :=
  match s with
  | String c s' => if isspace c then atoi_skip s' else s
  | EmptyString => s
  end.

Definition atoi (s : string) : option Z :=
  let v :=
    match atoi_skip s with
    | String "-" s' => - atoi_digits 0 s'
    | String "+" s' => atoi_digits 0 s'
    | s' => atoi_digits 0 s'
    end in
  if (- INT_MAX - 1 <=? v) && (v <=? INT_MAX) then Some v else None.

(** fixupSocketAddress() *)
Definition fixupSocketAddress (o : Options.t) (address : string) : string :=
  if negb (String.eqb (Options.preexecChroot o) EmptyString)
     && negb (String.eqb (Options.postexecChroot o) EmptyString) then
    match getSocketAddressType address with
    | SAT_UNIX =>
        let filename := parseUnixSocketAddress address in
        let fixedAddress := "unix:" in
        let fixedAddress :=
          if negb (String.eqb (Options.preexecChroot o) EmptyString)
          then fixedAddress +:+ Options.preexecChroot o else fixedAddress in
        let fixedAddress :=
          if negb (String.eqb (Options.postexecChroot o) EmptyString)
          then fixedAddress +:+ Options.postexecChroot o else fixedAddress in
        fixedAddress +:+ filename
    | _ => address
    end
  else address.

(** isAbsolutePath() *)
Definition isAbsolutePath (path : string) : bool :=
  match path with
  | String "/" _ =>
      forallb
        (fun component =>
           negb (String.eqb component EmptyString || String.eqb component "."
                 || String.eqb component ".."))
        (tail (split path "/"))
  | _ => false
  end.

(** validateSocketAddress(): the error text, empty when the address is
    accepted. *)
Definition validateSocketAddress (c : Config) (d : NegotiationDetails)
    (_address : string) : string :=
  match getSocketAddressType _address with
  | SAT_UNIX =>
      let address := fixupSocketAddress (options d) _address in
      let filename := parseUnixSocketAddress address in
      if negb (isAbsolutePath filename) then
        "It reported a non-absolute socket filename: " +:+ DQUOTE +:+
        cEscapeString c filename +:+ DQUOTE
      else
        match fileOwner d filename with
        | inr e =>
            "It reported an inaccessible socket filename: " +:+ DQUOTE +:+
            cEscapeString c filename +:+ DQUOTE +:+ " (lstat() failed with errno " +:+
            pretty e +:+ ": " +:+ strerror c e +:+ ")"
        | inl uid =>
            if negb (uid =? expectedUid d) then
              "It advertised a Unix domain socket that has a different " +:+
              "owner than expected (should be UID " +:+ pretty (expectedUid d) +:+
              ", but actual UID was " +:+ pretty uid +:+ ")"
            else EmptyString
        end
  | SAT_TCP => EmptyString
  | SAT_UNKNOWN =>
      "It reported an unsupported socket address type: " +:+ DQUOTE +:+
      cEscapeString c _address +:+ DQUOTE
  end.

(** Modelled from the spec: SocketList::hasSessionSockets() (Socket.h);
    the session sockets are "those whose protocol advertises session
    semantics", the ones indexSessionSockets() queues. *)
Definition hasSessionSockets (l : list Socket.t) : bool :=
  existsb
    (fun s => String.eqb (Socket.protocol s) "session"
              || String.eqb (Socket.protocol s) "http_session") l.

(** The handler of the two catch clauses around readMessageLine(). *)
Definition readFailed {A} (what : string) (e : Exception) : M A :=
  match e with
  | SystemException sys _ =>
      throwAppSpawnException
        ("An error occurred while starting the " +:+
         "web application. There was an I/O error while reading its " +:+
         what +:+ ": " +:+ sys)
        APP_STARTUP_PROTOCOL_ERROR
  | TimeoutException =>
      throwAppSpawnException
        ("An error occurred while starting the " +:+
         "web application: it did not write a " +:+ what +:+ " in time.")
        APP_STARTUP_TIMEOUT
  | _ => throw e
  end.

(** The reading loop of handleSpawnResponse(). *)
Fixpoint handleSpawnResponse_loop (c : Config) (fuel : nat)
    (sockets : list Socket.t) : M (list Socket.t) :=
  match fuel with
  | O => fun d => (Undefined, d)
  | S fuel' =>
      do line <- try_catch readMessageLine (readFailed "startup response");
      if String.eqb line EmptyString then
        throwAppSpawnException
          ("An error occurred while starting the " +:+
           "web application. It unexpected closed the connection while " +:+
           "sending its startup response.")
          APP_STARTUP_PROTOCOL_ERROR
      else if negb (endsWithNewline line) then
        throwAppSpawnException
          ("An error occurred while starting the " +:+
           "web application. It sent a line without a newline character " +:+
           "in its startup response.")
          APP_STARTUP_PROTOCOL_ERROR
      else if String.eqb line LF then ret sockets
      else
        match find ": " line with
        | None =>
            throwAppSpawnException
              ("An error occurred while starting the " +:+
               "web application. It sent a startup response line without " +:+
               "separator.")
              APP_STARTUP_PROTOCOL_ERROR
        | Some pos =>
            let key := substring 0 pos line in
            let value := substring (pos + 2) (String.length line - pos - 3) line in
            if String.eqb key "socket" then
              match split value ";" with
              | [a0; a1; a2; a3] =>
                  fun d =>
                    let error := validateSocketAddress c d a1 in
                    if negb (String.eqb error EmptyString) then
                      throwAppSpawnException
                        ("An error occurred while starting the web application. "
                         +:+ error)
                        APP_STARTUP_PROTOCOL_ERROR d
                    else
                      match atoi a3 with
                      | Some n =>
                          handleSpawnResponse_loop c fuel'
                            (sockets ++
                             [Socket.mk a0 (fixupSocketAddress (options d) a1) a2 n 0]) d
                      | None => (Undefined, d)
                      end
              | _ =>
                  throwAppSpawnException
                    ("An error occurred while starting the " +:+
                     "web application. It reported a wrongly formatted 'socket'" +:+
                     "response value: '" +:+ value +:+ "'")
                    APP_STARTUP_PROTOCOL_ERROR
              end
            else
              throwAppSpawnException
                ("An error occurred while starting the " +:+
                 "web application. It sent an unknown startup response line " +:+
                 "called '" +:+ key +:+ "'.")
                APP_STARTUP_PROTOCOL_ERROR
        end
  end.

(** handleSpawnResponse(); [now] is the time at which the Process
    object is constructed. *)
Definition handleSpawnResponse (c : Config) (now : Z) : M Process.t :=
  fun d0 =>
    (do sockets <-
       handleSpawnResponse_loop c (S (String.length (pending (io d0)))) [];
     if negb (hasSessionSockets sockets) then
       throwAppSpawnException
         ("An error occured while starting the web " +:+
          "application. It did not advertise any session sockets.")
         APP_STARTUP_PROTOCOL_ERROR
     else
       fun d =>
         match Process.make now (pid d) (gupid d) (connectPassword d) sockets
                 (creationTime c) (spawnStartTime d) with
         | Some p => (Return p, d)
         | None => (Undefined, d)
         end) d0.

Definition handleInvalidSpawnResponseType {A} (c : Config) (line : string) : M A :=
  throwAppSpawnException
    ("An error occurred while starting " +:+
     "the web application. It sent an unknown response type " +:+ DQUOTE +:+
     cEscapeString c line +:+ DQUOTE +:+ ".")
    APP_STARTUP_PROTOCOL_ERROR.

(** negotiateSpawn(): [now] is SystemTime::getUsec() on entry,
    [gupid_] and [connectPassword_] are the strings that the clock and
    the random generator produce, [now'] is the time at which a Process
    is constructed. *)
Definition negotiateSpawn (c : Config) (now : Z) (gupid_ connectPassword_ : string)
    (now' : Z) : M Process.t :=
  fun d0 =>
    let d1 := set_start gupid_ connectPassword_ now
                (wrap64 (Options.startTimeout (options d0) * 1000)) d0 in
    (do result <- try_catch readMessageLine (readFailed "handshake message");
     if String.eqb result ("I have control 1.0" +:+ LF) then
       run sendSpawnRequest c;
       do result <- try_catch readMessageLine (readFailed "startup response");
       if String.eqb result ("Ready" +:+ LF) then handleSpawnResponse c now'
       else if String.eqb result ("Error" +:+ LF) then handleSpawnErrorResponse
       else handleInvalidSpawnResponseType c result
     else
       if String.eqb result ("Error" +:+ LF) then handleSpawnErrorResponse
       else handleInvalidSpawnResponseType c result) d1.

(** The wire format of the child: a protocol line carries the prefix
    "!> " and ends with a line feed. *)
Definition protocolLine (text : string) : string := "!> " +:+ text +:+ LF.

Definition attributeLine (kv : string * string) : string :=
  protocolLine (fst kv +:+ ": " +:+ snd kv).

Fixpoint attributeLines (l : list (string * string)) : string :=
  match l with
  | [] => EmptyString
  | kv :: l' => attributeLine kv +:+ attributeLines l'
  end.

Fixpoint noLineFeed (s : string) : bool :=
  match s with
  | EmptyString => true
  | String c s' => negb (Ascii.eqb c "010") && noLineFeed s'
  end.

(** An attribute that the child can send on one line and the parent
    splits at the right place. *)
Definition attributeOk (kv : string * string) : bool :=
  noLineFeed (fst kv) && noLineFeed (snd kv)
  && bool_decide (find ": " (fst kv) = None)
  && Nat.leb (String.length (attributeLine kv)) 4096.

(** The [attributes] map of handleSpawnErrorResponse() after the lines
    of [l]: a later line overrides an earlier one with the same key. *)
Definition attributesOf (l : list (string * string)) : gmap string string :=
  fold_left (fun m kv => <[fst kv := snd kv]> m) l ∅.

(** What the child writes to its stdout besides the protocol: lines
    without the prefix, each ended by a line feed. *)
Fixpoint plainLines (ls : list string) : string :=
  match ls with
  | [] => EmptyString
  | l :: ls' => l +:+ LF +:+ plainLines ls'
  end.

Definition plainOk (l : string) : bool :=
  noLineFeed l && negb (startsWith (l +:+ LF) "!> ") && Nat.ltb (String.length l) 4096.

(** The lines of a spawn request that carry the options. *)
Fixpoint requestLines (pairs : list (string * string)) : string :=
  match pairs with
  | [] => EmptyString
  | kv :: pairs' => fst kv +:+ ": " +:+ snd kv +:+ LF +:+ requestLines pairs'
  end.

(** A socket as the child advertises it: name, address, protocol and
    the decimal text of the concurrency. *)
Record Advertised := mkAdvertised {
  adv_name : string;
  adv_address : string;
  adv_protocol : string;
  adv_concurrency : string
}.

Fixpoint lacks (c : ascii) (s : string) : bool :=
  match s with
  | EmptyString => true
  | String x s' => negb (Ascii.eqb x c) && lacks c s'
  end.

Definition socketValue (a : Advertised) : string :=
  adv_name a +:+ ";" +:+ adv_address a +:+ ";" +:+ adv_protocol a +:+ ";"
  +:+ adv_concurrency a.

Definition socketLine (a : Advertised) : string :=
  attributeLine ("socket", socketValue a).

Fixpoint socketLines (l : list Advertised) : string :=
  match l with
  | [] => EmptyString
  | a :: l' => socketLine a +:+ socketLines l'
  end.

(** A TCP socket advertised on one line that the parent splits at the
    right places. *)
Definition advertisedOk (a : Advertised) : bool :=
  lacks ";" (adv_name a) && lacks ";" (adv_address a) && lacks ";" (adv_protocol a)
  && lacks ";" (adv_concurrency a)
  && noLineFeed (socketValue a)
  && Nat.leb (String.length (socketLine a)) 4096
  && startsWith (adv_address a) "tcp://"
  && bool_decide (is_Some (atoi (adv_concurrency a))).

(** The Socket that handleSpawnResponse() adds for an advertised TCP
    socket. *)
Definition socketOf (a : Advertised) : Socket.t :=
  Socket.mk (adv_name a) (adv_address a) (adv_protocol a)
    (default 0 (atoi (adv_concurrency a))) 0.

(** The first failure among the two writes of sendSpawnRequest(). *)
Definition sendFailure (ws : list WriteOutcome) : option WriteOutcome :=
  match ws with
  | WriteFails sys code :: _ => Some (WriteFails sys code)
  | WriteTimesOut :: _ => Some WriteTimesOut
  | Written :: WriteFails sys code :: _ => Some (WriteFails sys code)
  | Written :: WriteTimesOut :: _ => Some WriteTimesOut
  | _ => None
  end.

(** The writes of sendSpawnRequest() succeed or end in EPIPE. *)
Definition sendCompletes (ws : list WriteOutcome) : bool :=
  match sendFailure ws with
  | None => true
  | Some (WriteFails _ code) => code =? EPIPE
  | Some _ => false
  end.

End Spawner.

(** ** Pool (Pool.h) and the classes it drives *)

Inductive PoolException := GetAbortedException (what : string).

(** A GetCallback is identified by a number chosen by the caller. *)
Definition GetCallback := nat.

Record GetWaiter := mkGetWaiter {
  waiter_options : Options.t;
  waiter_callback : GetCallback
}.

(** The closures that are collected while the lock is held and run
    after it: a GetCallback bound to its arguments, or a closure bound
    by Group or SuperGroup, of which only a tag is known. *)
Inductive Callback :=
  | CallGetCallback (cb : GetCallback) (session : option Session)
      (e : option PoolException)
  | CollaboratorAction (tag : string).

Inductive ShutdownResult := SUCCESS | CANCELED.

Global Instance ShutdownResult_eq_dec : EqDecision ShutdownResult.
Proof. solve_decision. Defined.

(** Modelled from the spec: StringMap (Utils/StringMap.h), the type of
    Pool::superGroups, a map from app-group name to SuperGroup. It is an
    association list here because the Pool iterates over it; the order
    of the list is the order of iteration. *)
Module StringMap.

Fixpoint get {V} (m : list (string * V)) (k : string) : option V :=
  match m with
  | [] => None
  | (k', v) :: m' => if String.eqb k' k then Some v else get m' k
  end.

Fixpoint set {V} (m : list (string * V)) (k : string) (v : V) : list (string * V) :=
  match m with
  | [] => [(k, v)]
  | (k', v') :: m' => if String.eqb k' k then (k, v) :: m' else (k', v') :: set m' k v
  end.

Fixpoint remove {V} (m : list (string * V)) (k : string) : bool * list (string * V) :=
  match m with
  | [] => (false, [])
  | (k', v') :: m' =>
      if String.eqb k' k then (true, m')
      else let '(b, r) := remove m' k in (b, (k', v') :: r)
  end.

End StringMap.

(** Modelled from the spec: Group (Group.h). "Three ordered lists of
    Processes (enabled / disabling / disabled), a FIFO getWaitlist of
    (Options, callback) pairs, a Spawner reference plus its idle timer,
    counters (enabledCount, disablingCount, disabledCount)", the
    detachedProcesses collection of Process.h, and the number of
    Processes being spawned, which reserve capacity. *)
Module Group.

Record t := mk {
  name : string;
  options : Options.t;
  enabledProcesses : ProcessList.t;
  disablingProcesses : ProcessList.t;
  disabledProcesses : ProcessList.t;
  detachedProcesses : ProcessList.t;
  enabledCount : Z;
  disablingCount : Z;
  disabledCount : Z;
  getWaitlist : list GetWaiter;
  processesBeingSpawned : Z;
  spawnerCleanable : bool;             (* spawner->cleanable() *)
  spawnerLastUsed : Z                  (* spawner->lastUsed() *)
}.

(** "processCount is the sum over all Groups of (enabled + disabling +
    disabled) Processes plus Processes currently being spawned";
    "utilization counts the same set". *)
Definition utilization (g : t) : Z :=
  enabledCount g + disablingCount g + disabledCount g + processesBeingSpawned g.

Definition getProcessCount (g : t) : Z := utilization g.

(** Removes the first process with the given gupid; tells whether there
    was one. *)
Fixpoint remove (gupid : string) (l : ProcessList.t) : bool * ProcessList.t :=
  match l with
  | [] => (false, [])
  | p :: l' =>
      if String.eqb (Process.gupid p) gupid then (true, l')
      else let '(b, r) := remove gupid l' in (b, p :: r)
  end.

(** "detach(process). Remove from its list; if ALIVE mark
    SHUTTING_DOWN and gracefully close its admin channel"; the Process
    enters detachedProcesses. *)
Definition detach (g : t) (process : Process.t) : t :=
  let '(b1, l1) := remove (Process.gupid process) (enabledProcesses g) in
  let '(b2, l2) := if b1 then (false, disablingProcesses g)
                   else remove (Process.gupid process) (disablingProcesses g) in
  let '(b3, l3) := if b1 || b2 then (false, disabledProcesses g)
                   else remove (Process.gupid process) (disabledProcesses g) in
  let process' := if Process.isAlive process
                  then Process.set_lifeStatus SHUTTING_DOWN process else process in
  mk (name g) (options g) l1 l2 l3 (detachedProcesses g ++ [process'])
     (if b1 then enabledCount g - 1 else enabledCount g)
     (if b2 then disablingCount g - 1 else disablingCount g)
     (if b3 then disabledCount g - 1 else disabledCount g)
     (getWaitlist g) (processesBeingSpawned g) (spawnerCleanable g) (spawnerLastUsed g).

(** The Processes that are attached to the Group. *)
Definition processes (g : t) : ProcessList.t :=
  enabledProcesses g ++ disablingProcesses g ++ disabledProcesses g.

Definition set_spawner (cleanable : bool) (lastUsed : Z) (g : t) : t :=
  mk (name g) (options g) (enabledProcesses g) (disablingProcesses g)
     (disabledProcesses g) (detachedProcesses g) (enabledCount g) (disablingCount g)
     (disabledCount g) (getWaitlist g) (processesBeingSpawned g) cleanable lastUsed.

End Group.

(** Modelled from the spec: SuperGroup (SuperGroup.h). "Name, state,
    default Group, component list, and its own getWaitlist populated
    only while INITIALIZING". *)
Module SuperGroup.

Inductive State := INITIALIZING | READY | RESTARTING | DESTROYING | DESTROYED.

Record t := mk {
  name : string;
  state : State;
  groups : list Group.t;
  getWaitlist : list GetWaiter;
  options : Options.t
}.

Definition set_groups (l : list Group.t) (sg : t) : t :=
  mk (name sg) (state sg) l (getWaitlist sg) (options sg).
Definition set_getWaitlist (l : list GetWaiter) (sg : t) : t :=
  mk (name sg) (state sg) (groups sg) l (options sg).

Definition utilization (sg : t) : Z :=
  fold_left (fun n g => n + Group.utilization g) (groups sg) 0.

Definition getProcessCount (sg : t) : Z :=
  fold_left (fun n g => n + Group.getProcessCount g) (groups sg) 0.

Definition processes (sg : t) : ProcessList.t := flat_map Group.processes (groups sg).

(** The constructor followed by initialize(): the SuperGroup is named
    after the app group and is still initializing. *)
Definition create (o : Options.t) : t :=
  mk (Options.getAppGroupName o) INITIALIZING [] [] o.

End SuperGroup.

(** What a method of Group or SuperGroup can see of the Pool. *)
Record PoolView := mkView { view_utilization : Z; view_max : Z }.

(** The methods of Group and SuperGroup that the Pool calls and the
    specification does not determine. SuperGroup::get() returns the
    session, if any, and the SuperGroup as it has changed it;
    SuperGroup::destroy() returns the closures it schedules and the
    result its shutdown callback will receive; [Group_detachActions]
    are the closures Group::detach() schedules; Group::cleanupSpawner()
    acts on the Spawner only and returns what cleanable() and
    lastUsed() answer afterwards, with the closures it schedules. *)
Class Collaborators := {
  SuperGroup_get :
    PoolView -> SuperGroup.t -> Options.t -> GetCallback -> SuperGroup.t * option Session;
  SuperGroup_destroy : SuperGroup.t -> SuperGroup.t * list Callback * ShutdownResult;
  Group_detachActions : Group.t -> Process.t -> list Callback;
  Group_isWaitingForCapacity : Group.t -> bool;
  Group_shouldSpawn : PoolView -> Group.t -> bool;
  Group_spawn : PoolView -> Group.t -> Group.t;
  Group_cleanupSpawner : Group.t -> bool * Z * list Callback
}.

Module Pool.

Record t := mk {
  max : Z;
  maxIdleTime : Z;
  lifeStatus : LifeStatus;
  superGroups : list (string * SuperGroup.t);
  getWaitlist : list GetWaiter
}.

Definition set_max (n : Z) (p : t) : t :=
  mk n (maxIdleTime p) (lifeStatus p) (superGroups p) (getWaitlist p).
Definition set_maxIdleTime (n : Z) (p : t) : t :=
  mk (max p) n (lifeStatus p) (superGroups p) (getWaitlist p).
Definition set_lifeStatus (s : LifeStatus) (p : t) : t :=
  mk (max p) (maxIdleTime p) s (superGroups p) (getWaitlist p).
Definition set_superGroups (m : list (string * SuperGroup.t)) (p : t) : t :=
  mk (max p) (maxIdleTime p) (lifeStatus p) m (getWaitlist p).
Definition set_getWaitlist (l : list GetWaiter) (p : t) : t :=
  mk (max p) (maxIdleTime p) (lifeStatus p) (superGroups p) l.

(** The constructor. *)
Definition create : t := mk 6 (60 * 1000000) ALIVE [] [].

(** utilization(): an [int] accumulator returned as [unsigned int]. *)
Definition utilization (p : t) : Z :=
  wrap32 (fold_left (fun n e => n + SuperGroup.utilization (snd e)) (superGroups p) 0).

Definition atFullCapacity (p : t) : bool := max p <=? utilization p.

Definition getProcessCount (p : t) : Z :=
  wrap32 (fold_left (fun n e => n + SuperGroup.getProcessCount (snd e)) (superGroups p) 0).

Definition getSuperGroupCount (p : t) : Z := Z.of_nat (length (superGroups p)).

(** verifyInvariants(): the conjunction of its two assertions. *)
Definition verifyInvariants (p : t) : bool :=
  (negb (negb (bool_decide (getWaitlist p = []))) || atFullCapacity p)
  && (negb (negb (atFullCapacity p)) || bool_decide (getWaitlist p = [])).

(** verifyExpensiveInvariants() *)
Definition verifyExpensiveInvariants (p : t) : bool :=
  forallb
    (fun waiter =>
       match StringMap.get (superGroups p)
               (Options.getAppGroupName (waiter_options waiter)) with
       | None => true
       | Some _ => false
       end)
    (getWaitlist p).

(** [process->utilization() == 0]; an undefined conversion does not
    compare equal to 0. *)
Definition utilization_is_zero (process : Process.t) : bool :=
  match Process.utilization process with
  | Some u => u =? 0
  | None => false
  end.

(** The body of the innermost loop of findOldestIdleProcess(). *)
Definition oldestIdle_step (oldestIdleProcess : option Process.t)
    (process : Process.t) : option Process.t :=
  if utilization_is_zero process
     && match oldestIdleProcess with
        | None => true
        | Some o => Process.lastUsed process <? Process.lastUsed o
        end
  then Some process else oldestIdleProcess.

Definition findOldestIdleProcess (p : t) : option Process.t :=
  fold_left
    (fun acc e =>
       fold_left
         (fun acc g => fold_left oldestIdle_step (Group.enabledProcesses g) acc)
         (SuperGroup.groups (snd e)) acc)
    (superGroups p) None.

(** The body of the innermost loop of findBestProcessToTrash(). *)
Definition oldest_step (oldestProcess : option Process.t)
    (process : Process.t) : option Process.t :=
  if match oldestProcess with
     | None => true
     | Some o => Process.lastUsed process <? Process.lastUsed o
     end
  then Some process else oldestProcess.

Definition findBestProcessToTrash (p : t) : option Process.t :=
  fold_left
    (fun acc e =>
       fold_left
         (fun acc g => fold_left oldest_step (Group.enabledProcesses g) acc)
         (SuperGroup.groups (snd e)) acc)
    (superGroups p) None.

Definition findMatchingSuperGroup (p : t) (o : Options.t) : option SuperGroup.t :=
  StringMap.get (superGroups p) (Options.getAppGroupName o).

(** getProcesses() *)
Definition getProcesses (p : t) : list Process.t :=
  flat_map
    (fun e =>
       flat_map
         (fun g => Group.enabledProcesses g ++ Group.disablingProcesses g
                   ++ Group.disabledProcesses g)
         (SuperGroup.groups (snd e)))
    (superGroups p).

(** The enabled Processes, in the order in which findOldestIdleProcess()
    and findBestProcessToTrash() visit them. *)
Definition enabledProcessesOf (p : t) : list Process.t :=
  flat_map
    (fun e => flat_map Group.enabledProcesses (SuperGroup.groups (snd e)))
    (superGroups p).

(** A Process with this gupid is attached to a Group of the Pool. *)
Definition attached (p : t) (gupid : string) : Prop :=
  In gupid (map Process.gupid (getProcesses p)).

(** findProcessByGupid() *)
Definition findProcessByGupid (p : t) (gupid : string) : option Process.t :=
  List.find (fun process => String.eqb (Process.gupid process) gupid) (getProcesses p).

(** assignExceptionToGetWaiters(): empties the queue and binds every
    callback to a null session and the exception. *)
Definition assignExceptionToGetWaiters (getWaitlist : list GetWaiter)
    (exception : PoolException) (postLockActions : list Callback)
    : list GetWaiter * list Callback :=
  ([], postLockActions
       ++ map (fun w => CallGetCallback (waiter_callback w) None (Some exception))
            getWaitlist).

(** migrateSuperGroupGetWaitlistToPool() *)
Definition migrateSuperGroupGetWaitlistToPool (p : t) (sg : SuperGroup.t)
    : t * SuperGroup.t :=
  (set_getWaitlist (getWaitlist p ++ SuperGroup.getWaitlist sg) p,
   SuperGroup.set_getWaitlist [] sg).

(** The positions of all Groups, in the order of iteration. *)
Definition groupPositions (p : t) : list (nat * nat) :=
  flat_map
    (fun ie => map (fun j => (fst ie, j))
                 (seq 0 (length (SuperGroup.groups (snd (snd ie))))))
    (imap (fun i e => (i, e)) (superGroups p)).

Definition groupAt (p : t) (pos : nat * nat) : option Group.t :=
  match superGroups p !! fst pos with
  | Some e => SuperGroup.groups (snd e) !! snd pos
  | None => None
  end.

Definition setGroupAt (p : t) (pos : nat * nat) (g : Group.t) : t :=
  match superGroups p !! fst pos with
  | Some e =>
      set_superGroups
        (<[fst pos := (fst e, SuperGroup.set_groups
                                (<[snd pos := g]> (SuperGroup.groups (snd e))) (snd e))]>
           (superGroups p)) p
  | None => p
  end.

(** The Group a Process points back to (process->getGroup()), if the
    Pool still holds it. *)
Definition findGroup (p : t) (name : string) : option (nat * nat) :=
  List.find
    (fun pos => match groupAt p pos with
                | Some g => String.eqb (Group.name g) name
                | None => false
                end)
    (groupPositions p).

(** The time after which a Process or a Spawner is collected:
    [unsigned long long] addition. *)
Definition processGcTime (p : t) (process : Process.t) : Z :=
  wrap64 (Process.lastUsed process + maxIdleTime p).

Definition spawnerGcTime (g : Group.t) : Z :=
  wrap64 (Group.spawnerLastUsed g
          + Options.getMaxPreloaderIdleTime (Group.options g) * 1000000).

(** The test realGarbageCollect() applies to an enabled Process. *)
Definition gcEligible (p : t) (now : Z) (g : Group.t) (process : Process.t) : bool :=
  (Process.sessions process =? 0)
  && (processGcTime p process <=? now)
  && (Options.minProcesses (Group.options g) <? wrap64 (Group.enabledCount g)).

(** How a Group [g'] relates to the Group [g] it was before the
    collector ran: the same Group, with an enabled count that has not
    grown and has not fallen below minProcesses unless it was there, and
    a list of enabled Processes that has shrunk by as much as the
    count. *)
Definition gcFloor (g g' : Group.t) : Prop :=
  Group.name g' = Group.name g
  /\ Group.options g' = Group.options g
  /\ Z.min (Group.enabledCount g) (Options.minProcesses (Group.options g))
     <= Group.enabledCount g' <= Group.enabledCount g
  /\ Z.of_nat (length (Group.enabledProcesses g')) - Group.enabledCount g'
     = Z.of_nat (length (Group.enabledProcesses g)) - Group.enabledCount g.

(** The range of the counters the collector compares: a count of
    Processes and [unsigned int minProcesses] are not negative. *)
Definition countsInRange (g : Group.t) : Prop :=
  0 <= Group.enabledCount g <= ULLONG_MAX
  /\ 0 <= Options.minProcesses (Group.options g).

Definition nextGcRunTime_update (nextGcRunTime t : Z) : Z :=
  if (nextGcRunTime =? 0) || (t <? nextGcRunTime) then t else nextGcRunTime.

Section WithCollaborators.

Context {C : Collaborators}.

Definition view (p : t) : PoolView := mkView (utilization p) (max p).

(** createSuperGroup() *)
Definition createSuperGroup (p : t) (o : Options.t) : t * SuperGroup.t :=
  let superGroup := SuperGroup.create o in
  (set_superGroups (StringMap.set (superGroups p) (Options.getAppGroupName o) superGroup) p,
   superGroup).

(** superGroup->get(options, callback) on the SuperGroup stored under
    [key]; the map holds the object, so it sees the change. *)
Definition getFrom (p : t) (key : string) (superGroup : SuperGroup.t)
    (o : Options.t) (callback : GetCallback) : t * option Session :=
  let '(superGroup', session) := SuperGroup_get (view p) superGroup o callback in
  (set_superGroups (StringMap.set (superGroups p) key superGroup') p, session).

(** createSuperGroupAndAsyncGetFromIt() *)
Definition createSuperGroupAndAsyncGetFromIt (p : t) (o : Options.t)
    (callback : GetCallback) : t :=
  let '(p1, superGroup) := createSuperGroup p o in
  fst (getFrom p1 (Options.getAppGroupName o) superGroup o callback).

(** The body of the loop of assignSessionsToGetWaiters(). *)
Definition assignSessions_step (st : t * list Callback * list GetWaiter)
    (waiter : GetWaiter) : t * list Callback * list GetWaiter :=
  let '(p, postLockActions, newWaitlist) := st in
  match findMatchingSuperGroup p (waiter_options waiter) with
  | Some superGroup =>
      let '(p', session) :=
        getFrom p (Options.getAppGroupName (waiter_options waiter)) superGroup
          (waiter_options waiter) (waiter_callback waiter) in
      match session with
      | Some s =>
          (p', postLockActions ++ [CallGetCallback (waiter_callback waiter) (Some s) None],
           newWaitlist)
      | None => (p', postLockActions, newWaitlist)
      end
  | None =>
      if negb (atFullCapacity p) then
        (createSuperGroupAndAsyncGetFromIt p (waiter_options waiter)
           (waiter_callback waiter),
         postLockActions, newWaitlist)
      else (p, postLockActions, newWaitlist ++ [waiter])
  end.

(** assignSessionsToGetWaiters() *)
Definition assignSessionsToGetWaiters (p : t) (postLockActions : list Callback)
    : t * list Callback :=
  let '(p', actions, newWaitlist) :=
    fold_left assignSessions_step (getWaitlist p) (p, postLockActions, []) in
  (set_getWaitlist newWaitlist p', actions).

(** One of the two loops of possiblySpawnMoreProcessesForExistingGroups();
    the flag tells that the function returned from inside the loop. *)
Fixpoint spawnLoop (wants : PoolView -> Group.t -> bool) (positions : list (nat * nat))
    (p : t) : t * bool :=
  match positions with
  | [] => (p, false)
  | pos :: rest =>
      match groupAt p pos with
      | Some group =>
          if wants (view p) group then
            let p' := setGroupAt p pos (Group_spawn (view p) group) in
            if atFullCapacity p' then (p', true) else spawnLoop wants rest p'
          else spawnLoop wants rest p
      | None => spawnLoop wants rest p
      end
  end.

(** possiblySpawnMoreProcessesForExistingGroups() *)
Definition possiblySpawnMoreProcessesForExistingGroups (p : t) : t :=
  let '(p1, returned) :=
    spawnLoop (fun _ g => Group_isWaitingForCapacity g) (groupPositions p) p in
  if returned then p1
  else fst (spawnLoop Group_shouldSpawn (groupPositions p1) p1).

(** forceDetachSuperGroup(); [None] when its assertion fails: no
    SuperGroup is stored under the name. *)
Definition forceDetachSuperGroup (p : t) (superGroup : SuperGroup.t)
    (postLockActions : list Callback)
    : option (t * SuperGroup.t * list Callback * ShutdownResult) :=
  let '(removed, m) := StringMap.remove (superGroups p) (SuperGroup.name superGroup) in
  if removed then
    let '(superGroup', actions, result) := SuperGroup_destroy superGroup in
    Some (set_superGroups m p, superGroup', postLockActions ++ actions, result)
  else None.

(** The Pool as it is when detachSuperGroupByName() makes its last
    assertions. *)
Definition superGroupDetached (p : t) (name : string) : t :=
  possiblySpawnMoreProcessesForExistingGroups
    (set_superGroups (snd (StringMap.remove (superGroups p) name)) p).

(** group->detach(process, postLockActions) on the Group the Process
    points back to. *)
Definition detachFromGroup (p : t) (process : Process.t)
    (postLockActions : list Callback) : t * list Callback :=
  match findGroup p (Process.group process) with
  | Some pos =>
      match groupAt p pos with
      | Some group =>
          (setGroupAt p pos (Group.detach group process),
           postLockActions ++ Group_detachActions group process)
      | None => (p, postLockActions)
      end
  | None => (p, postLockActions)
  end.

(** detachProcessUnlocked() *)
Definition detachProcessUnlocked (p : t) (process : Process.t)
    (postLockActions : list Callback) : bool * t * list Callback :=
  if Process.isAlive process then
    let '(p1, actions1) := detachFromGroup p process postLockActions in
    let '(p2, actions2) := assignSessionsToGetWaiters p1 actions1 in
    (true, possiblySpawnMoreProcessesForExistingGroups p2, actions2)
  else (false, p, postLockActions).

(** The loop of realGarbageCollect() over the enabled Processes of one
    Group; [processes] is what is left to visit. *)
Fixpoint gcProcesses (p : t) (now : Z) (processes : list Process.t)
    (st : Group.t * list Callback * Z) : Group.t * list Callback * Z :=
  match processes with
  | [] => st
  | process :: rest =>
      let '(group, actions, nextGcRunTime) := st in
      if gcEligible p now group process then
        gcProcesses p now rest
          (Group.detach group process,
           actions ++ Group_detachActions group process, nextGcRunTime)
      else
        gcProcesses p now rest
          (group, actions, nextGcRunTime_update nextGcRunTime (processGcTime p process))
  end.

(** The body of the loop of realGarbageCollect() over the Groups. *)
Definition gcGroup (p : t) (now : Z) (st : list Group.t * list Callback * Z)
    (group : Group.t) : list Group.t * list Callback * Z :=
  let '(done, actions, nextGcRunTime) := st in
  let '(group1, actions1, next1) :=
    gcProcesses p now (Group.enabledProcesses group) (group, actions, nextGcRunTime) in
  if Group.spawnerCleanable group1 then
    if spawnerGcTime group1 <=? now then
      let '(cleanable, lastUsed, actions2) := Group_cleanupSpawner group1 in
      (done ++ [Group.set_spawner cleanable lastUsed group1], actions1 ++ actions2, next1)
    else
      (done ++ [group1], actions1, nextGcRunTime_update next1 (spawnerGcTime group1))
  else (done ++ [group1], actions1, next1).

Definition gcSuperGroup (p : t) (now : Z)
    (st : list (string * SuperGroup.t) * list Callback * Z)
    (e : string * SuperGroup.t) : list (string * SuperGroup.t) * list Callback * Z :=
  let '(done, actions, nextGcRunTime) := st in
  let '(groups', actions', next') :=
    fold_left (gcGroup p now) (SuperGroup.groups (snd e)) ([], actions, nextGcRunTime) in
  (done ++ [(fst e, SuperGroup.set_groups groups' (snd e))], actions', next').

(** The part of realGarbageCollect() that runs under the lock: the new
    Pool, the closures to run and nextGcRunTime. *)
Definition garbageCollectLocked (p : t) (now : Z) : t * list Callback * Z :=
  let '(m, actions, nextGcRunTime) :=
    fold_left (gcSuperGroup p now) (superGroups p) ([], [], 0) in
  (set_superGroups m p, actions, nextGcRunTime).

Definition gcSleepTime (p : t) (now nextGcRunTime : Z) : Z :=
  if (nextGcRunTime =? 0) || (nextGcRunTime <=? now) then maxIdleTime p
  else nextGcRunTime - now.

(** A sequence of garbage collections; each one comes with the time at
    which it runs and the maxIdleTime that is in force. *)
Definition gcPasses (passes : list (Z * Z)) (p : t) : t :=
  fold_left
    (fun p pass =>
       fst (fst (garbageCollectLocked (set_maxIdleTime (snd pass) p) (fst pass))))
    passes p.

(** *** The public operations

    A public operation takes the Pool lock, decides, releases the lock
    and only then runs the closures it has collected. [locked] is the
    state of Pool::syncher; the trace records every closure that is run
    together with the state of the lock at that moment. [aborted] is set
    by abort(), which is also what a failed assert() calls.

    detachSuperGroupByName() and destroy() are defined with their
    assertions: they end in [Aborts] when one fails, with the World as
    it is at that moment. The other operations are defined without
    theirs; what those assert is stated about the results with
    verifyInvariants() and verifyExpensiveInvariants(). *)

Record Event := mkEvent { ev_callback : Callback; ev_lockHeld : bool }.

Record World := mkWorld {
  pool : t;
  locked : bool;
  trace : list Event;
  aborted : bool
}.


Definition lock (w : World) : World := mkWorld (pool w) true (trace w) (aborted w).
Definition unlock (w : World) : World := mkWorld (pool w) false (trace w) (aborted w).
Definition with_pool (p : t) (w : World) : World :=
  mkWorld p (locked w) (trace w) (aborted w).
Definition abort (w : World) : World := mkWorld (pool w) (locked w) (trace w) true.

(** How a call ends: it returns, or an assertion fails and the program
    is aborted. *)
Inductive Run (A : Type) : Type :=
  | Returns (result : A) (w : World)
  | Aborts (w : World).

Arguments Returns {A} result w.
Arguments Aborts {A} w.

(** The World a call ends in. *)
Definition world {A : Type} (r : Run A) : World :=
  match r with
  | Returns _ w => w
  | Aborts w => w
  end.

(** runAllActions() *)
Definition runAllActions (actions : list Callback) (w : World) : World :=
  mkWorld (pool w) (locked w)
    (trace w ++ map (fun a => mkEvent a (locked w)) actions) (aborted w).

(** The Process asyncGet() frees when the Pool is full. *)
Definition processToFree (p : t) (o : Options.t) : option Process.t :=
  match findOldestIdleProcess p with
  | None =>
      if Options.allowTrashingNonIdleProcesses o then findBestProcessToTrash p else None
  | Some process => Some process
  end.

(** asyncGet() *)
Definition asyncGet (o : Options.t) (callback : GetCallback) (lockNow : bool)
    (w : World) : World :=
  let w0 := if lockNow then lock w else w in
  let p := pool w0 in
  match findMatchingSuperGroup p o with
  | Some existingSuperGroup =>
      let '(p', session) :=
        getFrom p (Options.getAppGroupName o) existingSuperGroup o callback in
      let w1 := with_pool p' w0 in
      let w2 := if lockNow then unlock w1 else w1 in
      match session with
      | Some s => runAllActions [CallGetCallback callback (Some s) None] w2
      | None => w2
      end
  | None =>
      if negb (atFullCapacity p) then
        let w1 := with_pool (createSuperGroupAndAsyncGetFromIt p o callback) w0 in
        if lockNow then unlock w1 else w1
      else
        let '(p', actions) :=
          match processToFree p o with
          | None =>
              (set_getWaitlist (getWaitlist p ++ [mkGetWaiter o callback]) p, [])
          | Some process =>
              let '(p1, actions) := detachFromGroup p process [] in
              (createSuperGroupAndAsyncGetFromIt p1 o callback, actions)
          end in
        let w1 := with_pool p' w0 in
        match actions with
        | [] => if lockNow then unlock w1 else w1
        | _ => if lockNow then runAllActions actions (unlock w1) else abort w1
        end
  end.

(** detachSuperGroupByName(). The migration of the waiters to the Pool
    is compiled out (#if 0). verifyInvariants() and
    verifyExpensiveInvariants() are called before the SuperGroup is
    detached and again before the lock is released and the closures are
    run. The function waits for the shutdown callback, which delivers
    the result of destroy(). *)
Definition detachSuperGroupByName (name : string) (w : World) : Run bool :=
  let w0 := lock w in
  let p := pool w0 in
  match StringMap.get (superGroups p) name with
  | Some superGroup =>
      match StringMap.get (superGroups p) (SuperGroup.name superGroup) with
      | Some _ =>
          if verifyInvariants p && verifyExpensiveInvariants p then
            let exception := GetAbortedException "The containg SuperGroup was detached." in
            match forceDetachSuperGroup p superGroup [] with
            | Some (p1, superGroup1, actions1, result) =>
                let '(_, actions2) :=
                  assignExceptionToGetWaiters (SuperGroup.getWaitlist superGroup1)
                    exception actions1 in
                let p2 := possiblySpawnMoreProcessesForExistingGroups p1 in
                let w1 := with_pool p2 w0 in
                if verifyInvariants p2 && verifyExpensiveInvariants p2 then
                  Returns (bool_decide (result = SUCCESS))
                    (runAllActions actions2 (unlock w1))
                else Aborts (abort w1)
            | None => Aborts (abort w0)
            end
          else Aborts (abort w0)
      | None => Returns false (unlock w0)
      end
  | None => Returns false (unlock w0)
  end.

(** detachProcess(const string &gupid) *)
Definition detachProcess (gupid : string) (w : World) : bool * World :=
  let w0 := lock w in
  match findProcessByGupid (pool w0) gupid with
  | Some process =>
      let '(result, p', actions) := detachProcessUnlocked (pool w0) process [] in
      (result, runAllActions actions (unlock (with_pool p' w0)))
  | None => (false, unlock w0)
  end.

(** setMax() *)
Definition setMax (max' : Z) (w : World) : World :=
  let w0 := lock w in
  let p := pool w0 in
  let bigger := max p <? max' in
  let p1 := set_max max' p in
  if bigger then
    let '(p2, actions) := assignSessionsToGetWaiters p1 [] in
    let p3 := possiblySpawnMoreProcessesForExistingGroups p2 in
    runAllActions actions (unlock (with_pool p3 w0))
  else unlock (with_pool p1 w0).

(** setMaxIdleTime() *)
Definition setMaxIdleTime (value : Z) (w : World) : World :=
  unlock (with_pool (set_maxIdleTime value (pool (lock w))) (lock w)).

(** realGarbageCollect(); [now] is SystemTime::getUsec(). Returns the
    time to sleep. *)
Definition realGarbageCollect (now : Z) (w : World) : Z * World :=
  let w0 := lock w in
  let '(p', actions, nextGcRunTime) := garbageCollectLocked (pool w0) now in
  let w1 := unlock (with_pool p' w0) in
  (gcSleepTime p' now nextGcRunTime, runAllActions actions w1).

(** updateProcessMetrics() on one list: [known pid] tells whether the
    metrics probe reported the process, [kill pid] is what kill(pid, 0)
    answers. Returns the list with the liveness caches written back and
    the processes to detach. *)
Fixpoint updateProcessMetrics (known : Z -> bool) (kill : Z -> KillResult)
    (processes : list Process.t) : list Process.t * list Process.t :=
  match processes with
  | [] => ([], [])
  | process :: rest =>
      let '(rest', toDetach) := updateProcessMetrics known kill rest in
      if known (Process.pid process) then (process :: rest', toDetach)
      else if negb (Process.dummy process) then
        let '(exists_, process') :=
          Process.osProcessExists (kill (Process.pid process)) process in
        if negb exists_ then (process' :: rest', process' :: toDetach)
        else (process' :: rest', toDetach)
      else (process :: rest', toDetach)
  end.

Definition updateGroupMetrics (known : Z -> bool) (kill : Z -> KillResult)
    (st : list Group.t * list Process.t) (g : Group.t)
    : list Group.t * list Process.t :=
  let '(done, toDetach) := st in
  let '(l1, d1) := updateProcessMetrics known kill (Group.enabledProcesses g) in
  let '(l2, d2) := updateProcessMetrics known kill (Group.disablingProcesses g) in
  let '(l3, d3) := updateProcessMetrics known kill (Group.disabledProcesses g) in
  (done ++ [Group.mk (Group.name g) (Group.options g) l1 l2 l3
              (Group.detachedProcesses g) (Group.enabledCount g)
              (Group.disablingCount g) (Group.disabledCount g) (Group.getWaitlist g)
              (Group.processesBeingSpawned g) (Group.spawnerCleanable g)
              (Group.spawnerLastUsed g)],
   toDetach ++ d1 ++ d2 ++ d3).

Definition updateAllMetrics (known : Z -> bool) (kill : Z -> KillResult) (p : t)
    : t * list Process.t :=
  let '(m, toDetach) :=
    fold_left
      (fun st e =>
         let '(done, toDetach) := st in
         let '(groups', toDetach') :=
           fold_left (updateGroupMetrics known kill) (SuperGroup.groups (snd e))
             ([], toDetach) in
         (done ++ [(fst e, SuperGroup.set_groups groups' (snd e))], toDetach'))
      (superGroups p) ([], []) in
  (set_superGroups m p, toDetach).

(** The loop of realCollectAnalytics() over processesToDetach. A
    pointer in that list sees the Process as it is now: a Process that
    has left the lists of its Group has been detached and is no longer
    alive. *)
Definition detachDead (st : t * list Callback) (process : Process.t)
    : t * list Callback :=
  let '(p, actions) := st in
  match findProcessByGupid p (Process.gupid process) with
  | Some current =>
      let '(_, p', actions') := detachProcessUnlocked p current actions in
      (p', actions')
  | None => st
  end.

(** realCollectAnalytics(), from the moment the metrics have been
    collected; [metrics] is [None] when the output of ps could not be
    parsed. *)
Definition realCollectAnalytics (metrics : option (Z -> bool)) (kill : Z -> KillResult)
    (w : World) : World :=
  match metrics with
  | None => w
  | Some known =>
      let w0 := lock w in
      let '(p1, processesToDetach) := updateAllMetrics known kill (pool w0) in
      let '(p2, actions) := fold_left detachDead processesToDetach (p1, []) in
      runAllActions actions (unlock (with_pool p2 w0))
  end.

(** The loop of destroy(); it detaches the SuperGroup named by the
    first entry until the map is empty. [None]: the loop has not ended
    within [fuel] rounds. *)
Fixpoint destroy_loop (fuel : nat) (w : World) : option (Run unit) :=
  match superGroups (pool w) with
  | [] => Some (Returns tt w)
  | (_, superGroup) :: _ =>
      match fuel with
      | O => None
      | S fuel' =>
          match detachSuperGroupByName (SuperGroup.name superGroup) (unlock w) with
          | Returns _ w' => destroy_loop fuel' (lock w')
          | Aborts w' => Some (Aborts w')
          end
      end
  end.

(** destroy(). It asserts that the Pool is ALIVE, and calls
    verifyInvariants() and verifyExpensiveInvariants() at its end, with
    the lock held. The threads it joins are not part of the model. *)
Definition destroy (w : World) : option (Run unit) :=
  let w0 := lock w in
  if bool_decide (lifeStatus (pool w0) = ALIVE) then
    let w1 := with_pool (set_lifeStatus SHUTTING_DOWN (pool w0)) w0 in
    match destroy_loop (length (superGroups (pool w1))) w1 with
    | Some (Returns _ w2) =>
        let w3 := with_pool (set_lifeStatus SHUT_DOWN (pool w2)) w2 in
        if verifyInvariants (pool w3) && verifyExpensiveInvariants (pool w3) then
          Some (Returns tt (unlock w3))
        else Some (Aborts (abort w3))
    | Some (Aborts w2) => Some (Aborts w2)
    | None => None
    end
  else Some (Aborts (abort w0)).

End WithCollaborators.

Arguments Returns {A} result w.
Arguments Aborts {A} w.

End Pool.

(** A simple implementation of the interface, on which the Pool can be
    evaluated: SuperGroup::get() never hands out a session, it queues
    the caller on the SuperGroup while that is initializing and on its
    first Group otherwise; destroy() marks the SuperGroup destroyed,
    schedules nothing and succeeds; a Group asks for a Process when it
    has waiters and none being spawned; spawn() starts one unless the
    Pool is full; cleanupSpawner() leaves a Spawner that is not cleanable. *)
Definition queueOnGroup (o : Options.t) (cb : GetCallback) (g : Group.t) : Group.t :=
  Group.mk (Group.name g) (Group.options g) (Group.enabledProcesses g)
    (Group.disablingProcesses g) (Group.disabledProcesses g) (Group.detachedProcesses g)
    (Group.enabledCount g) (Group.disablingCount g) (Group.disabledCount g)
    (Group.getWaitlist g ++ [mkGetWaiter o cb]) (Group.processesBeingSpawned g)
    (Group.spawnerCleanable g) (Group.spawnerLastUsed g).

Definition startSpawning (g : Group.t) : Group.t :=
  Group.mk (Group.name g) (Group.options g) (Group.enabledProcesses g)
    (Group.disablingProcesses g) (Group.disabledProcesses g) (Group.detachedProcesses g)
    (Group.enabledCount g) (Group.disablingCount g) (Group.disabledCount g)
    (Group.getWaitlist g) (Group.processesBeingSpawned g + 1)
    (Group.spawnerCleanable g) (Group.spawnerLastUsed g).

Definition queueingCollaborators : Collaborators := {|
  SuperGroup_get := fun _ sg o cb =>
    match SuperGroup.state sg, SuperGroup.groups sg with
    | SuperGroup.INITIALIZING, _ | _, [] =>
        (SuperGroup.set_getWaitlist
           (SuperGroup.getWaitlist sg ++ [mkGetWaiter o cb]) sg, None)
    | _, g :: gs => (SuperGroup.set_groups (queueOnGroup o cb g :: gs) sg, None)
    end;
  SuperGroup_destroy := fun sg =>
    (SuperGroup.mk (SuperGroup.name sg) SuperGroup.DESTROYED (SuperGroup.groups sg)
       (SuperGroup.getWaitlist sg) (SuperGroup.options sg), [], SUCCESS);
  Group_detachActions := fun _ _ => [];
  Group_isWaitingForCapacity := fun g =>
    bool_decide (Group.enabledProcesses g = [])
    && (Group.processesBeingSpawned g =? 0)
    && negb (bool_decide (Group.getWaitlist g = []));
  Group_shouldSpawn := fun v g =>
    (Group.enabledCount g <? Options.minProcesses (Group.options g))
    && (Group.processesBeingSpawned g =? 0);
  Group_spawn := fun v g =>
    if (view_max v <=? view_utilization v) || negb (Group.processesBeingSpawned g =? 0)
    then g else startSpawning g;
  Group_cleanupSpawner := fun g => (false, Group.spawnerLastUsed g, [])
|}.

(** ** Sample objects

    Small objects on which the definitions are evaluated: an
    application's Options, an idle or busy Process with a concurrency
    of 1, a Group whose counter agrees with its list of enabled
    Processes, a SuperGroup that has finished initializing. *)

Definition sampleOptions (appGroupName : string) (minProcesses : Z)
    (allowTrashing : bool) : Options.t :=
  Options.mk "/app" appGroupName 90000 "" "" minProcesses allowTrashing 300 [].

Definition sampleProcess (group gupid : string) (lastUsed sessions : Z) : Process.t :=
  Process.mk group [] 100 gupid "secret" [] 0 0 1 false true 0 lastUsed sessions 0
    ALIVE ENABLED false true.

Definition sampleGroup (name : string) (minProcesses : Z) (enabled : list Process.t)
    : Group.t :=
  Group.mk name (sampleOptions name minProcesses false) enabled [] [] []
    (Z.of_nat (length enabled)) 0 0 [] 0 false 0.

Definition sampleSuperGroup (name : string) (groups : list Group.t) : SuperGroup.t :=
  SuperGroup.mk name SuperGroup.READY groups [] (sampleOptions name 0 false).

Definition sampleWorld (p : Pool.t) : Pool.World := Pool.mkWorld p false [] false.

(** * Properties *)

(** ** IEEE binary64: the quotient computed by [Process::utilization]

    For a dividend and a divisor that are exact in a double, the
    correctly rounded quotient lies within one unit in the last place of
    the real quotient; when the divisor is below 2^22 this cannot reach
    the next integer, so truncation yields the integer quotient. *)

Lemma digits2_size p : digits2_pos p = Pos.size p.
Proof. induction p; simpl; congruence. Qed.

Lemma digits2_bounds p : 2 ^ (Zpos (digits2_pos p) - 1) <= Zpos p < 2 ^ Zpos (digits2_pos p).
Proof.
  rewrite digits2_size. split.
  - pose proof (Pos.size_le p) as H.
    assert (Hp: (Zpos (2 ^ Pos.size p) <= Zpos (p~0))%Z) by (apply Pos2Z.pos_le_pos; exact H).
    rewrite Pos2Z.inj_pow in Hp.
    replace (Zpos (Pos.size p)) with (Zpos (Pos.size p) - 1 + 1) in Hp by lia.
    rewrite Z.pow_add_r in Hp by lia. lia.
  - pose proof (Pos.size_gt p) as H.
    assert (Hp: (Zpos p < Zpos (2 ^ Pos.size p))%Z) by (apply Pos2Z.pos_lt_pos; exact H).
    rewrite Pos2Z.inj_pow in Hp. exact Hp.
Qed.

Lemma digits2_unique p d : 2 ^ (d - 1) <= Zpos p < 2 ^ d -> Zpos (digits2_pos p) = d.
Proof.
  intros [H1 H2]. pose proof (digits2_bounds p) as [H3 H4].
  assert (0 < d).
  { destruct (Z_lt_le_dec 0 d); auto.
    destruct (Z.eq_dec d 0) as [->|]; [simpl in H2; lia|].
    rewrite Z.pow_neg_r in H2 by lia. lia. }
  destruct (Z_lt_le_dec (Zpos (digits2_pos p)) d).
  - assert (2 ^ Zpos (digits2_pos p) <= 2 ^ (d - 1)) by (apply Z.pow_le_mono_r; lia). lia.
  - destruct (Z_lt_le_dec d (Zpos (digits2_pos p))); [|lia].
    assert (2 ^ d <= 2 ^ (Zpos (digits2_pos p) - 1)) by (apply Z.pow_le_mono_r; lia). lia.
Qed.

Lemma loc_of_shr_record_of_loc m l : loc_of_shr_record (shr_record_of_loc m l) = l.
Proof. destruct l as [|[]]; reflexivity. Qed.

Lemma shr_m_of_loc m l : shr_m (shr_record_of_loc m l) = m.
Proof. destruct l as [|[]]; reflexivity. Qed.

Lemma round_nearest_even_range m l :
  m <= round_nearest_even m l <= m + 1.
Proof. unfold round_nearest_even. destruct l as [|[]]; try destruct (Z.even m); lia. Qed.

Lemma fexp_53 d e : -1074 <= e -> fexp 53 1024 (d + e) - e = Z.max (d - 53) (-1074 - e) .
Proof. unfold fexp, emin. lia. Qed.

(* normalisation after rounding: a mantissa in [2^52, 2^53] *)
Lemma shr_fexp_norm (m : positive) e :
  2 ^ 52 <= Zpos m <= 2 ^ 53 -> -1074 <= e ->
  exists m' k, shr_fexp 53 1024 (Zpos m) e loc_Exact
             = ({| shr_m := Zpos m'; shr_r := false; shr_s := false |}, e + k)
     /\ 0 <= k <= 1 /\ Zpos m' * 2 ^ k = Zpos m /\ 2 ^ 52 <= Zpos m' < 2 ^ 53.
Proof.
  intros Hm He. unfold shr_fexp. cbn [Zdigits2].
  destruct (Z_lt_le_dec (Zpos m) (2 ^ 53)) as [Hlt|Hge].
  - rewrite (digits2_unique m 53) by (change (53 - 1) with 52; lia).
    unfold fexp, emin. replace (Z.max (53 + e - 53) (3 - 1024 - 53) - e) with 0 by lia.
    exists m, 0. cbn. rewrite Z.add_0_r. repeat split; lia.
  - assert (Zpos m = 2 ^ 53) as Hm2 by lia.
    rewrite (digits2_unique m 54) by (change (54 - 1) with 53; lia).
    unfold fexp, emin.
    replace (Z.max (54 + e - 53) (3 - 1024 - 53) - e) with 1 by lia.
    assert (m = 9007199254740992%positive) as -> by (apply Pos2Z.inj; rewrite Hm2; reflexivity).
    exists 4503599627370496%positive, 1. cbn. repeat split; lia.
Qed.

Lemma binary_round_aux_norm (m1 : Z) e :
  2 ^ 52 <= m1 <= 2 ^ 53 -> -1074 <= e <= 969 ->
  forall mrs e1, shr_fexp 53 1024 m1 e loc_Exact = (mrs, e1) ->
  exists m' k, match shr_m mrs with
               | Z0 => S754_zero false
               | Zpos m => if e1 <=? 1024 - 53 then S754_finite false m e1 else S754_infinity false
               | Zneg _ => S754_nan
               end = S754_finite false m' (e + k)
     /\ 0 <= k <= 1 /\ Zpos m' * 2 ^ k = m1 /\ 2 ^ 52 <= Zpos m' < 2 ^ 53.
Proof.
  intros Hm He mrs e1 Hs.
  destruct m1 as [|m|m]; try lia.
  destruct (shr_fexp_norm m e Hm ltac:(lia)) as (m' & k & Heq & Hk & Hv & Hb).
  rewrite Heq in Hs. inversion Hs; subst. cbn [shr_m].
  exists m', k. replace (e + k <=? 1024 - 53) with true by (symmetry; apply Z.leb_le; lia).
  auto.
Qed.

Lemma binary_round_aux_53 (q : positive) e l :
  2 ^ 52 <= Zpos q < 2 ^ 53 -> -1074 <= e <= 969 ->
  exists m k, binary_round_aux 53 1024 false (Zpos q) e l = S754_finite false m (e + k)
     /\ 0 <= k <= 1 /\ Zpos q <= Zpos m * 2 ^ k <= Zpos q + 1 /\ 2 ^ 52 <= Zpos m < 2 ^ 53.
Proof.
  intros Hq He. unfold binary_round_aux.
  assert (Hfirst : shr_fexp 53 1024 (Zpos q) e l = (shr_record_of_loc (Zpos q) l, e)).
  { unfold shr_fexp. cbn [Zdigits2].
    rewrite (digits2_unique q 53) by (change (53 - 1) with 52; lia).
    unfold fexp, emin. replace (Z.max (53 + e - 53) (3 - 1024 - 53) - e) with 0 by lia.
    reflexivity. }
  rewrite Hfirst. rewrite shr_m_of_loc, loc_of_shr_record_of_loc.
  pose proof (round_nearest_even_range (Zpos q) l) as Hr.
  destruct (shr_fexp 53 1024 (round_nearest_even (Zpos q) l) e loc_Exact) as [mrs e1] eqn:Hs.
  assert (Hrange : 2 ^ 52 <= round_nearest_even (Zpos q) l <= 2 ^ 53) by lia.
  destruct (binary_round_aux_norm _ e Hrange He mrs e1 Hs) as (m' & k & Heq & Hk & Hv & Hb).
  exists m', k. rewrite Heq. repeat split; try lia.
Qed.

Lemma shr_1_pos (q : positive) l :
  2 <= Zpos q ->
  let mrs := shr_1 (shr_record_of_loc (Zpos q) l) in
  shr_m mrs = Zpos q / 2.
Proof.
  intros Hq. destruct q as [p|p|]; try lia; destruct l as [|[]];
    cbn [shr_1 shr_record_of_loc shr_m orb].
  all: try (rewrite (Pos2Z.inj_xI p); apply Z.div_unique with (r := 1); lia).
  all: try (rewrite (Pos2Z.inj_xO p); apply Z.div_unique with (r := 0); lia).
Qed.

Lemma binary_round_aux_54 (q : positive) e l :
  2 ^ 53 <= Zpos q < 2 ^ 54 -> -1074 <= e <= 968 ->
  exists m k, binary_round_aux 53 1024 false (Zpos q) e l = S754_finite false m (e + k)
     /\ 1 <= k <= 2 /\ 2 * (Zpos q / 2) <= Zpos m * 2 ^ k <= 2 * (Zpos q / 2) + 2
     /\ 2 ^ 52 <= Zpos m < 2 ^ 53.
Proof.
  intros Hq He. unfold binary_round_aux.
  assert (Hfirst : shr_fexp 53 1024 (Zpos q) e l = (shr_1 (shr_record_of_loc (Zpos q) l), e + 1)).
  { unfold shr_fexp. cbn [Zdigits2].
    rewrite (digits2_unique q 54) by (change (54 - 1) with 53; lia).
    unfold fexp, emin. replace (Z.max (54 + e - 53) (3 - 1024 - 53) - e) with 1 by lia.
    reflexivity. }
  rewrite Hfirst.
  pose proof (shr_1_pos q l ltac:(lia)) as Hm. cbv zeta in Hm.
  set (mrs1 := shr_1 (shr_record_of_loc (Zpos q) l)) in *.
  pose proof (round_nearest_even_range (shr_m mrs1) (loc_of_shr_record mrs1)) as Hr.
  rewrite Hm in *.
  assert (2 ^ 52 <= Zpos q / 2 < 2 ^ 53).
  { split; [apply Z.div_le_lower_bound | apply Z.div_lt_upper_bound]; lia. }
  destruct (shr_fexp 53 1024 (round_nearest_even (Zpos q / 2) (loc_of_shr_record mrs1))
              (e + 1) loc_Exact)
    as [mrs e1] eqn:Hs.
  assert (Hrange : 2 ^ 52 <= round_nearest_even (Zpos q / 2) (loc_of_shr_record mrs1)
                   <= 2 ^ 53) by lia.
  assert (He1 : -1074 <= e + 1 <= 969) by lia.
  destruct (binary_round_aux_norm _ (e + 1) Hrange He1 mrs e1 Hs) as (m' & k & Heq & Hk & Hv & Hb).
  exists m', (1 + k). rewrite Heq. replace (e + (1 + k)) with (e + 1 + k) by lia.
  rewrite Z.pow_add_r by lia. repeat split; try lia.
Qed.

Lemma binary_round_aux_exact (q : positive) e :
  2 ^ 52 <= Zpos q < 2 ^ 53 -> -1074 <= e <= 971 ->
  binary_round_aux 53 1024 false (Zpos q) e loc_Exact = S754_finite false q e.
Proof.
  intros Hq He. unfold binary_round_aux.
  assert (Hfirst : shr_fexp 53 1024 (Zpos q) e loc_Exact
                   = (shr_record_of_loc (Zpos q) loc_Exact, e)).
  { unfold shr_fexp. cbn [Zdigits2].
    rewrite (digits2_unique q 53) by (change (53 - 1) with 52; lia).
    unfold fexp, emin. replace (Z.max (53 + e - 53) (3 - 1024 - 53) - e) with 0 by lia.
    reflexivity. }
  rewrite Hfirst. cbn [shr_record_of_loc shr_m loc_of_shr_record round_nearest_even].
  rewrite Hfirst. cbn [shr_record_of_loc shr_m].
  replace (e <=? 1024 - 53) with true by (symmetry; apply Z.leb_le; lia).
  reflexivity.
Qed.

Lemma iter_xO_pow (p k : positive) : Zpos (Pos.iter xO p k) = Zpos p * 2 ^ Zpos k.
Proof.
  induction k using Pos.peano_ind.
  - cbn [Pos.iter]. rewrite (Pos2Z.inj_xO p). lia.
  - rewrite Pos.iter_succ, (Pos2Z.inj_xO (Pos.iter xO p k)), IHk, Pos2Z.inj_succ,
      Z.pow_succ_r by lia.
    lia.
Qed.

Lemma double_of_Z_exact n :
  0 < n < 2 ^ 53 ->
  exists m a, Double.of_Z n = S754_finite false m (- a)
     /\ 0 <= a <= 52 /\ Zpos m = n * 2 ^ a /\ 2 ^ 52 <= Zpos m < 2 ^ 53.
Proof.
  intros Hn. destruct n as [|p|p]; try lia.
  unfold Double.of_Z, Double.prec, Double.emax, binary_normalize, binary_round.
  pose proof (digits2_bounds p) as Hd.
  set (d := Zpos (digits2_pos p)) in *.
  assert (Hd53 : 1 <= d <= 53).
  { split; [unfold d; lia|].
    destruct (Z_lt_le_dec 53 d); [|lia].
    assert (2 ^ 53 <= 2 ^ (d - 1)) by (apply Z.pow_le_mono_r; lia). lia. }
  unfold fexp, emin. replace (Z.max (d + 0 - 53) (3 - 1024 - 53)) with (d - 53) by lia.
  unfold shl_align. rewrite Z.sub_0_r.
  destruct (d - 53) as [|k|k] eqn:Hk; try lia.
  - assert (d = 53) as Hd' by lia. rewrite Hd' in Hd.
    rewrite binary_round_aux_exact by (change (53 - 1) with 52 in Hd; lia).
    exists p, 0. change (- 0) with 0. rewrite Z.mul_1_r.
    change (53 - 1) with 52 in Hd. repeat split; lia.
  - assert (Hm : Zpos (Pos.iter xO p k) = Zpos p * 2 ^ (53 - d)).
    { rewrite iter_xO_pow. f_equal. f_equal. lia. }
    assert (Hpow : 2 ^ (d - 1) * 2 ^ (53 - d) = 2 ^ 52).
    { rewrite <- Z.pow_add_r by lia. f_equal. lia. }
    assert (Hpow' : 2 ^ d * 2 ^ (53 - d) = 2 ^ 53).
    { rewrite <- Z.pow_add_r by lia. f_equal. lia. }
    assert (0 < 2 ^ (53 - d)) by (apply Z.pow_pos_nonneg; lia).
    assert (Hb : 2 ^ 52 <= Zpos (Pos.iter xO p k) < 2 ^ 53).
    { rewrite Hm. split; [rewrite <- Hpow | rewrite <- Hpow']; nia. }
    rewrite binary_round_aux_exact by (auto; lia).
    exists (Pos.iter xO p k), (53 - d).
    replace (- (53 - d)) with (Zneg k) by lia. repeat split; try lia.
Qed.

Lemma SFdiv_53 (mx my : positive) (ex ey : Z) :
  2 ^ 52 <= Zpos mx < 2 ^ 53 -> 2 ^ 52 <= Zpos my < 2 ^ 53 ->
  -60 <= ex <= 0 -> -60 <= ey <= 0 ->
  exists m k,
    SFdiv 53 1024 (S754_finite false mx ex) (S754_finite false my ey)
      = S754_finite false m (ex - ey - 53 + k)
    /\ 2 ^ 52 <= Zpos m < 2 ^ 53
    /\ ((0 <= k <= 1 /\ Zpos mx * 2 ^ 53 / Zpos my <= Zpos m * 2 ^ k
                                  <= Zpos mx * 2 ^ 53 / Zpos my + 1)
        \/ (1 <= k <= 2 /\ 2 * (Zpos mx * 2 ^ 53 / Zpos my / 2) <= Zpos m * 2 ^ k
                                  <= 2 * (Zpos mx * 2 ^ 53 / Zpos my / 2) + 2)).
Proof.
  intros Hx Hy Hex Hey. unfold SFdiv, SFdiv_core_binary. cbn [Zdigits2 xorb].
  rewrite (digits2_unique mx 53), (digits2_unique my 53) by (change (53 - 1) with 52; auto).
  unfold fexp, emin.
  replace (Z.min (Z.max (53 + ex - (53 + ey) - 53) (3 - 1024 - 53)) (ex - ey))
    with (ex - ey - 53) by lia.
  replace (ex - ey - (ex - ey - 53)) with 53 by lia.
  rewrite Z.shiftl_mul_pow2 by lia.
  set (a := Zpos mx * 2 ^ 53).
  assert (Heuc : Z.div_eucl a (Zpos my) = (a / Zpos my, a mod Zpos my)).
  { unfold Z.div, Z.modulo. destruct (Z.div_eucl a (Zpos my)); reflexivity. }
  rewrite Heuc.
  pose proof (Z.div_mod a (Zpos my) ltac:(lia)) as Hdiv.
  pose proof (Z.mod_pos_bound a (Zpos my) ltac:(lia)) as Hmod.
  set (q := a / Zpos my) in *. set (r := a mod Zpos my) in *.
  assert (Hq : 2 ^ 52 <= q < 2 ^ 54) by (unfold a in *; nia).
  clearbody q r.
  destruct q as [|q|q]; try lia.
  destruct (Z_lt_le_dec (Zpos q) (2 ^ 53)).
  - destruct (binary_round_aux_53 q (ex - ey - 53) (new_location (Zpos my) r))
      as (m & k & Heq & Hk & Hv & Hb); try lia.
    exists m, k. rewrite Heq. split; [reflexivity|]. split; [lia|]. left. lia.
  - destruct (binary_round_aux_54 q (ex - ey - 53) (new_location (Zpos my) r))
      as (m & k & Heq & Hk & Hv & Hb); try lia.
    exists m, k. rewrite Heq. split; [reflexivity|]. split; [lia|]. right. lia.
Qed.

Lemma pow2_split n k : 0 <= k <= n -> 2 ^ n = 2 ^ (n - k) * 2 ^ k.
Proof. intros. rewrite <- Z.pow_add_r by lia. f_equal. lia. Qed.

Lemma mul_cancel_range D B c : 0 < B -> 0 <= D * B < c * B -> 0 <= D < c.
Proof. intros. split; nia. Qed.

Lemma double_quotient s c :
  0 < c < 2 ^ 22 -> 0 < s <= c ->
  Double.to_int (Double.div (Double.of_Z (s * INT_MAX)) (Double.of_Z c))
    = Some (s * INT_MAX / c).
Proof.
  intros Hc Hs.
  assert (HP : 0 < s * INT_MAX < 2 ^ 53) by (unfold INT_MAX; nia).
  destruct (double_of_Z_exact (s * INT_MAX) HP) as (mx & a & -> & Ha & Hmx & Hbx).
  destruct (double_of_Z_exact c ltac:(lia)) as (my & b & -> & Hb & Hmy & Hby).
  unfold Double.div, Double.prec, Double.emax.
  destruct (SFdiv_53 mx my (- a) (- b) Hbx Hby ltac:(lia) ltac:(lia))
    as (m & k & -> & Hbm & Hcases).
  set (P := s * INT_MAX) in *. set (K := P / c).
  assert (HK : K * c <= P < (K + 1) * c).
  { unfold K. pose proof (Z.div_mod P c ltac:(lia)).
    pose proof (Z.mod_pos_bound P c ltac:(lia)). nia. }
  assert (HPc : P <= c * INT_MAX) by (unfold P, INT_MAX; nia).
  assert (HKM : 0 <= K <= INT_MAX) by (unfold INT_MAX in *; nia).
  (* the quotient of the mantissas *)
  set (q := Zpos mx * 2 ^ 53 / Zpos my) in *.
  set (n := 53 + a - b).
  assert (Hn : 0 <= n) by (unfold n; lia).
  assert (HE : 2 ^ (a + 53) = 2 ^ n * 2 ^ b).
  { unfold n. rewrite <- Z.pow_add_r by lia. f_equal. lia. }
  assert (Hq : q * c <= P * 2 ^ n < (q + 1) * c).
  { pose proof (Z.div_mod (Zpos mx * 2 ^ 53) (Zpos my) ltac:(lia)) as Hd.
    pose proof (Z.mod_pos_bound (Zpos mx * 2 ^ 53) (Zpos my) ltac:(lia)) as Hm.
    fold q in Hd. rewrite Hmx, Hmy in Hd, Hm.
    replace (P * 2 ^ a * 2 ^ 53) with (P * 2 ^ n * 2 ^ b) in Hd, Hm
      by (rewrite <- (Z.mul_assoc P (2 ^ a)), <- Z.pow_add_r, HE by lia; ring).
    assert (0 < 2 ^ b) by (apply Z.pow_pos_nonneg; lia).
    set (E := 2 ^ n) in *. set (B := 2 ^ b) in *. set (R := _ mod _) in *.
    assert (0 <= (P * E - q * c) * B < c * B) as HD by lia.
    apply mul_cancel_range in HD; lia. }
  assert (0 < 2 ^ n) by (apply Z.pow_pos_nonneg; lia).
  assert (Hk : 0 <= k <= 2) by lia.
  assert (Hmq : Zpos m * 2 ^ k <= q + 2).
  { destruct Hcases as [[? ?]|[? ?]]; [lia|].
    pose proof (Z.div_mod q 2 ltac:(lia)). pose proof (Z.mod_pos_bound q 2 ltac:(lia)). lia. }
  assert (Hqle : q <= INT_MAX * 2 ^ n).
  { apply (Z.mul_le_mono_pos_r _ _ c); [lia|].
    apply Z.le_trans with (P * 2 ^ n); [lia|].
    replace (INT_MAX * 2 ^ n * c) with (c * INT_MAX * 2 ^ n) by ring.
    apply Z.mul_le_mono_nonneg_r; lia. }
  (* the exponent of the result is negative enough *)
  assert (Hnk : 22 + k <= n).
  { destruct (Z_lt_le_dec n (22 + k)); [|lia]. exfalso.
    assert (HEle : 2 ^ n <= 2 ^ (21 + k)) by (apply Z.pow_le_mono_r; lia).
    unfold INT_MAX in Hqle.
    assert (k = 0 \/ k = 1 \/ k = 2) as [-> | [-> | ->]] by lia;
      [change (2 ^ (21 + 0)) with (2 ^ 21) in HEle
      |change (2 ^ (21 + 1)) with (2 ^ 22) in HEle
      |change (2 ^ (21 + 2)) with (2 ^ 23) in HEle]; lia. }
  rewrite (pow2_split n k) in * by lia.
  set (F := 2 ^ (n - k)) in *.
  assert (HF : 2 ^ 22 <= F) by (apply Z.pow_le_mono_r; lia).
  assert (0 < 2 ^ k) by (apply Z.pow_pos_nonneg; lia).
  assert (Hres : K * F <= Zpos m < (K + 1) * F).
  { set (E := F * 2 ^ k) in *.
    assert (0 < F) by lia.
    assert (HB1 : c * (K * E) < c * (q + 1)).
    { assert (0 <= (P - K * c) * E) by (apply Z.mul_nonneg_nonneg; lia). lia. }
    apply Z.mul_lt_mono_pos_l in HB1; [|lia].
    assert (HB2 : q * c + E <= (K + 1) * c * E).
    { assert (0 <= ((K + 1) * c - 1 - P) * E) by (apply Z.mul_nonneg_nonneg; lia). lia. }
    pose proof (Z.div_mod q 2 ltac:(lia)) as Hq2.
    pose proof (Z.mod_pos_bound q 2 ltac:(lia)) as Hq2'.
    subst E.
    assert (k = 0 \/ k = 1 \/ k = 2) as [-> | [-> | ->]] by lia.
    - change (2 ^ 0) with 1 in *.
      assert (HB3 : c * (q + 1) < c * ((K + 1) * (F * 1))) by lia.
      apply Z.mul_lt_mono_pos_l in HB3; [|lia].
      destruct Hcases as [[Hk1 Hv]|[Hk1 Hv]]; lia.
    - change (2 ^ 1) with 2 in *.
      assert (HB3 : c * (q + 2) < c * ((K + 1) * (F * 2))) by lia.
      apply Z.mul_lt_mono_pos_l in HB3; [|lia].
      destruct Hcases as [[Hk1 Hv]|[Hk1 Hv]]; lia.
    - change (2 ^ 2) with 4 in *.
      assert (HB3 : c * (q + 2) < c * ((K + 1) * (F * 4))) by lia.
      apply Z.mul_lt_mono_pos_l in HB3; [|lia].
      destruct Hcases as [[Hk1 Hv]|[Hk1 Hv]]; lia. }
  unfold Double.to_int, Double.trunc.
  replace (- a - - b - 53 + k) with (- (n - k)) by (unfold n; lia).
  destruct (n - k) as [|e|e] eqn:He; try lia.
  change (- Z.pos e) with (Z.neg e). cbv iota. fold F in Hres.
  assert (Hquot : Zpos m ÷ 2 ^ Zpos e = K).
  { rewrite Z.quot_div_nonneg by lia. symmetry.
    apply Z.div_unique with (r := Zpos m - K * 2 ^ Zpos e); subst F; lia. }
  rewrite Hquot.
  replace ((- INT_MAX - 1 <=? K) && (K <=? INT_MAX)) with true; [reflexivity|].
  symmetry. apply andb_true_intro. split; apply Z.leb_le; lia.
Qed.

(** The sign of a rounded result is the sign it was given. *)
Lemma binary_round_aux_sign (sx : bool) (m e : Z) (l : location) (m' : positive) (e' : Z) :
  binary_round_aux 53 1024 false m e l = S754_finite false m' e' ->
  binary_round_aux 53 1024 sx m e l = S754_finite sx m' e'.
Proof.
  unfold binary_round_aux.
  destruct (shr_fexp 53 1024 m e l) as [mrs1 e1].
  destruct (shr_fexp 53 1024 _ e1 loc_Exact) as [mrs2 e2].
  destruct (shr_m mrs2); try discriminate.
  destruct (e2 <=? 1024 - 53); try discriminate.
  intros H. inversion H. reflexivity.
Qed.

Lemma double_of_Z_neg (p m : positive) (e : Z) :
  Double.of_Z (Zpos p) = S754_finite false m e ->
  Double.of_Z (Zneg p) = S754_finite true m e.
Proof.
  unfold Double.of_Z, Double.prec, Double.emax, binary_normalize, binary_round.
  destruct (shl_align p 0 _) as [mz ez]. apply binary_round_aux_sign.
Qed.

Lemma shr_1_div (mrs : shr_record) :
  0 <= shr_m mrs -> shr_m (shr_1 mrs) = shr_m mrs / 2.
Proof.
  destruct mrs as [m r s]. cbn [shr_m]. intros Hm.
  destruct m as [|[p|p|]|p]; try lia; cbn [shr_1 shr_m].
  - reflexivity.
  - rewrite (Pos2Z.inj_xI p). apply Z.div_unique with (r := 1); lia.
  - rewrite (Pos2Z.inj_xO p). apply Z.div_unique with (r := 0); lia.
  - reflexivity.
Qed.

Lemma iter_shr_1_div (k : positive) (mrs : shr_record) :
  0 <= shr_m mrs -> shr_m (SpecFloat.iter_pos shr_1 k mrs) = shr_m mrs / 2 ^ Zpos k.
Proof.
  revert mrs.
  assert (Hpos : forall j : positive, 0 < 2 ^ Zpos j)
    by (intros j; apply Z.pow_pos_nonneg; lia).
  induction k as [k IH|k IH|]; intros mrs Hm; cbn [SpecFloat.iter_pos].
  - assert (H1 : 0 <= shr_m (shr_1 mrs))
      by (rewrite shr_1_div by exact Hm; apply Z.div_pos; lia).
    assert (H2 : 0 <= shr_m (SpecFloat.iter_pos shr_1 k (shr_1 mrs)))
      by (rewrite IH by exact H1; apply Z.div_pos; [lia|apply Hpos]).
    rewrite (IH _ H2), (IH _ H1), shr_1_div by exact Hm.
    pose proof (Hpos k).
    rewrite !Z.div_div by lia.
    f_equal. rewrite (Pos2Z.inj_xI k).
    replace (2 * Zpos k + 1) with (Zpos k + Zpos k + 1) by lia.
    rewrite !Z.pow_add_r by lia. change (2 ^ 1) with 2. ring.
  - assert (H2 : 0 <= shr_m (SpecFloat.iter_pos shr_1 k mrs))
      by (rewrite IH by exact Hm; apply Z.div_pos; [lia|apply Hpos]).
    rewrite (IH _ H2), (IH _ Hm).
    pose proof (Hpos k).
    rewrite !Z.div_div by lia.
    f_equal. rewrite (Pos2Z.inj_xO k).
    replace (2 * Zpos k) with (Zpos k + Zpos k) by lia.
    rewrite Z.pow_add_r by lia. reflexivity.
  - rewrite shr_1_div by exact Hm. reflexivity.
Qed.

(** An integer of more than 53 bits is rounded to a double with a
    positive exponent. *)
Lemma double_of_Z_large (n : Z) :
  2 ^ 53 <= n < 2 ^ 63 ->
  exists m e, Double.of_Z n = S754_finite false m e
     /\ 1 <= e <= 11 /\ 2 ^ 52 <= Zpos m < 2 ^ 53.
Proof.
  intros Hn. destruct n as [|p|p]; try lia.
  unfold Double.of_Z, Double.prec, Double.emax, binary_normalize, binary_round.
  pose proof (digits2_bounds p) as Hd.
  set (d := Zpos (digits2_pos p)) in *.
  assert (Hd54 : 54 <= d <= 63).
  { split.
    - destruct (Z_lt_le_dec d 54); [|lia].
      assert (2 ^ d <= 2 ^ 53) by (apply Z.pow_le_mono_r; lia). lia.
    - destruct (Z_lt_le_dec 63 d); [|lia].
      assert (2 ^ 63 <= 2 ^ (d - 1)) by (apply Z.pow_le_mono_r; lia). lia. }
  unfold fexp, emin. replace (Z.max (d + 0 - 53) (3 - 1024 - 53)) with (d - 53) by lia.
  unfold shl_align. rewrite Z.sub_0_r.
  destruct (d - 53) as [|k|k] eqn:Hk; try lia.
  unfold binary_round_aux.
  assert (Hfirst : shr_fexp 53 1024 (Zpos p) 0 loc_Exact
                   = (SpecFloat.iter_pos shr_1 k (shr_record_of_loc (Zpos p) loc_Exact), Zpos k)).
  { unfold shr_fexp. cbn [Zdigits2]. fold d.
    unfold fexp, emin. replace (Z.max (d + 0 - 53) (3 - 1024 - 53) - 0) with (Zpos k) by lia.
    reflexivity. }
  rewrite Hfirst.
  set (mrs1 := SpecFloat.iter_pos shr_1 k (shr_record_of_loc (Zpos p) loc_Exact)).
  assert (Hm1 : shr_m mrs1 = Zpos p / 2 ^ Zpos k).
  { unfold mrs1. rewrite iter_shr_1_div; cbn [shr_record_of_loc shr_m]; [reflexivity|lia]. }
  assert (Hpow : 2 ^ (d - 1) = 2 ^ 52 * 2 ^ Zpos k).
  { rewrite <- Z.pow_add_r by lia. f_equal. lia. }
  assert (Hpow' : 2 ^ d = 2 ^ 53 * 2 ^ Zpos k).
  { rewrite <- Z.pow_add_r by lia. f_equal. lia. }
  assert (0 < 2 ^ Zpos k) by (apply Z.pow_pos_nonneg; lia).
  assert (Hb1 : 2 ^ 52 <= Zpos p / 2 ^ Zpos k < 2 ^ 53).
  { split; [apply Z.div_le_lower_bound | apply Z.div_lt_upper_bound]; lia. }
  pose proof (round_nearest_even_range (shr_m mrs1) (loc_of_shr_record mrs1)) as Hr.
  rewrite Hm1 in *.
  destruct (shr_fexp 53 1024 (round_nearest_even (Zpos p / 2 ^ Zpos k)
                                (loc_of_shr_record mrs1)) (Zpos k) loc_Exact)
    as [mrs e1] eqn:Hs.
  assert (Hrange : 2 ^ 52 <= round_nearest_even (Zpos p / 2 ^ Zpos k)
                               (loc_of_shr_record mrs1) <= 2 ^ 53) by lia.
  destruct (binary_round_aux_norm _ (Zpos k) Hrange ltac:(lia) mrs e1 Hs)
    as (m' & j & Heq & Hj & Hv & Hb).
  exists m', (Zpos k + j). rewrite Heq. split; [reflexivity|]. split; lia.
Qed.

(** The quotient of two normal doubles, whatever their signs. *)
Lemma SFdiv_normal (sx sy : bool) (mx my : positive) (ex ey : Z) :
  2 ^ 52 <= Zpos mx < 2 ^ 53 -> 2 ^ 52 <= Zpos my < 2 ^ 53 ->
  -60 <= ex <= 60 -> -60 <= ey <= 60 ->
  exists m k,
    SFdiv 53 1024 (S754_finite sx mx ex) (S754_finite sy my ey)
      = S754_finite (xorb sx sy) m (ex - ey - 53 + k)
    /\ 2 ^ 52 <= Zpos m < 2 ^ 53
    /\ 0 <= k <= 2
    /\ 2 * (Zpos mx * 2 ^ 53 / Zpos my / 2) <= Zpos m * 2 ^ k.
Proof.
  intros Hx Hy Hex Hey. unfold SFdiv, SFdiv_core_binary. cbn [Zdigits2].
  rewrite (digits2_unique mx 53), (digits2_unique my 53) by (change (53 - 1) with 52; auto).
  unfold fexp, emin.
  replace (Z.min (Z.max (53 + ex - (53 + ey) - 53) (3 - 1024 - 53)) (ex - ey))
    with (ex - ey - 53) by lia.
  replace (ex - ey - (ex - ey - 53)) with 53 by lia.
  rewrite Z.shiftl_mul_pow2 by lia.
  set (a := Zpos mx * 2 ^ 53).
  assert (Heuc : Z.div_eucl a (Zpos my) = (a / Zpos my, a mod Zpos my)).
  { unfold Z.div, Z.modulo. destruct (Z.div_eucl a (Zpos my)); reflexivity. }
  rewrite Heuc.
  pose proof (Z.div_mod a (Zpos my) ltac:(lia)) as Hdiv.
  pose proof (Z.mod_pos_bound a (Zpos my) ltac:(lia)) as Hmod.
  set (q := a / Zpos my) in *. set (r := a mod Zpos my) in *.
  assert (Hq : 2 ^ 52 <= q < 2 ^ 54) by (unfold a in *; nia).
  clearbody q r.
  pose proof (Z.div_mod q 2 ltac:(lia)) as Hq2.
  pose proof (Z.mod_pos_bound q 2 ltac:(lia)) as Hq2'.
  destruct q as [|q|q]; try lia.
  destruct (Z_lt_le_dec (Zpos q) (2 ^ 53)).
  - destruct (binary_round_aux_53 q (ex - ey - 53) (new_location (Zpos my) r))
      as (m & k & Heq & Hk & Hv & Hb); try lia.
    exists m, k. rewrite (binary_round_aux_sign _ _ _ _ _ _ Heq).
    split; [reflexivity|]. split; [lia|]. split; lia.
  - destruct (binary_round_aux_54 q (ex - ey - 53) (new_location (Zpos my) r))
      as (m & k & Heq & Hk & Hv & Hb); try lia.
    exists m, k. rewrite (binary_round_aux_sign _ _ _ _ _ _ Heq).
    split; [reflexivity|]. split; [lia|]. split; lia.
Qed.

(** An integer that is not 0 and fits in 64 bits becomes a normal
    double, exact when the integer has at most 53 bits. *)
Lemma double_of_Z_normal (n : Z) :
  n <> 0 -> Z.abs n < 2 ^ 63 ->
  exists m e, Double.of_Z n = S754_finite (n <? 0) m e
     /\ 2 ^ 52 <= Zpos m < 2 ^ 53
     /\ -52 <= e <= 11
     /\ ((e <= 0 /\ Zpos m = Z.abs n * 2 ^ (- e)) \/ (1 <= e /\ 2 ^ 53 <= Z.abs n)).
Proof.
  intros Hn Hb.
  assert (Hpos : forall p : positive, Zpos p < 2 ^ 63 ->
            exists m e, Double.of_Z (Zpos p) = S754_finite false m e
              /\ 2 ^ 52 <= Zpos m < 2 ^ 53
              /\ -52 <= e <= 11
              /\ ((e <= 0 /\ Zpos m = Zpos p * 2 ^ (- e)) \/ (1 <= e /\ 2 ^ 53 <= Zpos p))).
  { intros p Hp. destruct (Z_lt_le_dec (Zpos p) (2 ^ 53)) as [Hs | Hl].
    - destruct (double_of_Z_exact (Zpos p) ltac:(lia)) as (m & a & Heq & Ha & Hm & Hbm).
      exists m, (- a). split; [exact Heq|]. split; [exact Hbm|]. split; [lia|].
      left. split; [lia|]. rewrite Z.opp_involutive. exact Hm.
    - destruct (double_of_Z_large (Zpos p) ltac:(lia)) as (m & e & Heq & He & Hbm).
      exists m, e. split; [exact Heq|]. split; [exact Hbm|]. split; [lia|].
      right. lia. }
  destruct n as [|p|p]; [contradiction| |].
  - apply Hpos. exact Hb.
  - destruct (Hpos p Hb) as (m & e & Heq & Hrest).
    exists m, e. split; [|exact Hrest].
    apply double_of_Z_neg, Heq.
Qed.

(** A double whose magnitude is at least 1 does not convert to 0. *)
Lemma to_int_nonzero (s : bool) (m : positive) (e : Z) :
  (e < 0 -> 2 ^ (- e) <= Zpos m) ->
  Double.to_int (S754_finite s m e) <> Some 0.
Proof.
  intros He. unfold Double.to_int, Double.trunc.
  set (v := match e with
            | Zneg p => Zpos m ÷ 2 ^ Zpos p
            | _ => Zpos m * 2 ^ e
            end).
  assert (Hv : 1 <= v).
  { unfold v. destruct e as [|p|p].
    - lia.
    - assert (0 < 2 ^ Zpos p) by (apply Z.pow_pos_nonneg; lia). nia.
    - specialize (He ltac:(lia)). change (- Zneg p) with (Zpos p) in He.
      assert (0 < 2 ^ Zpos p) by (apply Z.pow_pos_nonneg; lia).
      rewrite Z.quot_div_nonneg by lia.
      apply Z.div_le_lower_bound; lia. }
  clearbody v.
  destruct ((- INT_MAX - 1 <=? (if s then - v else v))
            && ((if s then - v else v) <=? INT_MAX)); [|discriminate].
  intros H. inversion H. destruct s; lia.
Qed.

(** The quotient of [Process::utilization] does not convert to 0 when
    there are sessions: the magnitude of sessions * INT_MAX is at least
    INT_MAX, that of the concurrency at most INT_MAX, and a correctly
    rounded quotient of magnitude at least 1 is at least 1. *)
Lemma double_quotient_nonzero (s c : Z) :
  s <> 0 -> - INT_MAX - 1 <= s <= INT_MAX ->
  c <> 0 -> - INT_MAX <= c <= INT_MAX ->
  Double.to_int (Double.div (Double.of_Z (s * INT_MAX)) (Double.of_Z c)) <> Some 0.
Proof.
  intros Hs Hsr Hc Hcr.
  assert (HX : INT_MAX <= Z.abs (s * INT_MAX) < 2 ^ 63) by (unfold INT_MAX in *; lia).
  assert (HY : 0 < Z.abs c <= INT_MAX) by lia.
  destruct (double_of_Z_normal (s * INT_MAX) ltac:(unfold INT_MAX in *; lia) ltac:(lia))
    as (mx & ex & -> & Hbx & Hex & Hvx).
  destruct (double_of_Z_normal c Hc ltac:(unfold INT_MAX in *; lia))
    as (my & ey & -> & Hby & Hey & Hvy).
  destruct Hvy as [[Hey0 Hmy] | [_ Hbig]]; [|unfold INT_MAX in *; lia].
  unfold Double.div, Double.prec, Double.emax.
  destruct (SFdiv_normal (s * INT_MAX <? 0) (c <? 0) mx my ex ey Hbx Hby
              ltac:(lia) ltac:(lia)) as (m & k & -> & Hbm & Hk & Hq).
  apply to_int_nonzero. intros HE.
  set (X := Z.abs (s * INT_MAX)) in *. set (Y := Z.abs c) in *.
  assert (Hcase : 1 <= ex - ey \/ (ex = ey /\ Zpos my <= Zpos mx)).
  { destruct Hvx as [[Hex0 Hmx] | [Hex1 _]]; [|left; lia].
    destruct (Z_lt_le_dec (- ey) (- ex)) as [Hlt | Hge].
    - exfalso.
      assert (Hsplit : 2 ^ (- ex) = 2 ^ (- ex - - ey) * 2 ^ (- ey))
        by (rewrite <- Z.pow_add_r by lia; f_equal; lia).
      assert (2 <= 2 ^ (- ex - - ey))
        by (change 2 with (2 ^ 1) at 1; apply Z.pow_le_mono_r; lia).
      assert (0 < 2 ^ (- ey)) by (apply Z.pow_pos_nonneg; lia).
      rewrite Hsplit in Hmx.
      assert (Y * 2 ^ (- ey) * 2 <= X * (2 ^ (- ex - - ey) * 2 ^ (- ey))) by nia.
      lia.
    - destruct (Z.eq_dec ex ey) as [-> | Hne]; [|left; lia].
      right. split; [reflexivity|].
      assert (0 < 2 ^ (- ey)) by (apply Z.pow_pos_nonneg; lia).
      rewrite Hmx, Hmy. nia. }
  destruct Hcase as [Ht | [-> Hle]].
  - apply Z.le_trans with (2 ^ 52); [|lia].
    apply Z.pow_le_mono_r; lia.
  - replace (- (ey - ey - 53 + k)) with (53 - k) by lia.
    assert (H53 : 2 ^ 53 <= Zpos mx * 2 ^ 53 / Zpos my)
      by (apply Z.div_le_lower_bound; nia).
    assert (H52 : 2 ^ 52 <= Zpos mx * 2 ^ 53 / Zpos my / 2)
      by (apply Z.div_le_lower_bound; lia).
    assert (Hsplit : 2 ^ 53 = 2 ^ (53 - k) * 2 ^ k)
      by (rewrite <- Z.pow_add_r by lia; f_equal; lia).
    assert (0 < 2 ^ k) by (apply Z.pow_pos_nonneg; lia).
    assert (2 ^ (53 - k) * 2 ^ k <= Zpos m * 2 ^ k) by lia.
    nia.
Qed.

(** ** Process *)

Lemma utilization_in_range (p : Process.t) :
  Process.inRange p ->
  Process.utilization p =
    Some (if Process.concurrency p =? 0
          then (if Process.sessions p =? 0 then 0 else 1)
          else Process.sessions p * INT_MAX / Process.concurrency p).
Proof.
  intros [Hs [Hc | [Hc Hle]]]; unfold Process.utilization.
  - rewrite Hc. change (0 =? 0) with true. cbv iota.
    destruct (Process.sessions p =? 0); reflexivity.
  - replace (Process.concurrency p =? 0) with false by (symmetry; apply Z.eqb_neq; lia).
    destruct (Z.eq_dec (Process.sessions p) 0) as [H0 | H0].
    + rewrite H0. cbn [Z.mul]. rewrite Z.div_0_l by lia.
      destruct (double_of_Z_exact (Process.concurrency p) ltac:(lia)) as (m & a & -> & _).
      reflexivity.
    + apply double_quotient; lia.
Qed.

(** C7 (as stated, refuted): with sessions = 2147483645 and concurrency
    = 2147483646 the counters are in the documented range, yet the
    double-precision quotient rounds up to 2147483646 while
    sessions * INT_MAX / concurrency is 2147483645. *)
Lemma utilization_rounds_up :
  let p := Process.mk "" [] 1 "g" "" [] 0 0 2147483646 false true 0 0
             2147483645 0 ALIVE ENABLED false true in
  0 <= Process.sessions p <= Process.concurrency p
  /\ 0 < Process.concurrency p <= INT_MAX
  /\ Process.utilization p = Some 2147483646
  /\ Process.utilization p
     <> Some (Process.sessions p * INT_MAX / Process.concurrency p).
Proof.
  cbv zeta. split; [|split; [|split]].
  - cbn. lia.
  - cbn. unfold INT_MAX. lia.
  - vm_compute. reflexivity.
  - vm_compute. discriminate.
Qed.

(** C7 (amended): for a Process whose counters are in range
    (sessions >= 0 and, when concurrency > 0, sessions <= concurrency
    < 2^22), utilization() returns a value in [0, INT_MAX]: 0 when
    sessions == 0, 1 when concurrency == 0 and sessions > 0, and
    sessions * INT_MAX / concurrency when concurrency > 0. *)
Theorem utilization_spec (p : Process.t) (H : Process.inRange p) :
  exists u,
    Process.utilization p = Some u
    /\ 0 <= u <= INT_MAX
    /\ (Process.sessions p = 0 -> u = 0)
    /\ (Process.concurrency p = 0 -> 0 < Process.sessions p -> u = 1)
    /\ (0 < Process.concurrency p ->
        u = Process.sessions p * INT_MAX / Process.concurrency p).
Proof.
  rewrite (utilization_in_range p H). eexists. split; [reflexivity|].
  destruct H as [Hs [Hc | [Hc Hle]]].
  - rewrite Hc. change (0 =? 0) with true. cbv iota.
    destruct (Z.eqb_spec (Process.sessions p) 0); unfold INT_MAX; repeat split; lia.
  - replace (Process.concurrency p =? 0) with false by (symmetry; apply Z.eqb_neq; lia).
    assert (0 <= Process.sessions p * INT_MAX / Process.concurrency p <= INT_MAX).
    { split.
      - apply Z.div_pos; unfold INT_MAX; lia.
      - apply Z.div_le_upper_bound; [lia|]. unfold INT_MAX. nia. }
    repeat split; try lia.
    intros ->. apply Z.div_0_l. lia.
Qed.

Lemma utilization_spec_witness :
  exists u,
    Process.utilization
      (Process.mk "" [] 1 "g" "" [] 0 0 4 false true 0 0 3 0 ALIVE ENABLED false true)
      = Some u
    /\ 0 <= u <= INT_MAX.
Proof.
  destruct (utilization_spec
              (Process.mk "" [] 1 "g" "" [] 0 0 4 false true 0 0 3 0 ALIVE ENABLED false true))
    as (u & Hu & Hr & _).
  - split; [cbn; lia|]. right. cbn. lia.
  - exists u. split; assumption.
Defined.

Lemma osProcessExists_gone (p : Process.t) (k : KillResult) :
  Process.dummy p = true \/ Process.m_osProcessExists p = false ->
  Process.osProcessExists k p = (false, p).
Proof.
  intros [H | H]; unfold Process.osProcessExists; rewrite H;
    [|rewrite andb_false_r]; reflexivity.
Qed.

Lemma osProcessExists_false_cached (p : Process.t) (k : KillResult) :
  fst (Process.osProcessExists k p) = false ->
  Process.dummy (snd (Process.osProcessExists k p)) = true
  \/ Process.m_osProcessExists (snd (Process.osProcessExists k p)) = false.
Proof.
  unfold Process.osProcessExists.
  destruct (Process.dummy p) eqn:Hd; [left; exact Hd|].
  destruct (Process.m_osProcessExists p) eqn:Hm; cbn [negb andb fst snd].
  - intros ->. right. reflexivity.
  - intros _. right. exact Hm.
Qed.

Lemma probes_all_false (ks : list KillResult) (p : Process.t) :
  Process.dummy p = true \/ Process.m_osProcessExists p = false ->
  Forall (eq false) (Process.probes ks p).
Proof.
  intros H. induction ks as [|k ks IH]; cbn [Process.probes]; [constructor|].
  rewrite (osProcessExists_gone p k H). constructor; [reflexivity | exact IH].
Qed.

Lemma shutdownChecks_all_true (ks : list KillResult) (p : Process.t) :
  Process.sessions p = 0 ->
  Process.dummy p = true \/ Process.m_osProcessExists p = false ->
  Forall (eq true) (Process.shutdownChecks ks p).
Proof.
  intros Hs H. induction ks as [|k ks IH]; cbn [Process.shutdownChecks]; [constructor|].
  unfold Process.canBeShutDown. rewrite Hs. change (0 =? 0) with true. cbv iota.
  rewrite (osProcessExists_gone p k H). constructor; [reflexivity | exact IH].
Qed.

(** C10: osProcessExists() is monotone in falsehood. A dummy Process
    always answers false; a real Process with a positive cache answers
    false exactly when kill(pid, 0) fails with ESRCH; once a call has
    answered false, every later call answers false whatever kill()
    would say; and once canBeShutDown() has answered true it keeps
    answering true, whatever kill() would say. *)
Theorem osProcessExists_monotone (p : Process.t) (k : KillResult)
    (ks : list KillResult) :
  (Process.dummy p = true -> fst (Process.osProcessExists k p) = false)
  /\ (Process.dummy p = false -> Process.m_osProcessExists p = true ->
      (fst (Process.osProcessExists k p) = false
       <-> kill_ret k <> 0 /\ kill_errno k = ESRCH))
  /\ (fst (Process.osProcessExists k p) = false ->
      Forall (eq false) (Process.probes ks (snd (Process.osProcessExists k p))))
  /\ (fst (Process.canBeShutDown k p) = true ->
      Forall (eq true) (Process.shutdownChecks ks (snd (Process.canBeShutDown k p)))).
Proof.
  split; [|split; [|split]].
  - intros Hd. rewrite osProcessExists_gone by (left; exact Hd). reflexivity.
  - intros Hd Hm. unfold Process.osProcessExists. rewrite Hd, Hm. cbn [negb andb fst].
    rewrite orb_false_iff, negb_false_iff, Z.eqb_neq, Z.eqb_eq. reflexivity.
  - intros H. apply probes_all_false, osProcessExists_false_cached, H.
  - unfold Process.canBeShutDown.
    destruct (Z.eqb_spec (Process.sessions p) 0) as [Hs | Hs]; [|discriminate].
    destruct (Process.osProcessExists k p) as [b p'] eqn:Hos. cbn [fst snd].
    intros Hb. apply negb_true_iff in Hb. subst b.
    pose proof (osProcessExists_false_cached p k) as Hc. rewrite Hos in Hc.
    apply shutdownChecks_all_true; [|apply Hc; reflexivity].
    unfold Process.osProcessExists in Hos.
    destruct (negb (Process.dummy p) && Process.m_osProcessExists p);
      inversion Hos; subst; exact Hs.
Qed.

Lemma osProcessExists_monotone_witness :
  let p := Process.mk "" [] 41 "g" "" [] 0 0 0 false true 0 0 0 0 ALIVE ENABLED false true in
  let gone := mkKill (-1) ESRCH in
  let reused := mkKill 0 0 in
  fst (Process.osProcessExists gone p) = false
  /\ fst (Process.canBeShutDown gone p) = true
  /\ Forall (eq false) (Process.probes [reused; reused] (snd (Process.osProcessExists gone p)))
  /\ Forall (eq true)
       (Process.shutdownChecks [reused; reused] (snd (Process.canBeShutDown gone p))).
Proof.
  cbv zeta.
  pose proof (osProcessExists_monotone
                (Process.mk "" [] 41 "g" "" [] 0 0 0 false true 0 0 0 0 ALIVE ENABLED false true)
                (mkKill (-1) ESRCH) [mkKill 0 0; mkKill 0 0]) as (_ & _ & H3 & H4).
  split; [reflexivity|]. split; [reflexivity|].
  split; [apply H3; reflexivity | apply H4; reflexivity].
Defined.

(** *** The session-socket queue *)

Lemma min_entry_In (e : Z * nat) (q : PriorityQueue.t) :
  In (PriorityQueue.min_entry e q) (e :: q).
Proof.
  revert e. induction q as [|e' q IH]; intros e; cbn [PriorityQueue.min_entry].
  - left. reflexivity.
  - destruct (fst e' <? fst e).
    + right. apply IH.
    + destruct (IH e) as [H | H]; [left; exact H | right; right; exact H].
Qed.

Lemma min_entry_le (e : Z * nat) (q : PriorityQueue.t) :
  fst (PriorityQueue.min_entry e q) <= fst e
  /\ forall x, In x q -> fst (PriorityQueue.min_entry e q) <= fst x.
Proof.
  revert e. induction q as [|e' q IH]; intros e; cbn [PriorityQueue.min_entry].
  - split; [lia | intros x []].
  - destruct (Z.ltb_spec (fst e') (fst e)) as [Hlt | Hge].
    + destruct (IH e') as [H1 H2]. split; [lia|].
      intros x [<- | Hx]; [exact H1 | apply H2, Hx].
    + destruct (IH e) as [H1 H2]. split; [exact H1|].
      intros x [<- | Hx]; [lia | apply H2, Hx].
Qed.

Lemma remove_first_perm (e : Z * nat) (q : PriorityQueue.t) :
  In e q -> Permutation q (e :: PriorityQueue.remove_first e q).
Proof.
  induction q as [|e' q IH]; intros Hin; [destruct Hin|].
  cbn [PriorityQueue.remove_first].
  destruct ((fst e' =? fst e) && Nat.eqb (snd e') (snd e)) eqn:Heq.
  - apply andb_true_iff in Heq as [H1 H2].
    apply Z.eqb_eq in H1. apply Nat.eqb_eq in H2.
    destruct e as [a b], e' as [a' b']. cbn in H1, H2. subst. reflexivity.
  - destruct Hin as [-> | Hin].
    + destruct e as [a b]. cbn [fst snd] in Heq.
      rewrite Z.eqb_refl, Nat.eqb_refl in Heq. discriminate.
    + rewrite (IH Hin) at 1. apply perm_swap.
Qed.

Lemma pop_least (q q' : PriorityQueue.t) (i : nat) :
  PriorityQueue.pop q = Some (i, q') ->
  exists prio, In (prio, i) q
    /\ (forall x, In x q -> prio <= fst x)
    /\ Permutation q ((prio, i) :: q').
Proof.
  destruct q as [|e q0]; [discriminate|]. cbn [PriorityQueue.pop].
  intros H. inversion H; subst; clear H.
  set (m := PriorityQueue.min_entry e q0).
  exists (fst m). rewrite <- (surjective_pairing m).
  pose proof (min_entry_In e q0) as Hin. pose proof (min_entry_le e q0) as [H1 H2].
  fold m in Hin, H1, H2.
  split; [exact Hin|]. split.
  - intros x [<- | Hx]; [exact H1 | apply H2, Hx].
  - apply remove_first_perm, Hin.
Qed.

(** C4: newSession() pops the least-utilized session socket; if that
    socket is saturated it returns null; otherwise it increments the
    session counts of the socket and of the Process, increments
    processed (an unsigned int), sets lastUsed to the current time,
    pushes the socket back with its new utilization, and returns a
    Session bound to that socket. *)
Theorem newSession_checkout (now : Z) (p : Process.t) (i : nat)
    (q : PriorityQueue.t) (socket : Socket.t)
    (Hpop : PriorityQueue.pop (Process.sessionSockets p) = Some (i, q))
    (Hsock : Process.sockets p !! i = Some socket)
    (Hsync : Process.synced p) :
  (forall prio j s, In (prio, j) (Process.sessionSockets p) ->
     Process.sockets p !! j = Some s ->
     Socket.utilization socket <= Socket.utilization s)
  /\ (Socket.atFullCapacity socket = true ->
      exists p', Process.newSession now p = Some (None, p'))
  /\ (Socket.atFullCapacity socket = false ->
      Socket.sessions socket < INT_MAX -> Process.sessions p < INT_MAX ->
      exists p',
        Process.newSession now p = Some (Some (mkSession (Process.gupid p) i), p')
        /\ Process.sockets p' !! i
           = Some (Socket.with_sessions (Socket.sessions socket + 1) socket)
        /\ Process.sessions p' = Process.sessions p + 1
        /\ Process.processed p' = wrap32 (Process.processed p + 1)
        /\ (0 <= Process.processed p < UINT_MAX ->
            Process.processed p' = Process.processed p + 1)
        /\ Process.lastUsed p' = now
        /\ Process.sessionSockets p'
           = PriorityQueue.push q i
               (Socket.utilization
                  (Socket.with_sessions (Socket.sessions socket + 1) socket))).
Proof.
  destruct (pop_least _ _ _ Hpop) as (prio & Hin & Hmin & _).
  destruct (Hsync prio i Hin) as (s0 & Hs0 & Hprio).
  rewrite Hsock in Hs0. inversion Hs0; subst s0; clear Hs0.
  split; [|split].
  - intros prio' j s Hj Hs.
    destruct (Hsync prio' j Hj) as (s' & Hs' & Hp'). rewrite Hs in Hs'.
    inversion Hs'; subst s'. rewrite <- Hprio, <- Hp'. apply (Hmin (prio', j) Hj).
  - intros Hfull. unfold Process.newSession. rewrite Hpop, Hsock, Hfull. eauto.
  - intros Hfull Hs1 Hs2. unfold Process.newSession. rewrite Hpop, Hsock, Hfull.
    replace ((Socket.sessions socket <? INT_MAX) && (Process.sessions p <? INT_MAX))
      with true by (symmetry; apply andb_true_intro; split; apply Z.ltb_lt; assumption).
    eexists. split; [reflexivity|]. cbn.
    split; [apply list_lookup_insert_eq; eapply lookup_lt_Some; exact Hsock|].
    split; [reflexivity|]. split; [reflexivity|]. split; [|split; reflexivity].
    intros Hp. unfold wrap32. apply Z.mod_small. unfold UINT_MAX in Hp. lia.
Qed.

Lemma newSession_checkout_witness :
  let s0 := Socket.mk "main" "unix:/tmp/a" "session" 2 1 in
  let s1 := Socket.mk "alt" "unix:/tmp/b" "session" 2 0 in
  let p := Process.mk "grp" [(Socket.utilization s0, 0%nat); (Socket.utilization s1, 1%nat)]
             7 "g" "pw" [s0; s1] 0 0 4 false true 0 0 1 5 ALIVE ENABLED false true in
  PriorityQueue.pop (Process.sessionSockets p) = Some (1%nat, [(Socket.utilization s0, 0%nat)])
  /\ exists p',
       Process.newSession 99 p = Some (Some (mkSession "g" 1%nat), p')
       /\ Process.sessions p' = 2 /\ Process.processed p' = 6 /\ Process.lastUsed p' = 99.
Proof.
  cbv zeta.
  set (s0 := Socket.mk "main" "unix:/tmp/a" "session" 2 1).
  set (s1 := Socket.mk "alt" "unix:/tmp/b" "session" 2 0).
  set (p := Process.mk "grp" _ 7 "g" "pw" [s0; s1] 0 0 4 false true 0 0 1 5 ALIVE ENABLED
              false true).
  assert (Hpop : PriorityQueue.pop (Process.sessionSockets p)
                 = Some (1%nat, [(Socket.utilization s0, 0%nat)])) by reflexivity.
  split; [exact Hpop|].
  assert (Hsync : Process.synced p).
  { intros prio j [H | [H | []]]; inversion H; subst; eexists; split; reflexivity. }
  destruct (newSession_checkout 99 p 1%nat _ s1 Hpop eq_refl Hsync) as (_ & _ & H).
  destruct H as (p' & H1 & _ & H3 & H4 & H5 & H6 & _);
    [reflexivity | cbn; unfold INT_MAX; lia | cbn; unfold INT_MAX; lia |].
  exists p'. split; [exact H1|]. split; [exact H3|]. split; [|exact H6].
  rewrite H5; [reflexivity | cbn; unfold UINT_MAX; lia].
Defined.

(** ** Spawner *)

Import Spawner.

(** *** Strings *)

Lemma append_nil (b : string) : EmptyString +:+ b = b.
Proof. reflexivity. Qed.

Lemma append_cons (x : ascii) (a b : string) : String x a +:+ b = String x (a +:+ b).
Proof. reflexivity. Qed.

Lemma append_assoc (a b c : string) : (a +:+ b) +:+ c = a +:+ (b +:+ c).
Proof.
  induction a as [|x a IH]; [reflexivity|]. rewrite !append_cons, IH. reflexivity.
Qed.

Lemma length_append (a b : string) :
  String.length (a +:+ b) = (String.length a + String.length b)%nat.
Proof.
  induction a as [|x a IH]; [reflexivity|]. rewrite append_cons. cbn [String.length].
  rewrite IH. reflexivity.
Qed.

Lemma substring_all (s : string) : substring 0 (String.length s) s = s.
Proof. induction s as [|x s IH]; cbn; [reflexivity | rewrite IH; reflexivity]. Qed.

Lemma substring_prefix (a b : string) : substring 0 (String.length a) (a +:+ b) = a.
Proof.
  induction a as [|x a IH].
  - rewrite append_nil. destruct b; reflexivity.
  - rewrite append_cons. cbn [String.length substring]. rewrite IH. reflexivity.
Qed.

Lemma substring_skip (a b : string) (n : nat) :
  substring (String.length a) n (a +:+ b) = substring 0 n b.
Proof.
  induction a as [|x a IH]; [reflexivity|]. rewrite append_cons.
  cbn [String.length substring]. exact IH.
Qed.

Lemma prefix_nil (s : string) : String.prefix EmptyString s = true.
Proof. destruct s; reflexivity. Qed.

Lemma prefix_append (a b : string) : String.prefix a (a +:+ b) = true.
Proof.
  induction a as [|x a IH]; [rewrite append_nil; destruct b; reflexivity|].
  rewrite append_cons. cbn [String.prefix].
  destruct (ascii_dec x x); [exact IH | contradiction].
Qed.

Lemma endsWithNewline_line (l : string) : endsWithNewline (l +:+ LF) = true.
Proof.
  unfold endsWithNewline. rewrite length_append. cbn [String.length LF].
  replace (Nat.pred (String.length l + 1)) with (String.length l) by lia.
  induction l as [|x l IH]; [reflexivity|]. rewrite append_cons. exact IH.
Qed.

Lemma noLineFeed_append (a b : string) :
  noLineFeed (a +:+ b) = noLineFeed a && noLineFeed b.
Proof.
  induction a as [|x a IH]; [reflexivity|]. rewrite append_cons. cbn [noLineFeed].
  rewrite IH, andb_assoc. reflexivity.
Qed.

(** *** Reading lines *)

Lemma takeLine_line (max : nat) (l rest : string) :
  noLineFeed l = true -> (String.length l < max)%nat ->
  takeLine max (l +:+ LF +:+ rest) = (l +:+ LF, rest).
Proof.
  revert max. induction l as [|x l IH]; intros max Hl Hmax.
  - destruct max; [lia|]. reflexivity.
  - destruct max; [cbn in Hmax; lia|]. cbn in Hl. apply andb_true_iff in Hl as [Hx Hl].
    rewrite !append_cons. cbn [takeLine]. apply negb_true_iff in Hx. rewrite Hx.
    rewrite (IH max Hl) by (cbn in Hmax; lia). reflexivity.
Qed.

Lemma readLine_line (l rest : string) (e : ChannelEnd) :
  noLineFeed l = true -> (String.length l < 4096)%nat ->
  readLine 4096 (mkIO (l +:+ LF +:+ rest) e) = (Return (l +:+ LF), mkIO rest e).
Proof.
  intros Hl Hlen. unfold readLine. cbn [pending ending].
  rewrite (takeLine_line 4096 l rest Hl Hlen), endsWithNewline_line. reflexivity.
Qed.

(** readMessageLine() on a protocol line returns the line without its
    prefix and leaves the rest of the stream. *)
Lemma readMessageLine_protocolLine (text rest : string) (d : NegotiationDetails) :
  noLineFeed text = true -> (String.length (protocolLine text) <= 4096)%nat ->
  pending (io d) = protocolLine text +:+ rest ->
  readMessageLine d = (Return (text +:+ LF), set_io (mkIO rest (ending (io d))) d).
Proof.
  intros Htext Hlen Hp. unfold readMessageLine. rewrite Hp.
  cbn [readMessageLine_loop]. unfold bind at 1. unfold io_readLine.
  destruct (io d) as [pend e] eqn:Hio. cbn [pending ending] in *. subst pend.
  unfold protocolLine in *.
  rewrite !length_append in Hlen. cbn [String.length LF] in Hlen.
  replace (("!> " +:+ text +:+ LF) +:+ rest) with (("!> " +:+ text) +:+ LF +:+ rest)
    by (rewrite !append_assoc; reflexivity).
  rewrite readLine_line;
    [|rewrite noLineFeed_append, Htext; reflexivity
     |rewrite length_append; cbn [String.length]; lia].
  rewrite append_assoc. rewrite !append_cons, append_nil.
  cbn [String.eqb]. unfold startsWith. cbn [String.prefix].
  destruct (ascii_dec "!" "!"); [|contradiction].
  destruct (ascii_dec ">" ">"); [|contradiction].
  destruct (ascii_dec " " " "); [|contradiction].
  rewrite prefix_nil.
  cbn [String.length Nat.sub substring]. unfold ret.
  rewrite Nat.sub_0_r, substring_all. reflexivity.
Qed.

(** *** Attribute lines *)

Lemma find_separator (k rest : string) :
  find ": " k = None -> find ": " (k +:+ ": " +:+ rest) = Some (String.length k).
Proof.
  induction k as [|x k IH]; intros Hk.
  - rewrite append_nil. unfold find. destruct (String.prefix ": " (": " +:+ rest)) eqn:Hp.
    + destruct rest; reflexivity.
    + rewrite prefix_append in Hp. discriminate.
  - rewrite append_cons. cbn [find] in Hk |- *.
    destruct (String.prefix ": " (String x k)) eqn:Hp; [discriminate|].
    destruct (find ": " k) eqn:Hf; [discriminate|].
    rewrite (IH eq_refl). cbn [option_map String.length].
    replace (String.prefix ": " (String x (k +:+ ": " +:+ rest))) with false; [reflexivity|].
    symmetry. cbn [String.prefix] in Hp |- *.
    destruct (ascii_dec ":" x); [|reflexivity].
    destruct k as [|y k]; [rewrite append_nil, append_cons; reflexivity|].
    rewrite append_cons. cbn [String.prefix] in Hp |- *.
    destruct (ascii_dec " " y); [|reflexivity].
    rewrite prefix_nil in Hp. discriminate.
Qed.

Lemma eqb_length_neq (a b : string) :
  String.length a <> String.length b -> String.eqb a b = false.
Proof. intros H. apply String.eqb_neq. intros ->. apply H. reflexivity. Qed.

Lemma attribute_line_parse (k v : string) :
  find ": " k = None ->
  let line := (k +:+ ": " +:+ v) +:+ LF in
  String.eqb line EmptyString = false
  /\ endsWithNewline line = true
  /\ String.eqb line LF = false
  /\ find ": " line = Some (String.length k)
  /\ substring 0 (String.length k) line = k
  /\ substring (String.length k + 2) (String.length line - String.length k - 3) line = v.
Proof.
  intros Hk line.
  assert (Hlen : String.length line = (String.length k + 2 + String.length v + 1)%nat).
  { unfold line. rewrite !length_append. cbn [String.length LF]. lia. }
  split; [apply eqb_length_neq; cbn [String.length]; lia|].
  split; [apply endsWithNewline_line|].
  split; [apply eqb_length_neq; cbn [String.length LF]; lia|].
  assert (Hline : line = k +:+ ": " +:+ v +:+ LF)
    by (unfold line; rewrite !append_assoc; reflexivity).
  split; [rewrite Hline; apply find_separator, Hk|].
  split; [rewrite Hline; apply substring_prefix|].
  rewrite Hlen.
  replace (String.length k + 2 + String.length v + 1 - String.length k - 3)%nat
    with (String.length v) by lia.
  replace line with ((k +:+ ": ") +:+ v +:+ LF)
    by (unfold line; rewrite !append_assoc; reflexivity).
  replace (String.length k + 2)%nat with (String.length (k +:+ ": "))
    by (rewrite length_append; reflexivity).
  rewrite substring_skip. apply substring_prefix.
Qed.

Lemma attributeLines_length (md : list (string * string)) :
  (length md <= String.length (attributeLines md))%nat.
Proof.
  induction md as [|kv md IH]; [cbn; lia|].
  cbn [attributeLines length]. rewrite length_append. unfold attributeLine, protocolLine.
  rewrite !length_append. cbn [String.length LF]. lia.
Qed.

Lemma set_io_set_io (a b : BufferedIO) (d : NegotiationDetails) :
  set_io a (set_io b d) = set_io a d.
Proof. reflexivity. Qed.

(** The attribute loop of handleSpawnErrorResponse() consumes the
    attribute lines and the blank line, and continues with the map of
    the attributes. *)
Lemma errorResponse_attributes {A} (md : list (string * string)) :
  forall (fuel : nat) (attributes : gmap string string) (rest : string)
    (d : NegotiationDetails) (k : gmap string string -> M A),
  forallb attributeOk md = true ->
  (length md < fuel)%nat ->
  pending (io d) = attributeLines md +:+ protocolLine EmptyString +:+ rest ->
  handleSpawnErrorResponse_loop fuel attributes k d
  = k (fold_left (fun m kv => <[fst kv := snd kv]> m) md attributes)
      (set_io (mkIO rest (ending (io d))) d).
Proof.
  induction md as [|[key value] md IH]; intros fuel attributes rest d k Hok Hfuel Hp.
  - destruct fuel; [cbn in Hfuel; lia|]. cbn [handleSpawnErrorResponse_loop fold_left].
    unfold bind at 1. cbn [attributeLines] in Hp. rewrite append_nil in Hp.
    rewrite (readMessageLine_protocolLine EmptyString rest d eq_refl);
      [|vm_compute; lia|exact Hp].
    rewrite append_nil. reflexivity.
  - destruct fuel; [cbn in Hfuel; lia|]. cbn [handleSpawnErrorResponse_loop fold_left].
    cbn [forallb] in Hok. apply andb_true_iff in Hok as [Hkv Hok].
    unfold attributeOk in Hkv. cbn [fst snd] in Hkv.
    apply andb_true_iff in Hkv as [Hkv Hlen]. apply andb_true_iff in Hkv as [Hkv Hfind].
    apply andb_true_iff in Hkv as [Hnk Hnv].
    apply bool_decide_eq_true in Hfind. apply Nat.leb_le in Hlen.
    unfold bind at 1. cbn [attributeLines] in Hp. rewrite append_assoc in Hp.
    unfold attributeLine in Hp, Hlen. cbn [fst snd] in Hp, Hlen.
    rewrite (readMessageLine_protocolLine (key +:+ ": " +:+ value)
               (attributeLines md +:+ protocolLine EmptyString +:+ rest) d);
      [|rewrite !noLineFeed_append, Hnk, Hnv; reflexivity|exact Hlen|exact Hp].
    destruct (attribute_line_parse key value Hfind) as (H1 & H2 & H3 & H4 & H5 & H6).
    rewrite H1, H2, H3, H4, H5, H6. cbn [negb].
    rewrite IH with (rest := rest);
      [rewrite set_io_set_io; reflexivity | exact Hok | cbn in Hfuel; lia | reflexivity].
Qed.

(** *** Sending the request *)

Lemma appendArgs_even (args : list string) :
  Nat.even (length args) = true ->
  forall data, exists r, appendArgs data args = Some r.
Proof.
  remember (length args) as n eqn:Hn. revert args Hn.
  induction n as [n IH] using lt_wf_ind. intros args Hn Hev data.
  destruct args as [|a [|b args]].
  - eexists. reflexivity.
  - subst n. discriminate.
  - cbn [appendArgs]. apply (IH (length args)); [subst n; cbn; lia | reflexivity|].
    subst n. exact Hev.
Qed.

Lemma sendSpawnRequest_completes (c : Config) (d : NegotiationDetails) :
  sendCompletes (writes d) = true ->
  Nat.even (length (Options.toVector (options d))) = true ->
  exists d', sendSpawnRequest c d = (Return tt, d')
    /\ io d' = io d /\ stderrCapturer d' = stderrCapturer d
    /\ stderrRest d' = stderrRest d /\ debugDir d' = debugDir d.
Proof.
  intros Hw Hev. unfold sendSpawnRequest, try_catch.
  destruct (appendArgs_even _ Hev (spawnRequestHeader c d)) as [data ->].
  unfold bind, writeExact, sendCompletes, sendFailure in *.
  destruct (writes d) as [|[|sys code|] [|[|sys' code'|] ws]]; cbn [writes set_writes tail] in *;
    try discriminate; try rewrite Hw; unfold ret; eexists; (split; [reflexivity|]); auto.
Qed.

Lemma sendSpawnRequest_fails (c : Config) (d : NegotiationDetails) (sys : string)
    (code : Z) :
  sendFailure (writes d) = Some (WriteFails sys code) ->
  Nat.even (length (Options.toVector (options d))) = true ->
  code <> EPIPE ->
  fst (sendSpawnRequest c d) = Throw (SystemException sys code).
Proof.
  intros Hw Hev Hcode. unfold sendSpawnRequest, try_catch.
  destruct (appendArgs_even _ Hev (spawnRequestHeader c d)) as [data ->].
  apply Z.eqb_neq in Hcode.
  unfold bind, writeExact, sendFailure in *.
  destruct (writes d) as [|[|sys0 code0|] [|[|sys1 code1|] ws]];
    cbn [writes set_writes tail] in *; try discriminate;
    inversion Hw; subst; rewrite Hcode; reflexivity.
Qed.

Lemma sendCompletes_EPIPE (ws : list WriteOutcome) (sys : string) :
  sendFailure ws = Some (WriteFails sys EPIPE) -> sendCompletes ws = true.
Proof. unfold sendCompletes. intros ->. reflexivity. Qed.

Lemma handshake_read (c : Config) (now : Z) (g pw rest : string)
    (d : NegotiationDetails) :
  pending (io d) = protocolLine "I have control 1.0" +:+ rest ->
  let d1 := set_start g pw now (wrap64 (Options.startTimeout (options d) * 1000)) d in
  try_catch readMessageLine (readFailed "handshake message") d1
  = (Return ("I have control 1.0" +:+ LF), set_io (mkIO rest (ending (io d))) d1).
Proof.
  intros Hp d1. unfold try_catch.
  rewrite (readMessageLine_protocolLine "I have control 1.0" rest d1);
    [reflexivity | reflexivity | vm_compute; lia | exact Hp].
Qed.

(** The child reports an error after the handshake: the negotiation
    throws the explainable error with the child's body, whether the
    request could be written or the write ended in EPIPE. *)
Lemma negotiate_error_report (c : Config) (now now' : Z) (g pw : string)
    (d : NegotiationDetails) (md : list (string * string)) (body : string) :
  pending (io d)
  = protocolLine "I have control 1.0" +:+ protocolLine "Error"
    +:+ attributeLines md +:+ protocolLine EmptyString +:+ body ->
  ending (io d) = EndOfFile ->
  forallb attributeOk md = true ->
  sendCompletes (writes d) = true ->
  Nat.even (length (Options.toVector (options d))) = true ->
  fst (negotiateSpawn c now g pw now' d)
  = Throw (SpawnException "An error occured while starting the web application."
             body
             (String.eqb (default EmptyString (attributesOf md !! "html")) "true")
             APP_STARTUP_EXPLAINABLE_ERROR (annotations_of d)).
Proof.
  intros Hp Hend Hok Hw Hev. unfold negotiateSpawn.
  unfold bind at 1. rewrite (handshake_read c now g pw _ d Hp).
  rewrite String.eqb_refl.
  set (d1 := set_io _ _).
  unfold bind at 1.
  destruct (sendSpawnRequest_completes c d1 Hw Hev) as (d2 & -> & Hio & Hcap & Hrest & Hdbg).
  unfold bind at 1. unfold try_catch at 1.
  rewrite (readMessageLine_protocolLine "Error"
             (attributeLines md +:+ protocolLine EmptyString +:+ body) d2);
    [|reflexivity|vm_compute; lia|rewrite Hio; reflexivity].
  replace (String.eqb ("Error" +:+ LF) ("Ready" +:+ LF)) with false by reflexivity.
  rewrite String.eqb_refl.
  unfold handleSpawnErrorResponse.
  set (d3 := set_io _ d2).
  assert (Hp3 : pending (io d3)
                = attributeLines md +:+ protocolLine EmptyString +:+ body) by reflexivity.
  rewrite (errorResponse_attributes md _ ∅ body d3 _ Hok);
    [|rewrite Hp3, length_append; pose proof (attributeLines_length md); lia|exact Hp3].
  assert (He3 : ending (io d3) = EndOfFile) by (unfold d3; cbn; rewrite Hio; exact Hend).
  assert (Hd3 : debugDir d3 = debugDir d) by (unfold d3; cbn; rewrite Hdbg; reflexivity).
  unfold try_catch, bind, io_readAll, readAll. cbn [io set_io pending ending].
  rewrite He3. cbn [fst]. unfold attributesOf, annotations_of. cbn [debugDir set_io].
  rewrite Hd3. reflexivity.
Qed.

Lemma attributesOf_snoc (md : list (string * string)) (kv : string * string) :
  attributesOf (md ++ [kv]) = <[fst kv := snd kv]> (attributesOf md).
Proof. unfold attributesOf. rewrite fold_left_app. reflexivity. Qed.

Lemma attributesOf_lookup (md : list (string * string)) (k v : string) :
  NoDup (map fst md) ->
  attributesOf md !! k = Some v <-> In (k, v) md.
Proof.
  induction md as [|[k' v'] md IH] using rev_ind; intros Hnd.
  - unfold attributesOf. cbn. rewrite lookup_empty. split; [discriminate | intros []].
  - rewrite attributesOf_snoc. cbn [fst snd].
    rewrite map_app in Hnd. cbn [map fst] in Hnd.
    apply NoDup_app in Hnd as (Hnd & Hfresh & _).
    rewrite in_app_iff. cbn [In].
    destruct (decide (k' = k)) as [-> | Hne].
    + rewrite lookup_insert_eq. split.
      * intros H. inversion H; subst. right. left. reflexivity.
      * intros [Hin | [Heq | []]]; [|inversion Heq; reflexivity].
        exfalso. apply (Hfresh k); [|apply list_elem_of_In; left; reflexivity].
        apply list_elem_of_In, in_map_iff. exists (k, v). split; [reflexivity | exact Hin].
    + rewrite lookup_insert_ne by exact Hne. rewrite (IH Hnd). split.
      * intros H. left. exact H.
      * intros [H | [H | []]]; [exact H | inversion H; contradiction].
Qed.

(** C5: after the handshake the child sends "Error", attribute lines, a
    blank line and a body until end of file. The negotiation throws a
    SpawnException of kind APP_STARTUP_EXPLAINABLE_ERROR whose error
    page is exactly the body and whose HTML flag is true exactly when
    the html attribute is "true"; it returns no Process. *)
Theorem explainable_spawn_error (c : Config) (now now' : Z) (g pw : string)
    (d : NegotiationDetails) (md : list (string * string)) (body : string)
    (Hstream : pending (io d)
               = protocolLine "I have control 1.0" +:+ protocolLine "Error"
                 +:+ attributeLines md +:+ protocolLine EmptyString +:+ body)
    (Heof : ending (io d) = EndOfFile)
    (Hattrs : forallb attributeOk md = true)
    (Hkeys : NoDup (map fst md))
    (Hsend : sendCompletes (writes d) = true)
    (Hargs : Nat.even (length (Options.toVector (options d))) = true) :
  exists isHTML,
    fst (negotiateSpawn c now g pw now' d)
    = Throw (SpawnException "An error occured while starting the web application."
               body isHTML APP_STARTUP_EXPLAINABLE_ERROR (annotations_of d))
    /\ (isHTML = true <-> In ("html", "true") md)
    /\ (forall p, fst (negotiateSpawn c now g pw now' d) <> Return p).
Proof.
  pose proof (negotiate_error_report c now now' g pw d md body Hstream Heof Hattrs
                Hsend Hargs) as H.
  eexists. split; [exact H|]. split.
  - rewrite <- (attributesOf_lookup md "html" "true" Hkeys).
    destruct (attributesOf md !! "html") as [v|] eqn:Hv.
    + change (default EmptyString (Some v)) with v. split.
      * intros Heq. apply String.eqb_eq in Heq. subst v. reflexivity.
      * intros Heq. inversion Heq. reflexivity.
    + split; discriminate.
  - intros p Hp. rewrite H in Hp. discriminate.
Qed.

Lemma explainable_spawn_error_witness :
  let c := mkConfig "/opt/passenger" "4.0.0" "/usr/lib/ruby" "/tmp/generation-0" 5
             (fun s => s) (fun _ => "error") in
  let o := Options.mk "/srv/app" "/srv/app" 90000 "" "" 0 false 300
             ["app_root"; "/srv/app"] in
  let child := "!> I have control 1.0" +:+ LF +:+ "!> Error" +:+ LF
               +:+ "!> html: true" +:+ LF +:+ "!> " +:+ LF +:+ "<html>boom</html>" in
  let d := mkDetails (Some "") "" 42 o None (fun _ => inl 0) 0 [] "" (mkIO child EndOfFile)
             "" "" 0 0 in
  fst (negotiateSpawn c 100 "1a2b-gupid" "secret" 200 d)
  = Throw (SpawnException "An error occured while starting the web application."
             "<html>boom</html>" true APP_STARTUP_EXPLAINABLE_ERROR ∅).
Proof.
  cbv zeta.
  set (c := mkConfig _ _ _ _ _ _ _). set (o := Options.mk _ _ _ _ _ _ _ _ _).
  set (d := mkDetails _ _ _ _ _ _ _ _ _ _ _ _ _ _).
  assert (Hkeys : NoDup (map fst [("html", "true")])).
  { repeat constructor. intros Hin. inversion Hin. }
  destruct (explainable_spawn_error c 100 200 "1a2b-gupid" "secret" d
              [("html", "true")] "<html>boom</html>"
              eq_refl eq_refl eq_refl Hkeys eq_refl eq_refl)
    as (isHTML & H & Hflag & _).
  rewrite H. replace isHTML with true; [reflexivity|].
  symmetry. apply Hflag. left. reflexivity.
Defined.

(** C9: a write of the spawn request fails with a SystemException.
    When its code is EPIPE the exception is discarded, the input is
    untouched and the negotiation goes on to read the child's response,
    so that an error report of the child surfaces; with any other code
    the exception reaches the caller of negotiateSpawn(). *)
Theorem epipe_swallowed (c : Config) (now now' : Z) (g pw rest sys : string)
    (code : Z) (d : NegotiationDetails)
    (Hfail : sendFailure (writes d) = Some (WriteFails sys code))
    (Hargs : Nat.even (length (Options.toVector (options d))) = true)
    (Hhand : pending (io d) = protocolLine "I have control 1.0" +:+ rest) :
  (code = EPIPE ->
     (exists d', sendSpawnRequest c d = (Return tt, d') /\ io d' = io d)
     /\ (forall md body,
           rest = protocolLine "Error" +:+ attributeLines md
                  +:+ protocolLine EmptyString +:+ body ->
           ending (io d) = EndOfFile ->
           forallb attributeOk md = true ->
           fst (negotiateSpawn c now g pw now' d)
           = Throw (SpawnException
                      "An error occured while starting the web application." body
                      (String.eqb (default EmptyString (attributesOf md !! "html")) "true")
                      APP_STARTUP_EXPLAINABLE_ERROR (annotations_of d))))
  /\ (code <> EPIPE ->
      fst (sendSpawnRequest c d) = Throw (SystemException sys code)
      /\ fst (negotiateSpawn c now g pw now' d) = Throw (SystemException sys code)).
Proof.
  split.
  - intros ->. pose proof (sendCompletes_EPIPE _ _ Hfail) as Hw. split.
    + destruct (sendSpawnRequest_completes c d Hw Hargs) as (d' & H & Hio & _).
      exists d'. split; assumption.
    + intros md body -> Heof Hok.
      apply negotiate_error_report; assumption.
  - intros Hcode. split; [apply sendSpawnRequest_fails; assumption|].
    unfold negotiateSpawn. unfold bind at 1. rewrite (handshake_read c now g pw _ d Hhand).
    rewrite String.eqb_refl. set (d1 := set_io _ _). unfold bind at 1.
    pose proof (sendSpawnRequest_fails c d1 sys code Hfail Hargs Hcode) as H.
    destruct (sendSpawnRequest c d1) as [r d2]. cbn [fst] in H. subst r. reflexivity.
Qed.

Lemma epipe_swallowed_witness :
  let c := mkConfig "/opt/passenger" "4.0.0" "/usr/lib/ruby" "/tmp/generation-0" 5
             (fun s => s) (fun _ => "error") in
  let o := Options.mk "/srv/app" "/srv/app" 90000 "" "" 0 false 300
             ["app_root"; "/srv/app"] in
  let rest := "!> Error" +:+ LF +:+ "!> html: false" +:+ LF +:+ "!> " +:+ LF
              +:+ "out of memory" in
  let child := "!> I have control 1.0" +:+ LF +:+ rest in
  let d := mkDetails (Some "") "" 42 o None (fun _ => inl 0) 0
             [WriteFails "Broken pipe" EPIPE] "" (mkIO child EndOfFile) "" "" 0 0 in
  let d' := mkDetails (Some "") "" 42 o None (fun _ => inl 0) 0
              [Written; WriteFails "Connection reset by peer" 104] ""
              (mkIO child EndOfFile) "" "" 0 0 in
  fst (negotiateSpawn c 100 "1a2b-gupid" "secret" 200 d)
  = Throw (SpawnException "An error occured while starting the web application."
             "out of memory" false APP_STARTUP_EXPLAINABLE_ERROR ∅)
  /\ fst (negotiateSpawn c 100 "1a2b-gupid" "secret" 200 d')
     = Throw (SystemException "Connection reset by peer" 104).
Proof.
  cbv zeta.
  set (c := mkConfig _ _ _ _ _ _ _). set (o := Options.mk _ _ _ _ _ _ _ _ _).
  split.
  - set (d := mkDetails _ _ _ _ _ _ _ _ _ _ _ _ _ _).
    destruct (epipe_swallowed c 100 200 "1a2b-gupid" "secret"
                ("!> Error" +:+ LF +:+ "!> html: false" +:+ LF +:+ "!> " +:+ LF
                 +:+ "out of memory")
                "Broken pipe" EPIPE d eq_refl eq_refl eq_refl) as [H _].
    destruct (H eq_refl) as [_ H'].
    apply (H' [("html", "false")] "out of memory"); reflexivity.
  - set (d' := mkDetails _ _ _ _ _ _ _ _ _ _ _ _ _ _).
    destruct (epipe_swallowed c 100 200 "1a2b-gupid" "secret"
                ("!> Error" +:+ LF +:+ "!> html: false" +:+ LF +:+ "!> " +:+ LF
                 +:+ "out of memory")
                "Connection reset by peer" 104 d' eq_refl eq_refl eq_refl) as [_ H].
    apply H. unfold EPIPE. lia.
Defined.

(** ** Pool: the garbage collector *)

Lemma remove_length gupid (l : ProcessList.t) :
  Z.of_nat (length (snd (Group.remove gupid l)))
  = Z.of_nat (length l) - (if fst (Group.remove gupid l) then 1 else 0).
Proof.
  induction l as [|x l IH]; cbn [Group.remove]; [reflexivity|].
  destruct (String.eqb (Process.gupid x) gupid); cbn [fst snd].
  - cbn [length]. lia.
  - destruct (Group.remove gupid l) as [b r]. cbn [fst snd] in *.
    cbn [length]. rewrite !Nat2Z.inj_succ. lia.
Qed.

(** What Group::detach() does to the enabled Processes and their
    counter. *)
Lemma detach_enabled (g : Group.t) (process : Process.t) :
  Group.name (Group.detach g process) = Group.name g
  /\ Group.options (Group.detach g process) = Group.options g
  /\ Group.enabledCount g - 1 <= Group.enabledCount (Group.detach g process)
     <= Group.enabledCount g
  /\ Z.of_nat (length (Group.enabledProcesses (Group.detach g process)))
     - Group.enabledCount (Group.detach g process)
     = Z.of_nat (length (Group.enabledProcesses g)) - Group.enabledCount g.
Proof.
  unfold Group.detach.
  pose proof (remove_length (Process.gupid process) (Group.enabledProcesses g)) as Hl.
  destruct (Group.remove (Process.gupid process) (Group.enabledProcesses g)) as [b1 l1].
  cbn [fst snd] in Hl.
  destruct (if b1 then (false, Group.disablingProcesses g)
            else Group.remove (Process.gupid process) (Group.disablingProcesses g))
    as [b2 l2].
  destruct (if b1 || b2 then (false, Group.disabledProcesses g)
            else Group.remove (Process.gupid process) (Group.disabledProcesses g))
    as [b3 l3].
  cbn. destruct b1; repeat split; lia.
Qed.

Lemma detach_changes (g : Group.t) (process : Process.t) :
  Group.detach g process <> g.
Proof.
  intros H. apply (f_equal (fun x => length (Group.detachedProcesses x))) in H.
  revert H. unfold Group.detach.
  destruct (Group.remove (Process.gupid process) (Group.enabledProcesses g)) as [b1 l1].
  destruct (if b1 then (false, Group.disablingProcesses g)
            else Group.remove (Process.gupid process) (Group.disablingProcesses g))
    as [b2 l2].
  destruct (if b1 || b2 then (false, Group.disabledProcesses g)
            else Group.remove (Process.gupid process) (Group.disabledProcesses g))
    as [b3 l3].
  cbn. rewrite length_app. cbn. lia.
Qed.

Lemma wrap64_small n : 0 <= n <= ULLONG_MAX -> wrap64 n = n.
Proof. intros H. unfold wrap64. apply Z.mod_small. unfold ULLONG_MAX in H. lia. Qed.

(** The test of the collector, when nothing overflows. *)
Lemma gcEligible_spec (p : Pool.t) (now : Z) (g : Group.t) (process : Process.t) :
  0 <= Process.lastUsed process + Pool.maxIdleTime p <= ULLONG_MAX ->
  0 <= Group.enabledCount g <= ULLONG_MAX ->
  Pool.gcEligible p now g process = true
  <-> Process.sessions process = 0
      /\ now - Process.lastUsed process >= Pool.maxIdleTime p
      /\ Group.enabledCount g > Options.minProcesses (Group.options g).
Proof.
  intros Ho Hc. unfold Pool.gcEligible, Pool.processGcTime.
  rewrite !wrap64_small by assumption.
  rewrite !andb_true_iff, Z.eqb_eq, Z.leb_le, Z.ltb_lt. lia.
Qed.

(** The floor: what the collector may do to a Group. *)
Lemma gcProcesses_floor {C : Collaborators} (p : Pool.t) (now : Z)
    (processes : list Process.t) (g : Group.t) (actions : list Callback) (next : Z) :
  0 <= Group.enabledCount g <= ULLONG_MAX ->
  0 <= Options.minProcesses (Group.options g) ->
  Pool.gcFloor g (fst (fst (Pool.gcProcesses p now processes (g, actions, next)))).
Proof.
  revert g actions next.
  induction processes as [|x rest IH]; intros g actions next Hc Hm.
  - cbn. unfold Pool.gcFloor. repeat split; lia.
  - cbn [Pool.gcProcesses].
    destruct (Pool.gcEligible p now g x) eqn:E.
    + unfold Pool.gcEligible in E. rewrite !andb_true_iff, Z.ltb_lt in E.
      destruct E as [_ E]. rewrite wrap64_small in E by assumption.
      destruct (detach_enabled g x) as (Hn & Ho & Hr & Hl).
      specialize (IH (Group.detach g x) (actions ++ Group_detachActions g x) next).
      rewrite Ho in IH.
      destruct IH as (Hn' & Ho' & Hr' & Hl'); [lia|lia|].
      rewrite Ho in Hr'. unfold Pool.gcFloor.
      split; [congruence|]. split; [congruence|]. split; lia.
    + apply IH; assumption.
Qed.

(** Loops that append one result per element to a list they carry. *)
Lemma fold_left_collect {A B T} (R : A -> B -> Prop) (proj : T -> list B)
    (step : T -> A -> T) :
  (forall st x, exists y, proj (step st x) = proj st ++ [y] /\ R x y) ->
  forall l st, exists ys, proj (fold_left step l st) = proj st ++ ys /\ Forall2 R l ys.
Proof.
  intros Hstep l. induction l as [|x l IH]; intros st; cbn [fold_left].
  - exists []. rewrite app_nil_r. split; [reflexivity|constructor].
  - destruct (Hstep st x) as (y & Hy & HR).
    destruct (IH (step st x)) as (ys & Hys & HF).
    exists (y :: ys). rewrite Hys, Hy, <- app_assoc. split; [reflexivity|].
    constructor; assumption.
Qed.

Lemma gcGroup_floor {C : Collaborators} (p : Pool.t) (now : Z)
    (st : list Group.t * list Callback * Z) (g : Group.t) :
  exists g', fst (fst (Pool.gcGroup p now st g)) = fst (fst st) ++ [g']
             /\ (Pool.countsInRange g -> Pool.gcFloor g g').
Proof.
  destruct st as [[done actions] next]. unfold Pool.gcGroup.
  pose proof (gcProcesses_floor p now (Group.enabledProcesses g) g actions next) as H.
  destruct (Pool.gcProcesses p now (Group.enabledProcesses g) (g, actions, next))
    as [[g1 actions1] next1].
  cbn [fst snd] in H.
  destruct (Group.spawnerCleanable g1).
  - destruct (Pool.spawnerGcTime g1 <=? now).
    + destruct (Group_cleanupSpawner g1) as [[cleanable lastUsed] actions2].
      eexists. split; [reflexivity|]. intros [Hc Hm]. exact (H Hc Hm).
    + eexists. split; [reflexivity|]. intros [Hc Hm]. exact (H Hc Hm).
  - eexists. split; [reflexivity|]. intros [Hc Hm]. exact (H Hc Hm).
Qed.

Lemma gcSuperGroup_floor {C : Collaborators} (p : Pool.t) (now : Z)
    (st : list (string * SuperGroup.t) * list Callback * Z) (e : string * SuperGroup.t) :
  exists e', fst (fst (Pool.gcSuperGroup p now st e)) = fst (fst st) ++ [e']
             /\ Forall2 (fun g g' => Pool.countsInRange g -> Pool.gcFloor g g')
                  (SuperGroup.groups (snd e)) (SuperGroup.groups (snd e')).
Proof.
  destruct st as [[done actions] next]. unfold Pool.gcSuperGroup.
  destruct (fold_left_collect (fun g g' => Pool.countsInRange g -> Pool.gcFloor g g')
              (fun st => fst (fst st)) (Pool.gcGroup p now) (gcGroup_floor p now)
              (SuperGroup.groups (snd e)) ([], actions, next)) as (ys & Hys & HF).
  destruct (fold_left (Pool.gcGroup p now) (SuperGroup.groups (snd e)) ([], actions, next))
    as [[groups' actions'] next'].
  cbn [fst snd app] in Hys. subst groups'.
  eexists. split; [reflexivity|]. exact HF.
Qed.

Lemma garbageCollectLocked_floor {C : Collaborators} (p : Pool.t) (now : Z)
    (pos : nat * nat) (g : Group.t) :
  Pool.groupAt p pos = Some g ->
  exists g', Pool.groupAt (fst (fst (Pool.garbageCollectLocked p now))) pos = Some g'
             /\ (Pool.countsInRange g -> Pool.gcFloor g g').
Proof.
  unfold Pool.garbageCollectLocked.
  destruct (fold_left_collect
              (fun e e' => Forall2 (fun g g' => Pool.countsInRange g -> Pool.gcFloor g g')
                             (SuperGroup.groups (snd e)) (SuperGroup.groups (snd e')))
              (fun st => fst (fst st)) (Pool.gcSuperGroup p now) (gcSuperGroup_floor p now)
              (Pool.superGroups p) ([], [], 0)) as (ys & Hys & HF).
  destruct (fold_left (Pool.gcSuperGroup p now) (Pool.superGroups p) ([], [], 0))
    as [[m actions] next].
  cbn [fst snd app] in Hys. subst m. cbn [fst].
  unfold Pool.groupAt. cbn [Pool.superGroups Pool.set_superGroups].
  destruct (Pool.superGroups p !! fst pos) as [e|] eqn:E; [|discriminate].
  intros Hg.
  destruct (Forall2_lookup_l _ _ _ _ _ HF E) as (e' & E' & HF').
  rewrite E'.
  destruct (Forall2_lookup_l _ _ _ _ _ HF' Hg) as (g' & G' & HR).
  exists g'. split; assumption.
Qed.

Lemma gcFloor_refl (g : Group.t) : Pool.gcFloor g g.
Proof. unfold Pool.gcFloor. repeat split; lia. Qed.

Lemma gcFloor_trans (g g' g'' : Group.t) :
  Pool.countsInRange g -> Pool.gcFloor g g' -> Pool.gcFloor g' g'' ->
  Pool.countsInRange g' /\ Pool.gcFloor g g''.
Proof.
  unfold Pool.countsInRange, Pool.gcFloor.
  intros (Hc & Hm) (Hn & Ho & Hr & Hl) (Hn' & Ho' & Hr' & Hl').
  rewrite Ho in Hr'. rewrite Ho.
  repeat split; try congruence; lia.
Qed.

Lemma gcPasses_floor {C : Collaborators} (passes : list (Z * Z)) (pos : nat * nat)
    (g : Group.t) :
  Pool.countsInRange g ->
  forall (p : Pool.t) (h : Group.t),
    Pool.groupAt p pos = Some h -> Pool.gcFloor g h ->
    exists g', Pool.groupAt (Pool.gcPasses passes p) pos = Some g' /\ Pool.gcFloor g g'.
Proof.
  intros Hr. unfold Pool.gcPasses.
  induction passes as [|[now idle] passes IH]; intros p h Hh Hgh; cbn [fold_left].
  - exists h. split; assumption.
  - cbn [fst snd].
    destruct (garbageCollectLocked_floor (Pool.set_maxIdleTime idle p) now pos h Hh)
      as (h' & Hh' & Hf).
    destruct (gcFloor_trans g h h Hr Hgh (gcFloor_refl h)) as [Hrh _].
    apply (IH _ h' Hh'). apply (gcFloor_trans g h h' Hr Hgh (Hf Hrh)).
Qed.

(** The bound on lastUsed + maxIdleTime cannot be dropped: the time at
    which a Process becomes collectable is computed in 64 bits, and with
    maxIdleTime at the largest value of the type the sum wraps around,
    so that a Process that has been idle for 1000 microseconds is
    detached. The value setMaxIdleTime() is given by its caller is a
    product of unsigned ints, far below that. *)
Remark gcEligible_wraps (C : Collaborators) :
  let process := sampleProcess "A" "p1" 1000 0 in
  let group := sampleGroup "A" 0 [process] in
  let p := Pool.mk 6 ULLONG_MAX ALIVE [("A", sampleSuperGroup "A" [group])] [] in
  ~ (2000 - Process.lastUsed process >= Pool.maxIdleTime p)
  /\ Pool.gcEligible p 2000 group process = true
  /\ exists group',
       Pool.groupAt (fst (fst (Pool.garbageCollectLocked p 2000))) (0%nat, 0%nat)
       = Some group'
       /\ Group.enabledProcesses group' = []
       /\ Group.enabledCount group' = 0.
Proof.
  cbv zeta. split; [cbn; unfold ULLONG_MAX; lia|].
  split; [reflexivity|].
  eexists. split; [reflexivity|]. split; reflexivity.
Qed.



(** One examination by the collector: as long as
    lastUsed + maxIdleTime fits in 64 bits, the Process is detached from
    its Group if and only if sessions == 0, now - lastUsed >= maxIdleTime
    and enabledCount > minProcesses; otherwise the Group is left as it
    is. The floor: whatever the times and the values of maxIdleTime of
    a sequence of collections, the Group at a given place is still
    there afterwards and its enabled count is at least the smaller of
    minProcesses and the count it had, the list of enabled Processes
    having shrunk by as much as the count. *)
Theorem gc_floor (C : Collaborators) (p : Pool.t) (now : Z) (group : Group.t)
    (process : Process.t) (actions : list Callback) (next : Z)
    (passes : list (Z * Z)) (q : Pool.t) (pos : nat * nat) (h : Group.t) :
  0 <= Process.lastUsed process + Pool.maxIdleTime p <= ULLONG_MAX ->
  0 <= Group.enabledCount group <= ULLONG_MAX ->
  Pool.groupAt q pos = Some h ->
  Pool.countsInRange h ->
  (let idle := Process.sessions process = 0
               /\ now - Process.lastUsed process >= Pool.maxIdleTime p
               /\ Group.enabledCount group > Options.minProcesses (Group.options group) in
   let group' := fst (fst (Pool.gcProcesses p now [process] (group, actions, next))) in
   (idle -> group' = Group.detach group process /\ group' <> group)
   /\ (~ idle -> group' = group))
  /\ exists h',
       Pool.groupAt (Pool.gcPasses passes q) pos = Some h'
       /\ Group.options h' = Group.options h
       /\ Z.min (Group.enabledCount h) (Options.minProcesses (Group.options h))
          <= Group.enabledCount h'
       /\ Z.of_nat (length (Group.enabledProcesses h')) - Group.enabledCount h'
          = Z.of_nat (length (Group.enabledProcesses h)) - Group.enabledCount h.
Proof.
  intros Ho Hc Hq Hr. split.
  - cbv zeta. cbn [Pool.gcProcesses].
    pose proof (gcEligible_spec p now group process Ho Hc) as E.
    destruct (Pool.gcEligible p now group process); cbn [fst].
    + split; [|intros Hn; exfalso; apply Hn, E; reflexivity].
      intros _. split; [reflexivity|apply detach_changes].
    + split; [|reflexivity].
      intros Hi. apply E in Hi. discriminate.
  - destruct (gcPasses_floor passes pos h Hr q h Hq (gcFloor_refl h))
      as (h' & Hh' & _ & Hopt & Hcount & Hlen).
    exists h'. repeat split; try assumption. lia.
Qed.

Lemma gc_floor_witness :
  let idle := sampleProcess "A" "p1" 1000 0 in
  let busy := sampleProcess "A" "p2" 1000 1 in
  let group := sampleGroup "A" 1 [idle; busy] in
  let p := Pool.mk 6 500 ALIVE [("A", sampleSuperGroup "A" [group])] [] in
  fst (fst (Pool.gcProcesses (C := queueingCollaborators) p 2000 [idle] (group, [], 0)))
  = Group.detach group idle
  /\ exists h',
       Pool.groupAt
         (Pool.gcPasses (C := queueingCollaborators) [(2000, 500); (3000, 0)] p)
         (0%nat, 0%nat) = Some h'
       /\ 1 <= Group.enabledCount h'.
Proof.
  cbv zeta.
  set (idle := sampleProcess "A" "p1" 1000 0).
  set (busy := sampleProcess "A" "p2" 1000 1).
  set (group := sampleGroup "A" 1 [idle; busy]).
  set (p := Pool.mk 6 500 ALIVE [("A", sampleSuperGroup "A" [group])] []).
  assert (Ho : 0 <= Process.lastUsed idle + Pool.maxIdleTime p <= ULLONG_MAX)
    by (cbn; unfold ULLONG_MAX; lia).
  assert (Hc : 0 <= Group.enabledCount group <= ULLONG_MAX)
    by (cbn; unfold ULLONG_MAX; lia).
  assert (Hr : Pool.countsInRange group) by (split; [exact Hc | cbn; lia]).
  destruct (gc_floor queueingCollaborators p 2000 group idle [] 0
              [(2000, 500); (3000, 0)] p (0%nat, 0%nat) group Ho Hc eq_refl Hr)
    as [[Hd _] (h' & Hh' & _ & Hmin & _)].
  split.
  - apply Hd. cbn. lia.
  - exists h'. split; [exact Hh'|]. exact Hmin.
Defined.

(** ** Pool: the choice of a Process to free *)

Lemma fold_left_flat_map {A B S} (f : S -> B -> S) (g : A -> list B) (l : list A) (a : S) :
  fold_left f (flat_map g l) a = fold_left (fun a x => fold_left f (g x) a) l a.
Proof.
  revert a. induction l as [|x l IH]; intros a; [reflexivity|].
  cbn [flat_map fold_left]. rewrite fold_left_app. apply IH.
Qed.

Lemma fold_left_pointwise {A S} (f g : S -> A -> S) (l : list A) (a : S) :
  (forall a x, f a x = g a x) -> fold_left f l a = fold_left g l a.
Proof.
  intros H. revert a. induction l as [|x l IH]; intros a; [reflexivity|].
  cbn [fold_left]. rewrite H. apply IH.
Qed.

Lemma findOldestIdleProcess_flat (p : Pool.t) :
  Pool.findOldestIdleProcess p
  = fold_left Pool.oldestIdle_step (Pool.enabledProcessesOf p) None.
Proof.
  unfold Pool.findOldestIdleProcess, Pool.enabledProcessesOf.
  rewrite fold_left_flat_map. apply fold_left_pointwise. intros acc e.
  rewrite fold_left_flat_map. reflexivity.
Qed.

Lemma findBestProcessToTrash_flat (p : Pool.t) :
  Pool.findBestProcessToTrash p
  = fold_left Pool.oldest_step (Pool.enabledProcessesOf p) None.
Proof.
  unfold Pool.findBestProcessToTrash, Pool.enabledProcessesOf.
  rewrite fold_left_flat_map. apply fold_left_pointwise. intros acc e.
  rewrite fold_left_flat_map. reflexivity.
Qed.

(** A loop that keeps the first Process of least lastUsed among those
    that pass a test. *)
Lemma oldest_loop (sel : Process.t -> bool)
    (step : option Process.t -> Process.t -> option Process.t) :
  (forall acc x,
     step acc x
     = if sel x && match acc with
                   | None => true
                   | Some o => Process.lastUsed x <? Process.lastUsed o
                   end
       then Some x else acc) ->
  forall l acc,
    match fold_left step l acc with
    | None => acc = None /\ forall x, In x l -> sel x = false
    | Some r =>
        (acc = Some r \/ (In r l /\ sel r = true))
        /\ (forall o, acc = Some o -> Process.lastUsed r <= Process.lastUsed o)
        /\ (forall y, In y l -> sel y = true -> Process.lastUsed r <= Process.lastUsed y)
    end.
Proof.
  intros Hstep l. induction l as [|x l IH]; intros acc; cbn [fold_left].
  - destruct acc as [o|].
    + split; [left; reflexivity|]. split.
      * intros o' H. inversion H. lia.
      * intros y [].
    + split; [reflexivity|]. intros y [].
  - specialize (IH (step acc x)). rewrite Hstep in IH |- *.
    destruct (fold_left step l _) as [r|].
    + destruct IH as (Hin & Hacc & Hmin).
      destruct (sel x) eqn:Ex; cbn [andb] in *.
      * destruct acc as [o|].
        -- destruct (Z.ltb_spec (Process.lastUsed x) (Process.lastUsed o)) as [Hlt|Hge].
           ++ specialize (Hacc x eq_refl). split; [|split].
              ** right. destruct Hin as [Hin | [Hin Hs]].
                 --- inversion Hin; subst r. split; [left; reflexivity|assumption].
                 --- split; [right; assumption|assumption].
              ** intros o' H. inversion H; subst o'. lia.
              ** intros y [<- | Hy] Hs; [lia|]. apply Hmin; assumption.
           ++ specialize (Hacc o eq_refl). split; [|split].
              ** destruct Hin as [Hin | [Hin Hs]]; [left; assumption|].
                 right. split; [right; assumption|assumption].
              ** intros o' H. inversion H; subst o'. lia.
              ** intros y [<- | Hy] Hs; [lia|]. apply Hmin; assumption.
        -- specialize (Hacc x eq_refl). split; [|split].
           ++ right. destruct Hin as [Hin | [Hin Hs]].
              ** inversion Hin; subst r. split; [left; reflexivity|assumption].
              ** split; [right; assumption|assumption].
           ++ intros o' H. discriminate.
           ++ intros y [<- | Hy] Hs; [lia|]. apply Hmin; assumption.
      * split; [|split].
        -- destruct Hin as [Hin | [Hin Hs]]; [left; assumption|].
           right. split; [right; assumption|assumption].
        -- assumption.
        -- intros y [<- | Hy] Hs; [congruence|]. apply Hmin; assumption.
    + destruct IH as (Hnone & Hall).
      destruct (sel x) eqn:Ex; cbn [andb] in *.
      * destruct acc as [o|].
        -- destruct (Process.lastUsed x <? Process.lastUsed o); discriminate.
        -- discriminate.
      * split; [assumption|]. intros y [<- | Hy]; [assumption|]. apply Hall; assumption.
Qed.

(** [process->utilization() == 0] is [sessions == 0]. *)
Lemma utilization_is_zero_sessions (process : Process.t) :
  Process.intCounters process ->
  Pool.utilization_is_zero process = (Process.sessions process =? 0).
Proof.
  intros [Hs Hc]. unfold Pool.utilization_is_zero, Process.utilization.
  destruct (Z.eqb_spec (Process.concurrency process) 0) as [Hc0 | Hc0].
  - destruct (Process.sessions process =? 0); reflexivity.
  - destruct (Z.eqb_spec (Process.sessions process) 0) as [Hs0 | Hs0].
    + rewrite Hs0. cbn [Z.mul].
      destruct (double_of_Z_normal (Process.concurrency process) Hc0
                  ltac:(unfold INT_MAX in *; lia)) as (m & e & -> & _).
      reflexivity.
    + pose proof (double_quotient_nonzero _ _ Hs0 Hs Hc0 Hc) as Hq.
      destruct (Double.to_int _) as [u|]; [|reflexivity].
      apply Z.eqb_neq. intros ->. apply Hq. reflexivity.
Qed.

(** The smallest [int] as concurrency: a Process with one session has
    utilization() == 0. *)
Remark utilization_is_zero_smallest_concurrency :
  let p := Process.mk "" [] 1 "g" "" [] 0 0 (- INT_MAX - 1) false true 0 0
             1 0 ALIVE ENABLED false true in
  Process.sessions p = 1 /\ Pool.utilization_is_zero p = true.
Proof. cbv zeta. split; [reflexivity|]. vm_compute. reflexivity. Qed.

Lemma findOldestIdleProcess_spec (p : Pool.t) :
  match Pool.findOldestIdleProcess p with
  | None => forall x, In x (Pool.enabledProcessesOf p) -> Pool.utilization_is_zero x = false
  | Some r =>
      In r (Pool.enabledProcessesOf p) /\ Pool.utilization_is_zero r = true
      /\ forall y, In y (Pool.enabledProcessesOf p) -> Pool.utilization_is_zero y = true ->
                   Process.lastUsed r <= Process.lastUsed y
  end.
Proof.
  rewrite findOldestIdleProcess_flat.
  pose proof (oldest_loop Pool.utilization_is_zero Pool.oldestIdle_step
                (fun acc x => eq_refl) (Pool.enabledProcessesOf p) None) as H.
  destruct (fold_left _ _ _) as [r|].
  - destruct H as ([H | [Hin Hs]] & _ & Hmin); [discriminate|]. auto.
  - apply H.
Qed.

Lemma findBestProcessToTrash_spec (p : Pool.t) :
  match Pool.findBestProcessToTrash p with
  | None => Pool.enabledProcessesOf p = []
  | Some r =>
      In r (Pool.enabledProcessesOf p)
      /\ forall y, In y (Pool.enabledProcessesOf p) ->
                   Process.lastUsed r <= Process.lastUsed y
  end.
Proof.
  rewrite findBestProcessToTrash_flat.
  pose proof (oldest_loop (fun _ => true) Pool.oldest_step
                (fun acc x => eq_refl) (Pool.enabledProcessesOf p) None) as H.
  destruct (fold_left _ _ _) as [r|].
  - destruct H as ([H | [Hin Hs]] & _ & Hmin); [discriminate|]. auto.
  - destruct H as [_ H]. destruct (Pool.enabledProcessesOf p) as [|x l]; [reflexivity|].
    specialize (H x (or_introl eq_refl)). discriminate.
Qed.

Lemma getWaitlist_setGroupAt (p : Pool.t) (pos : nat * nat) (g : Group.t) :
  Pool.getWaitlist (Pool.setGroupAt p pos g) = Pool.getWaitlist p.
Proof. unfold Pool.setGroupAt. destruct (Pool.superGroups p !! fst pos); reflexivity. Qed.

Lemma getWaitlist_detachFromGroup {C : Collaborators} (p : Pool.t) (process : Process.t)
    (actions : list Callback) :
  Pool.getWaitlist (fst (Pool.detachFromGroup p process actions)) = Pool.getWaitlist p.
Proof.
  unfold Pool.detachFromGroup.
  destruct (Pool.findGroup p (Process.group process)) as [pos|]; [|reflexivity].
  destruct (Pool.groupAt p pos); [|reflexivity].
  apply getWaitlist_setGroupAt.
Qed.

Lemma getWaitlist_getFrom {C : Collaborators} (p : Pool.t) (key : string)
    (sg : SuperGroup.t) (o : Options.t) (cb : GetCallback) :
  Pool.getWaitlist (fst (Pool.getFrom p key sg o cb)) = Pool.getWaitlist p.
Proof.
  unfold Pool.getFrom. destruct (SuperGroup_get _ _ _ _). reflexivity.
Qed.

Lemma getWaitlist_createSuperGroupAndAsyncGetFromIt {C : Collaborators} (p : Pool.t)
    (o : Options.t) (cb : GetCallback) :
  Pool.getWaitlist (Pool.createSuperGroupAndAsyncGetFromIt p o cb) = Pool.getWaitlist p.
Proof.
  unfold Pool.createSuperGroupAndAsyncGetFromIt, Pool.createSuperGroup.
  rewrite getWaitlist_getFrom. reflexivity.
Qed.

(** asyncGet() on a full Pool that has no SuperGroup for the request. *)
Lemma asyncGet_full {C : Collaborators} (o : Options.t) (cb : GetCallback)
    (lockNow : bool) (w : Pool.World) :
  Pool.findMatchingSuperGroup (Pool.pool w) o = None ->
  Pool.atFullCapacity (Pool.pool w) = true ->
  Pool.pool (Pool.asyncGet o cb lockNow w)
  = match Pool.processToFree (Pool.pool w) o with
    | None =>
        Pool.set_getWaitlist (Pool.getWaitlist (Pool.pool w) ++ [mkGetWaiter o cb])
          (Pool.pool w)
    | Some process =>
        Pool.createSuperGroupAndAsyncGetFromIt
          (fst (Pool.detachFromGroup (Pool.pool w) process [])) o cb
    end.
Proof.
  intros Hnone Hfull. unfold Pool.asyncGet.
  assert (Hp : Pool.pool (if lockNow then Pool.lock w else w) = Pool.pool w)
    by (destruct lockNow; reflexivity).
  rewrite Hp, Hnone, Hfull. cbn [negb].
  destruct (Pool.processToFree (Pool.pool w) o) as [process|].
  - destruct (Pool.detachFromGroup (Pool.pool w) process []) as [p1 actions].
    cbn [fst]. destruct actions, lockNow; reflexivity.
  - destruct lockNow; reflexivity.
Qed.

(** C2, as stated: findOldestIdleProcess() does not look at the Group's
    enabledCount or minProcesses. In a full Pool whose only Process is
    idle and is the one Process its Group must keep (enabledCount =
    minProcesses = 1), no Process meets the stated conditions and the
    caller does not allow trashing, yet the request is not put on the
    wait list: that Process is chosen and detached. *)
Lemma asyncGet_evicts_below_minProcesses :
  let process := sampleProcess "A" "p1" 1000 0 in
  let group := sampleGroup "A" 1 [process] in
  let p := Pool.mk 1 60000000 ALIVE [("A", sampleSuperGroup "A" [group])] [] in
  let o := sampleOptions "B" 0 false in
  let p' := Pool.pool (Pool.asyncGet (C := queueingCollaborators) o 7%nat true
                         (sampleWorld p)) in
  Pool.atFullCapacity p = true
  /\ Pool.findMatchingSuperGroup p o = None
  /\ Pool.enabledProcessesOf p = [process]
  /\ ~ (Group.enabledCount group > Options.minProcesses (Group.options group))
  /\ Options.allowTrashingNonIdleProcesses o = false
  /\ Pool.processToFree p o = Some process
  /\ Pool.getWaitlist p' = []
  /\ exists group',
       Pool.groupAt p' (0%nat, 0%nat) = Some group'
       /\ Group.enabledProcesses group' = []
       /\ Group.enabledCount group' = 0.
Proof.
  cbv zeta. split; [reflexivity|]. split; [reflexivity|]. split; [reflexivity|].
  split; [cbn; lia|]. split; [reflexivity|]. split; [reflexivity|].
  split; [reflexivity|].
  eexists. split; [reflexivity|]. split; reflexivity.
Qed.

(** C2, amended. When asyncGet() runs on a full Pool that has no
    SuperGroup for the requested app group, the Process it frees is an
    enabled Process with sessions == 0 of least lastUsed among all
    enabled Processes with sessions == 0, whatever enabledCount and
    minProcesses of its Group are; if there is no such Process and the
    caller allows trashing non-idle Processes, it is an enabled Process
    of least lastUsed among all enabled Processes. The chosen Process is
    detached from its Group and the wait list stays as it is. The
    request is pushed onto the wait list exactly when no enabled Process
    has sessions == 0 and either the caller does not allow trashing or
    there is no enabled Process at all. The counters of the enabled
    Processes are ints, the concurrency not the smallest one. *)
Theorem asyncGet_eviction (C : Collaborators) (o : Options.t) (cb : GetCallback)
    (lockNow : bool) (w : Pool.World) :
  Pool.findMatchingSuperGroup (Pool.pool w) o = None ->
  Pool.atFullCapacity (Pool.pool w) = true ->
  Forall Process.intCounters (Pool.enabledProcessesOf (Pool.pool w)) ->
  let p := Pool.pool w in
  let enabled := Pool.enabledProcessesOf p in
  let idle := List.filter (fun x => Process.sessions x =? 0) enabled in
  let p' := Pool.pool (Pool.asyncGet o cb lockNow w) in
  match Pool.processToFree p o with
  | Some x =>
      ((In x idle /\ forall y, In y idle -> Process.lastUsed x <= Process.lastUsed y)
       \/ (idle = [] /\ Options.allowTrashingNonIdleProcesses o = true
           /\ In x enabled
           /\ forall y, In y enabled -> Process.lastUsed x <= Process.lastUsed y))
      /\ p' = Pool.createSuperGroupAndAsyncGetFromIt
                (fst (Pool.detachFromGroup p x [])) o cb
      /\ Pool.getWaitlist p' = Pool.getWaitlist p
  | None =>
      idle = []
      /\ (Options.allowTrashingNonIdleProcesses o = false \/ enabled = [])
      /\ p' = Pool.set_getWaitlist (Pool.getWaitlist p ++ [mkGetWaiter o cb]) p
  end.
Proof.
  intros Hnone Hfull Hrange. cbv zeta.
  rewrite (asyncGet_full o cb lockNow w Hnone Hfull).
  assert (Hidle : forall x, In x (Pool.enabledProcessesOf (Pool.pool w)) ->
                            Pool.utilization_is_zero x = (Process.sessions x =? 0)).
  { intros x Hx. apply utilization_is_zero_sessions.
    rewrite Forall_forall in Hrange. apply Hrange. apply list_elem_of_In. exact Hx. }
  unfold Pool.processToFree.
  pose proof (findOldestIdleProcess_spec (Pool.pool w)) as Hold.
  destruct (Pool.findOldestIdleProcess (Pool.pool w)) as [x|].
  - destruct Hold as (Hin & Hz & Hmin).
    split; [|split; [reflexivity|]].
    + left. split.
      * apply filter_In. split; [exact Hin|]. rewrite <- Hidle; assumption.
      * intros y Hy. apply filter_In in Hy. destruct Hy as [Hy Hs].
        apply Hmin; [exact Hy|]. rewrite Hidle; assumption.
    + rewrite getWaitlist_createSuperGroupAndAsyncGetFromIt, getWaitlist_detachFromGroup.
      reflexivity.
  - assert (Hempty : List.filter (fun x => Process.sessions x =? 0)
                       (Pool.enabledProcessesOf (Pool.pool w)) = []).
    { destruct (List.filter _ _) as [|x l] eqn:E; [reflexivity|].
      assert (Hx : In x (x :: l)) by (left; reflexivity).
      rewrite <- E in Hx. apply filter_In in Hx. destruct Hx as [Hx Hs].
      rewrite <- Hidle, Hold in Hs by assumption. discriminate. }
    destruct (Options.allowTrashingNonIdleProcesses o) eqn:Et.
    + pose proof (findBestProcessToTrash_spec (Pool.pool w)) as Hbest.
      destruct (Pool.findBestProcessToTrash (Pool.pool w)) as [x|].
      * destruct Hbest as (Hin & Hmin).
        split; [|split; [reflexivity|]].
        -- right. auto.
        -- rewrite getWaitlist_createSuperGroupAndAsyncGetFromIt,
             getWaitlist_detachFromGroup.
           reflexivity.
      * split; [exact Hempty|]. split; [right; exact Hbest|reflexivity].
    + split; [exact Hempty|]. split; [left; reflexivity|reflexivity].
Qed.

Lemma asyncGet_eviction_witness :
  let older := sampleProcess "A" "p1" 1000 0 in
  let newer := sampleProcess "A" "p2" 2000 0 in
  let busy := sampleProcess "A" "p3" 500 1 in
  let p := Pool.mk 3 60000000 ALIVE
             [("A", sampleSuperGroup "A" [sampleGroup "A" 0 [busy; newer; older]])] [] in
  let o := sampleOptions "B" 0 false in
  Pool.processToFree p o = Some older
  /\ Pool.getWaitlist
       (Pool.pool (Pool.asyncGet (C := queueingCollaborators) o 7%nat true (sampleWorld p)))
     = [].
Proof.
  cbv zeta.
  set (older := sampleProcess "A" "p1" 1000 0).
  set (newer := sampleProcess "A" "p2" 2000 0).
  set (busy := sampleProcess "A" "p3" 500 1).
  set (p := Pool.mk 3 60000000 ALIVE _ []).
  set (o := sampleOptions "B" 0 false).
  assert (Hrange : Forall Process.intCounters
                     (Pool.enabledProcessesOf (Pool.pool (sampleWorld p)))).
  { repeat constructor; cbn; unfold INT_MAX; lia. }
  pose proof (asyncGet_eviction queueingCollaborators o 7%nat true (sampleWorld p)
                eq_refl eq_refl Hrange) as H.
  cbv zeta in H.
  change (Pool.processToFree (Pool.pool (sampleWorld p)) o) with (Some older) in H.
  cbv iota beta in H. destruct H as (_ & _ & H).
  split; [reflexivity|exact H].
Defined.

(** ** Pool: detaching a SuperGroup *)


Lemma StringMap_get_In {V} (m : list (string * V)) (k : string) (v : V) :
  StringMap.get m k = Some v -> In (k, v) m.
Proof.
  induction m as [|[k' v'] m IH]; cbn [StringMap.get]; [discriminate|].
  destruct (String.eqb_spec k' k) as [-> | Hne].
  - intros H. inversion H. left. reflexivity.
  - intros H. right. apply IH, H.
Qed.


Lemma keys_setGroupAt (p : Pool.t) (pos : nat * nat) (g : Group.t) :
  map fst (Pool.superGroups (Pool.setGroupAt p pos g)) = map fst (Pool.superGroups p).
Proof.
  unfold Pool.setGroupAt.
  destruct (Pool.superGroups p !! fst pos) as [e|] eqn:E; [|reflexivity].
  cbn [Pool.superGroups Pool.set_superGroups].
  rewrite list_fmap_insert. cbn [fst].
  apply list_insert_id. rewrite list_lookup_fmap, E. reflexivity.
Qed.

Lemma keys_spawnLoop {C : Collaborators} (wants : PoolView -> Group.t -> bool)
    (positions : list (nat * nat)) (p : Pool.t) :
  map fst (Pool.superGroups (fst (Pool.spawnLoop wants positions p)))
  = map fst (Pool.superGroups p).
Proof.
  revert p. induction positions as [|pos rest IH]; intros p; cbn [Pool.spawnLoop];
    [reflexivity|].
  destruct (Pool.groupAt p pos) as [group|]; [|apply IH].
  destruct (wants (Pool.view p) group); [|apply IH].
  destruct (Pool.atFullCapacity _).
  - cbn [fst]. apply keys_setGroupAt.
  - rewrite IH. apply keys_setGroupAt.
Qed.

Lemma keys_possiblySpawn {C : Collaborators} (p : Pool.t) :
  map fst (Pool.superGroups (Pool.possiblySpawnMoreProcessesForExistingGroups p))
  = map fst (Pool.superGroups p).
Proof.
  unfold Pool.possiblySpawnMoreProcessesForExistingGroups.
  pose proof (keys_spawnLoop (fun _ g => Group_isWaitingForCapacity g)
                (Pool.groupPositions p) p) as H1.
  destruct (Pool.spawnLoop _ (Pool.groupPositions p) p) as [p1 returned].
  cbn [fst] in H1. destruct returned; [exact H1|].
  rewrite keys_spawnLoop. exact H1.
Qed.

Lemma getWaitlist_spawnLoop {C : Collaborators} (wants : PoolView -> Group.t -> bool)
    (positions : list (nat * nat)) (p : Pool.t) :
  Pool.getWaitlist (fst (Pool.spawnLoop wants positions p)) = Pool.getWaitlist p.
Proof.
  revert p. induction positions as [|pos rest IH]; intros p; cbn [Pool.spawnLoop];
    [reflexivity|].
  destruct (Pool.groupAt p pos) as [group|]; [|apply IH].
  destruct (wants (Pool.view p) group); [|apply IH].
  destruct (Pool.atFullCapacity _).
  - cbn [fst]. apply getWaitlist_setGroupAt.
  - rewrite IH. apply getWaitlist_setGroupAt.
Qed.

Lemma getWaitlist_possiblySpawn {C : Collaborators} (p : Pool.t) :
  Pool.getWaitlist (Pool.possiblySpawnMoreProcessesForExistingGroups p)
  = Pool.getWaitlist p.
Proof.
  unfold Pool.possiblySpawnMoreProcessesForExistingGroups.
  pose proof (getWaitlist_spawnLoop (fun _ g => Group_isWaitingForCapacity g)
                (Pool.groupPositions p) p) as H1.
  destruct (Pool.spawnLoop _ (Pool.groupPositions p) p) as [p1 returned].
  cbn [fst] in H1. destruct returned; [exact H1|].
  rewrite getWaitlist_spawnLoop. exact H1.
Qed.




Lemma StringMap_remove_found {V} (m : list (string * V)) (k : string) (v : V) :
  StringMap.get m k = Some v -> fst (StringMap.remove m k) = true.
Proof.
  induction m as [|[k' v'] m IH]; cbn [StringMap.get StringMap.remove]; [discriminate|].
  destruct (String.eqb k' k); [reflexivity|].
  intros H. specialize (IH H). destruct (StringMap.remove m k) as [b r]. exact IH.
Qed.


(** The two assertions of verifyInvariants() say the same: somebody
    waiting on the Pool means that the Pool is full. *)
Lemma verifyInvariants_spec (p : Pool.t) :
  Pool.verifyInvariants p = true
  <-> (Pool.getWaitlist p <> [] -> Pool.atFullCapacity p = true).
Proof.
  unfold Pool.verifyInvariants.
  destruct (Pool.atFullCapacity p); case_bool_decide; cbn; split; auto;
    intros H; try discriminate; exfalso; auto.
Qed.

(** Detaching a SuperGroup leaves the wait list of the Pool alone, and
    no waiter of the Pool finds its application in the map afterwards
    if it did not before. *)
Lemma getWaitlist_superGroupDetached {C : Collaborators} (p : Pool.t) (name : string) :
  Pool.getWaitlist (Pool.superGroupDetached p name) = Pool.getWaitlist p.
Proof. unfold Pool.superGroupDetached. rewrite getWaitlist_possiblySpawn. reflexivity. Qed.



(** What detachSuperGroupByName() does when the SuperGroup is there. *)
Lemma detachSuperGroupByName_found {C : Collaborators} (name : string) (w : Pool.World)
    (sg : SuperGroup.t) :
  StringMap.get (Pool.superGroups (Pool.pool w)) name = Some sg ->
  SuperGroup.name sg = name ->
  Pool.detachSuperGroupByName name w
  = if Pool.verifyInvariants (Pool.pool w)
       && Pool.verifyExpensiveInvariants (Pool.pool w) then
      if Pool.verifyInvariants (Pool.superGroupDetached (Pool.pool w) name)
         && Pool.verifyExpensiveInvariants (Pool.superGroupDetached (Pool.pool w) name)
      then
        Pool.Returns (bool_decide (snd (SuperGroup_destroy sg) = SUCCESS))
          (Pool.runAllActions
             (snd (fst (SuperGroup_destroy sg))
              ++ map (fun x => CallGetCallback (waiter_callback x) None
                                 (Some (GetAbortedException
                                          "The containg SuperGroup was detached.")))
                   (SuperGroup.getWaitlist (fst (fst (SuperGroup_destroy sg)))))
             (Pool.unlock
                (Pool.with_pool (Pool.superGroupDetached (Pool.pool w) name)
                   (Pool.lock w))))
      else
        Pool.Aborts
          (Pool.abort
             (Pool.with_pool (Pool.superGroupDetached (Pool.pool w) name) (Pool.lock w)))
    else Pool.Aborts (Pool.abort (Pool.lock w)).
Proof.
  intros Hget Hname. unfold Pool.detachSuperGroupByName, Pool.forceDetachSuperGroup.
  cbn [Pool.lock Pool.pool]. rewrite Hget, Hname, Hget.
  destruct (Pool.verifyInvariants (Pool.pool w)
            && Pool.verifyExpensiveInvariants (Pool.pool w)); [|reflexivity].
  unfold Pool.superGroupDetached.
  pose proof (StringMap_remove_found _ _ _ Hget) as Hremoved.
  destruct (StringMap.remove _ name) as [removed m]. cbn [fst snd] in *. subst removed.
  destruct (SuperGroup_destroy sg) as [[sg' actions] result].
  reflexivity.
Qed.

(** C1: detachSuperGroupByName() does not keep the invariant. The block
    that reprocesses the wait list (migrateSuperGroupGetWaitlistToPool,
    assignSessionsToGetWaiters) is compiled out, so the capacity the
    detached SuperGroup frees is not offered to the waiters of the Pool.
    A Pool with max = 1 holds application A with one busy Process; a
    request for application B arrives and is put on the wait list, both
    assertions holding; A is then detached: the Pool is empty, not at
    full capacity, and the request for B is still waiting, so the
    assertion verifyInvariants() makes at the end of the function
    fails and the function aborts there. *)
Theorem detachSuperGroupByName_breaks_invariant (C : Collaborators) :
  let busy := sampleProcess "A" "p1" 1000 1 in
  let p0 := Pool.mk 1 60000000 ALIVE
              [("A", sampleSuperGroup "A" [sampleGroup "A" 0 [busy]])] [] in
  let request := sampleOptions "B" 0 false in
  let w1 := Pool.asyncGet request 7%nat true (sampleWorld p0) in
  let w2 := Pool.world (Pool.detachSuperGroupByName "A" w1) in
  Pool.verifyInvariants p0 = true
  /\ Pool.verifyExpensiveInvariants p0 = true
  /\ Pool.getWaitlist (Pool.pool w1) = [mkGetWaiter request 7%nat]
  /\ Pool.verifyInvariants (Pool.pool w1) = true
  /\ Pool.verifyExpensiveInvariants (Pool.pool w1) = true
  /\ Pool.superGroups (Pool.pool w2) = []
  /\ Pool.getWaitlist (Pool.pool w2) = [mkGetWaiter request 7%nat]
  /\ Pool.atFullCapacity (Pool.pool w2) = false
  /\ Pool.verifyInvariants (Pool.pool w2) = false
  /\ Pool.detachSuperGroupByName "A" w1 = Pool.Aborts w2.
Proof.
  cbv zeta.
  set (busy := sampleProcess "A" "p1" 1000 1).
  set (p0 := Pool.mk 1 60000000 ALIVE _ []).
  set (request := sampleOptions "B" 0 false).
  assert (Hw1 : Pool.asyncGet request 7%nat true (sampleWorld p0)
                = Pool.mkWorld
                    (Pool.set_getWaitlist [mkGetWaiter request 7%nat] p0) false [] false).
  { vm_compute. reflexivity. }
  rewrite Hw1.
  split; [reflexivity|]. split; [reflexivity|]. split; [reflexivity|].
  split; [reflexivity|]. split; [reflexivity|].
  rewrite (detachSuperGroupByName_found "A"
             (Pool.mkWorld (Pool.set_getWaitlist [mkGetWaiter request 7%nat] p0)
                false [] false)
             (sampleSuperGroup "A" [sampleGroup "A" 0 [busy]]) eq_refl eq_refl).
  cbn [Pool.pool].
  assert (Hentry : Pool.verifyInvariants (Pool.set_getWaitlist [mkGetWaiter request 7%nat] p0)
                   && Pool.verifyExpensiveInvariants
                        (Pool.set_getWaitlist [mkGetWaiter request 7%nat] p0) = true)
    by reflexivity.
  rewrite Hentry.
  assert (Hafter : Pool.superGroupDetached
                     (Pool.set_getWaitlist [mkGetWaiter request 7%nat] p0) "A"
                   = Pool.mk 1 60000000 ALIVE [] [mkGetWaiter request 7%nat])
    by reflexivity.
  rewrite Hafter.
  repeat split; reflexivity.
Qed.



(** ** Pool: detaching a Process *)

Lemma In_lookup {A} (l : list A) (x : A) : In x l <-> exists i, l !! i = Some x.
Proof. rewrite <- list_elem_of_In. apply list_elem_of_lookup. Qed.

Lemma NoDup_flat_map_part {A B} (h : A -> list B) (l : list A) (i : nat) (a : A) :
  NoDup (flat_map h l) -> l !! i = Some a -> NoDup (h a).
Proof.
  revert i. induction l as [|a0 l IH]; intros i Hnd Hi; [discriminate|].
  cbn [flat_map] in Hnd. apply NoDup_app in Hnd. destruct Hnd as (H1 & _ & H2).
  destruct i as [|i]; cbn in Hi.
  - inversion Hi; subst. exact H1.
  - apply (IH i H2 Hi).
Qed.

Lemma NoDup_flat_map_disjoint {A B} (h : A -> list B) (l : list A) (i j : nat)
    (a b : A) (x : B) :
  NoDup (flat_map h l) -> l !! i = Some a -> l !! j = Some b -> i <> j ->
  In x (h a) -> In x (h b) -> False.
Proof.
  revert i j. induction l as [|a0 l IH]; intros i j Hnd Hi Hj Hij Ha Hb; [discriminate|].
  cbn [flat_map] in Hnd. apply NoDup_app in Hnd. destruct Hnd as (H1 & H12 & H2).
  assert (Hsub : forall k c, l !! k = Some c -> In x (h c) -> x ∈ flat_map h l).
  { intros k c Hk Hc. apply list_elem_of_In, in_flat_map. exists c.
    split; [|exact Hc]. apply In_lookup. exists k. exact Hk. }
  destruct i as [|i], j as [|j]; cbn in Hi, Hj.
  - congruence.
  - inversion Hi; subst a0. apply (H12 x); [apply list_elem_of_In, Ha|].
    apply (Hsub j b Hj Hb).
  - inversion Hj; subst a0. apply (H12 x); [apply list_elem_of_In, Hb|].
    apply (Hsub i a Hi Ha).
  - apply (IH i j H2 Hi Hj); [congruence|assumption|assumption].
Qed.

Lemma getProcesses_flat (p : Pool.t) :
  Pool.getProcesses p
  = flat_map (fun e => SuperGroup.processes (snd e)) (Pool.superGroups p).
Proof. reflexivity. Qed.

Lemma map_flat_map {A B D} (f : B -> D) (h : A -> list B) (l : list A) :
  map f (flat_map h l) = flat_map (fun a => map f (h a)) l.
Proof.
  induction l as [|a l IH]; [reflexivity|].
  cbn [flat_map]. rewrite map_app, IH. reflexivity.
Qed.

(** The Processes of the Pool are those of its Groups. *)
Lemma In_getProcesses (p : Pool.t) (x : Process.t) :
  In x (Pool.getProcesses p)
  <-> exists pos g, Pool.groupAt p pos = Some g /\ In x (Group.processes g).
Proof.
  rewrite getProcesses_flat, in_flat_map. unfold Pool.groupAt, SuperGroup.processes.
  split.
  - intros (e & He & Hx). apply In_lookup in He. destruct He as (i & Hi).
    apply in_flat_map in Hx. destruct Hx as (g & Hg & Hx).
    apply In_lookup in Hg. destruct Hg as (j & Hj).
    exists (i, j), g. cbn [fst snd]. rewrite Hi. split; assumption.
  - intros ([i j] & g & Hg & Hx). cbn [fst snd] in Hg.
    destruct (Pool.superGroups p !! i) as [e|] eqn:Hi; [|discriminate].
    exists e. split; [apply In_lookup; exists i; exact Hi|].
    apply in_flat_map. exists g. split; [apply In_lookup; exists j; exact Hg|exact Hx].
Qed.

(** Gupids that are unique in the Pool are unique in each Group, and
    no two Groups share one. *)
Lemma gupids_group (p : Pool.t) (pos : nat * nat) (g : Group.t) :
  NoDup (map Process.gupid (Pool.getProcesses p)) ->
  Pool.groupAt p pos = Some g ->
  NoDup (map Process.gupid (Group.processes g)).
Proof.
  rewrite getProcesses_flat, map_flat_map. unfold Pool.groupAt. intros Hnd Hg.
  destruct (Pool.superGroups p !! fst pos) as [e|] eqn:Hi; [|discriminate].
  pose proof (NoDup_flat_map_part _ _ _ _ Hnd Hi) as He. cbv beta in He.
  unfold SuperGroup.processes in He. rewrite map_flat_map in He.
  apply (NoDup_flat_map_part _ _ _ _ He Hg).
Qed.

Lemma gupids_disjoint (p : Pool.t) (pos pos' : nat * nat) (g g' : Group.t)
    (gupid : string) :
  NoDup (map Process.gupid (Pool.getProcesses p)) ->
  Pool.groupAt p pos = Some g -> Pool.groupAt p pos' = Some g' -> pos' <> pos ->
  In gupid (map Process.gupid (Group.processes g)) ->
  In gupid (map Process.gupid (Group.processes g')) -> False.
Proof.
  rewrite getProcesses_flat, map_flat_map. unfold Pool.groupAt.
  destruct pos as [i j], pos' as [i' j']. cbn [fst snd]. intros Hnd Hg Hg' Hne Hx Hy.
  destruct (Pool.superGroups p !! i) as [e|] eqn:Hi; [|discriminate].
  destruct (Pool.superGroups p !! i') as [e'|] eqn:Hi'; [|discriminate].
  assert (Hin : forall (e0 : string * SuperGroup.t) k g0,
            SuperGroup.groups (snd e0) !! k = Some g0 ->
            In gupid (map Process.gupid (Group.processes g0)) ->
            In gupid (map Process.gupid (SuperGroup.processes (snd e0)))).
  { intros e0 k g0 Hk H0. unfold SuperGroup.processes. rewrite map_flat_map.
    apply in_flat_map. exists g0. split; [apply In_lookup; exists k; exact Hk|exact H0]. }
  destruct (Nat.eq_dec i i') as [<- | Hii].
  - rewrite Hi in Hi'. inversion Hi'; subst e'.
    pose proof (NoDup_flat_map_part _ _ _ _ Hnd Hi) as He. cbv beta in He.
    unfold SuperGroup.processes in He. rewrite map_flat_map in He.
    apply (NoDup_flat_map_disjoint _ _ j j' g g' gupid He Hg Hg'); [congruence| |];
      assumption.
  - apply (NoDup_flat_map_disjoint _ _ i i' e e' gupid Hnd Hi Hi' Hii).
    + apply (Hin e j g Hg Hx).
    + apply (Hin e' j' g' Hg' Hy).
Qed.

Lemma groupAt_setGroupAt (p : Pool.t) (pos pos' : nat * nat) (g h : Group.t) :
  Pool.groupAt (Pool.setGroupAt p pos g) pos' = Some h ->
  (pos' = pos /\ h = g) \/ (pos' <> pos /\ Pool.groupAt p pos' = Some h).
Proof.
  unfold Pool.setGroupAt, Pool.groupAt. destruct pos as [i j], pos' as [i' j'].
  cbn [fst snd].
  destruct (Pool.superGroups p !! i) as [e|] eqn:Hi.
  - cbn [Pool.superGroups Pool.set_superGroups].
    destruct (Nat.eq_dec i i') as [<- | Hii].
    + rewrite list_lookup_insert_eq by (eapply lookup_lt_Some; exact Hi).
      cbn [snd SuperGroup.groups SuperGroup.set_groups]. rewrite Hi.
      intros H. apply list_lookup_insert_Some in H.
      destruct H as [(<- & <- & _) | (Hne & H)].
      * left. split; reflexivity.
      * right. split; [congruence|exact H].
    + rewrite list_lookup_insert_ne by exact Hii.
      intros H. right. split; [congruence|exact H].
  - intros H. right. split; [|exact H].
    intros E. inversion E; subst. rewrite Hi in H. discriminate.
Qed.

Lemma remove_absent (gupid : string) (l : ProcessList.t) :
  NoDup (map Process.gupid l) ->
  ~ In gupid (map Process.gupid (snd (Group.remove gupid l)))
  /\ (fst (Group.remove gupid l) = false -> ~ In gupid (map Process.gupid l))
  /\ (fst (Group.remove gupid l) = true -> In gupid (map Process.gupid l)).
Proof.
  induction l as [|x l IH]; cbn [Group.remove map]; intros Hnd.
  - cbn. repeat split; auto. discriminate.
  - inversion Hnd as [|? ? Hx Hl]; subst. rewrite list_elem_of_In in Hx.
    destruct (String.eqb_spec (Process.gupid x) gupid) as [E | E]; cbn [fst snd].
    + subst gupid. split; [exact Hx|]. split; [discriminate|]. intros _. left. reflexivity.
    + destruct (IH Hl) as (H1 & H2 & H3).
      destruct (Group.remove gupid l) as [b r]. cbn [fst snd map] in *.
      split; [intros [H | H]; [contradiction|apply H1, H]|]. split.
      * intros Hb [H | H]; [contradiction|apply (H2 Hb), H].
      * intros Hb. right. apply H3, Hb.
Qed.

(** After Group::detach() the Group holds no Process with that gupid. *)
Lemma detach_absent (g : Group.t) (process : Process.t) :
  NoDup (map Process.gupid (Group.processes g)) ->
  ~ In (Process.gupid process) (map Process.gupid (Group.processes (Group.detach g process))).
Proof.
  unfold Group.processes at 1. rewrite !map_app. intros Hnd.
  apply NoDup_app in Hnd. destruct Hnd as (N1 & D1 & Hnd).
  apply NoDup_app in Hnd. destruct Hnd as (N2 & D2 & N3).
  unfold Group.detach.
  destruct (remove_absent (Process.gupid process) _ N1) as (A1 & F1 & T1).
  destruct (remove_absent (Process.gupid process) _ N2) as (A2 & F2 & T2).
  destruct (remove_absent (Process.gupid process) _ N3) as (A3 & F3 & T3).
  destruct (Group.remove (Process.gupid process) (Group.enabledProcesses g)) as [b1 l1].
  destruct (Group.remove (Process.gupid process) (Group.disablingProcesses g)) as [b2 l2].
  destruct (Group.remove (Process.gupid process) (Group.disabledProcesses g)) as [b3 l3].
  cbn [fst snd] in *.
  destruct b1; cbn [orb].
  - unfold Group.processes. cbn. rewrite !map_app, !in_app_iff.
    specialize (T1 eq_refl). apply list_elem_of_In in T1.
    pose proof (D1 _ T1) as Hd. rewrite list_elem_of_In, in_app_iff in Hd. tauto.
  - destruct b2; cbn [orb].
    + unfold Group.processes. cbn. rewrite !map_app, !in_app_iff.
      specialize (T2 eq_refl). apply list_elem_of_In in T2.
      pose proof (D2 _ T2) as Hd. rewrite list_elem_of_In in Hd.
      specialize (F1 eq_refl). tauto.
    + unfold Group.processes. cbn. rewrite !map_app, !in_app_iff.
      specialize (F1 eq_refl). specialize (F2 eq_refl). tauto.
Qed.

Lemma absent_group (p : Pool.t) (pos : nat * nat) (g : Group.t) (gupid : string) :
  ~ In gupid (map Process.gupid (Pool.getProcesses p)) ->
  Pool.groupAt p pos = Some g ->
  ~ In gupid (map Process.gupid (Group.processes g)).
Proof.
  intros Hp Hg Hin. apply Hp. apply in_map_iff in Hin. destruct Hin as (x & Hx & Hin).
  apply in_map_iff. exists x. split; [exact Hx|].
  apply In_getProcesses. exists pos, g. split; assumption.
Qed.

Lemma absent_setGroupAt (p : Pool.t) (pos : nat * nat) (h : Group.t) (gupid : string) :
  ~ In gupid (map Process.gupid (Pool.getProcesses p)) ->
  ~ In gupid (map Process.gupid (Group.processes h)) ->
  ~ In gupid (map Process.gupid (Pool.getProcesses (Pool.setGroupAt p pos h))).
Proof.
  intros Hp Hh Hin. apply in_map_iff in Hin. destruct Hin as (x & Hx & Hin).
  apply In_getProcesses in Hin. destruct Hin as (pos' & g & Hg & Hxg).
  apply groupAt_setGroupAt in Hg. destruct Hg as [[_ ->] | [_ Hg]].
  - apply Hh. apply in_map_iff. exists x. split; assumption.
  - apply (absent_group p pos' g gupid Hp Hg). apply in_map_iff. exists x.
    split; assumption.
Qed.

Lemma StringMap_set_In {V} (m : list (string * V)) (k : string) (v : V) (e : string * V) :
  In e (StringMap.set m k v) -> e = (k, v) \/ In e m.
Proof.
  induction m as [|[k' v'] m IH]; cbn [StringMap.set].
  - intros [<- | []]. left. reflexivity.
  - destruct (String.eqb k' k).
    + intros [<- | H]; [left; reflexivity|right; right; exact H].
    + intros [<- | H]; [right; left; reflexivity|].
      destruct (IH H) as [-> | H']; [left; reflexivity|right; right; exact H'].
Qed.

Lemma absent_set (p : Pool.t) (k : string) (sg : SuperGroup.t) (gupid : string) :
  ~ In gupid (map Process.gupid (Pool.getProcesses p)) ->
  ~ In gupid (map Process.gupid (SuperGroup.processes sg)) ->
  ~ In gupid
      (map Process.gupid
         (Pool.getProcesses
            (Pool.set_superGroups (StringMap.set (Pool.superGroups p) k sg) p))).
Proof.
  intros Hp Hsg Hin. apply in_map_iff in Hin. destruct Hin as (x & Hx & Hin).
  rewrite getProcesses_flat in Hin. apply in_flat_map in Hin.
  destruct Hin as (e & He & Hxe). cbn [Pool.superGroups Pool.set_superGroups] in He.
  apply StringMap_set_In in He. destruct He as [-> | He].
  - apply Hsg. apply in_map_iff. exists x. split; assumption.
  - apply Hp. apply in_map_iff. exists x. split; [exact Hx|].
    rewrite getProcesses_flat. apply in_flat_map. exists e. split; assumption.
Qed.

Lemma absent_get (p : Pool.t) (k : string) (sg : SuperGroup.t) (gupid : string) :
  ~ In gupid (map Process.gupid (Pool.getProcesses p)) ->
  StringMap.get (Pool.superGroups p) k = Some sg ->
  ~ In gupid (map Process.gupid (SuperGroup.processes sg)).
Proof.
  intros Hp Hget Hin. apply Hp. apply in_map_iff in Hin. destruct Hin as (x & Hx & Hin).
  apply in_map_iff. exists x. split; [exact Hx|].
  rewrite getProcesses_flat. apply in_flat_map. exists (k, sg).
  split; [apply StringMap_get_In, Hget|exact Hin].
Qed.

Section Absent.

Context {C : Collaborators}.
Variable gupid : string.

(** SuperGroup::get() and Group::spawn() attach no Process with this
    gupid. *)
Hypothesis get_attaches_nothing :
  forall v sg o cb,
    ~ In gupid (map Process.gupid (SuperGroup.processes sg)) ->
    ~ In gupid (map Process.gupid
                  (SuperGroup.processes (fst (SuperGroup_get v sg o cb)))).
Hypothesis spawn_attaches_nothing :
  forall v g,
    ~ In gupid (map Process.gupid (Group.processes g)) ->
    ~ In gupid (map Process.gupid (Group.processes (Group_spawn v g))).

Lemma absent_getFrom (p : Pool.t) (key : string) (sg : SuperGroup.t) (o : Options.t)
    (cb : GetCallback) :
  ~ Pool.attached p gupid -> ~ In gupid (map Process.gupid (SuperGroup.processes sg)) ->
  ~ Pool.attached (fst (Pool.getFrom p key sg o cb)) gupid.
Proof.
  intros Hp Hsg. unfold Pool.getFrom.
  pose proof (get_attaches_nothing (Pool.view p) sg o cb Hsg) as H.
  destruct (SuperGroup_get (Pool.view p) sg o cb) as [sg' session].
  cbn [fst] in *. apply absent_set; assumption.
Qed.

Lemma absent_create (p : Pool.t) (o : Options.t) (cb : GetCallback) :
  ~ Pool.attached p gupid -> ~ Pool.attached (Pool.createSuperGroupAndAsyncGetFromIt p o cb) gupid.
Proof.
  intros Hp. unfold Pool.createSuperGroupAndAsyncGetFromIt, Pool.createSuperGroup.
  apply absent_getFrom.
  - apply absent_set; [exact Hp|]. intros [].
  - intros [].
Qed.

Lemma absent_assignSessions_step (st : Pool.t * list Callback * list GetWaiter)
    (waiter : GetWaiter) :
  ~ Pool.attached (fst (fst st)) gupid ->
  ~ Pool.attached (fst (fst (Pool.assignSessions_step st waiter))) gupid.
Proof.
  destruct st as [[p actions] waitlist]. cbn [fst]. intros Hp.
  unfold Pool.assignSessions_step.
  destruct (Pool.findMatchingSuperGroup p (waiter_options waiter)) as [sg|] eqn:E.
  - pose proof (absent_getFrom p (Options.getAppGroupName (waiter_options waiter)) sg
                  (waiter_options waiter) (waiter_callback waiter) Hp
                  (absent_get p _ sg gupid Hp E)) as H.
    destruct (Pool.getFrom p _ sg _ _) as [p' session]. cbn [fst] in H.
    destruct session; exact H.
  - destruct (Pool.atFullCapacity p); cbn [negb fst]; [exact Hp|].
    apply absent_create, Hp.
Qed.

Lemma absent_assignSessions (p : Pool.t) (actions : list Callback) :
  ~ Pool.attached p gupid ->
  ~ Pool.attached (fst (Pool.assignSessionsToGetWaiters p actions)) gupid.
Proof.
  intros Hp. unfold Pool.assignSessionsToGetWaiters.
  assert (H : forall l st, ~ Pool.attached (fst (fst st)) gupid ->
                ~ Pool.attached (fst (fst (fold_left Pool.assignSessions_step l st))) gupid).
  { induction l as [|x l IH]; intros st Hst; [exact Hst|].
    cbn [fold_left]. apply IH, absent_assignSessions_step, Hst. }
  specialize (H (Pool.getWaitlist p) (p, actions, []) Hp).
  destruct (fold_left _ _ _) as [[p' actions'] waitlist]. exact H.
Qed.

Lemma absent_spawnLoop (wants : PoolView -> Group.t -> bool)
    (positions : list (nat * nat)) (p : Pool.t) :
  ~ Pool.attached p gupid -> ~ Pool.attached (fst (Pool.spawnLoop wants positions p)) gupid.
Proof.
  revert p. induction positions as [|pos rest IH]; intros p Hp; cbn [Pool.spawnLoop];
    [exact Hp|].
  destruct (Pool.groupAt p pos) as [group|] eqn:Hg; [|apply IH, Hp].
  destruct (wants (Pool.view p) group); [|apply IH, Hp].
  assert (Hp' : ~ Pool.attached (Pool.setGroupAt p pos (Group_spawn (Pool.view p) group)) gupid).
  { apply absent_setGroupAt; [exact Hp|].
    apply spawn_attaches_nothing, (absent_group p pos group gupid Hp Hg). }
  destruct (Pool.atFullCapacity _); [exact Hp'|apply IH, Hp'].
Qed.

Lemma absent_possiblySpawn (p : Pool.t) :
  ~ Pool.attached p gupid ->
  ~ Pool.attached (Pool.possiblySpawnMoreProcessesForExistingGroups p) gupid.
Proof.
  intros Hp. unfold Pool.possiblySpawnMoreProcessesForExistingGroups.
  pose proof (absent_spawnLoop (fun _ g => Group_isWaitingForCapacity g)
                (Pool.groupPositions p) p Hp) as H1.
  destruct (Pool.spawnLoop _ (Pool.groupPositions p) p) as [p1 returned].
  cbn [fst] in H1. destruct returned; [exact H1|].
  apply absent_spawnLoop, H1.
Qed.

End Absent.

Lemma findProcessByGupid_None (p : Pool.t) (gupid : string) :
  ~ In gupid (map Process.gupid (Pool.getProcesses p)) ->
  Pool.findProcessByGupid p gupid = None.
Proof.
  intros H. unfold Pool.findProcessByGupid.
  destruct (List.find _ _) as [x|] eqn:E; [|reflexivity].
  apply find_some in E. destruct E as [Hin Heq]. apply String.eqb_eq in Heq.
  exfalso. apply H. apply in_map_iff. exists x. split; assumption.
Qed.

(** C8. The gupids of the attached Processes are unique, the Process
    with gupid g is alive and is attached to the Group it points back
    to, and SuperGroup::get() and Group::spawn() attach no Process with
    that gupid while the lock is held. Then the first detachProcess(g)
    returns true, the second returns false, and the second leaves the
    Pool, the lock and the record of the closures run as the first left
    them. *)
Theorem detachProcess_twice (C : Collaborators) (gupid : string) (w : Pool.World)
    (process : Process.t) (pos : nat * nat) (group : Group.t) :
  Pool.findProcessByGupid (Pool.pool w) gupid = Some process ->
  Process.isAlive process = true ->
  NoDup (map Process.gupid (Pool.getProcesses (Pool.pool w))) ->
  Pool.findGroup (Pool.pool w) (Process.group process) = Some pos ->
  Pool.groupAt (Pool.pool w) pos = Some group ->
  In process (Group.processes group) ->
  (forall v sg o cb,
     ~ In gupid (map Process.gupid (SuperGroup.processes sg)) ->
     ~ In gupid (map Process.gupid
                   (SuperGroup.processes (fst (SuperGroup_get v sg o cb))))) ->
  (forall v g,
     ~ In gupid (map Process.gupid (Group.processes g)) ->
     ~ In gupid (map Process.gupid (Group.processes (Group_spawn v g)))) ->
  let first := Pool.detachProcess gupid w in
  let second := Pool.detachProcess gupid (snd first) in
  fst first = true /\ fst second = false /\ snd second = snd first.
Proof.
  intros Hfind Halive Hnd Hpos Hgroup Hin Hget Hspawn. cbv zeta.
  assert (Hgupid : Process.gupid process = gupid).
  { unfold Pool.findProcessByGupid in Hfind. apply find_some in Hfind.
    apply String.eqb_eq, Hfind. }
  assert (Hdetached :
            ~ In gupid (map Process.gupid
                          (Pool.getProcesses
                             (fst (Pool.detachFromGroup (Pool.pool w) process []))))).
  { unfold Pool.detachFromGroup. rewrite Hpos, Hgroup. cbn [fst].
    intros H. apply in_map_iff in H. destruct H as (x & Hx & H).
    apply In_getProcesses in H. destruct H as (pos' & g & Hg & Hxg).
    apply groupAt_setGroupAt in Hg. destruct Hg as [[_ ->] | [Hne Hg]].
    - apply (detach_absent group process (gupids_group _ pos group Hnd Hgroup)).
      rewrite Hgupid. apply in_map_iff. exists x. split; assumption.
    - apply (gupids_disjoint _ pos pos' group g gupid Hnd Hgroup Hg Hne).
      + apply in_map_iff. exists process. split; assumption.
      + apply in_map_iff. exists x. split; assumption. }
  assert (Hfirst : exists p3 actions,
            ~ In gupid (map Process.gupid (Pool.getProcesses p3))
            /\ Pool.detachProcess gupid w
               = (true, Pool.runAllActions actions
                          (Pool.unlock (Pool.with_pool p3 (Pool.lock w))))).
  { unfold Pool.detachProcess. cbn [Pool.lock Pool.pool]. rewrite Hfind.
    unfold Pool.detachProcessUnlocked. rewrite Halive.
    destruct (Pool.detachFromGroup (Pool.pool w) process []) as [p1 actions1].
    cbn [fst] in Hdetached.
    pose proof (absent_assignSessions gupid Hget p1 actions1 Hdetached) as H2.
    destruct (Pool.assignSessionsToGetWaiters p1 actions1) as [p2 actions2].
    cbn [fst] in H2.
    pose proof (absent_possiblySpawn gupid Hspawn p2 H2) as H3.
    eexists _, _. split; [exact H3|reflexivity]. }
  destruct Hfirst as (p3 & actions & H3 & ->). cbn [fst snd].
  split; [reflexivity|].
  unfold Pool.detachProcess.
  cbn [Pool.lock Pool.pool Pool.runAllActions Pool.unlock Pool.with_pool].
  rewrite (findProcessByGupid_None _ gupid H3).
  split; reflexivity.
Qed.

(** The sample collaborators attach no Process. *)
Lemma queueing_get_processes (v : PoolView) (sg : SuperGroup.t) (o : Options.t)
    (cb : GetCallback) :
  SuperGroup.processes (fst (SuperGroup_get (Collaborators := queueingCollaborators) v sg o cb))
  = SuperGroup.processes sg.
Proof.
  cbn [SuperGroup_get queueingCollaborators].
  destruct (SuperGroup.state sg), (SuperGroup.groups sg) as [|g gs] eqn:E;
    cbn [fst]; unfold SuperGroup.processes; cbn [SuperGroup.groups SuperGroup.set_groups
      SuperGroup.set_getWaitlist]; rewrite ?E; reflexivity.
Qed.

Lemma queueing_spawn_processes (v : PoolView) (g : Group.t) :
  Group.processes (Group_spawn (Collaborators := queueingCollaborators) v g)
  = Group.processes g.
Proof.
  cbn [Group_spawn queueingCollaborators].
  destruct (_ || _); reflexivity.
Qed.

Lemma detachProcess_twice_witness :
  let p1 := sampleProcess "A" "p1" 1000 0 in
  let p2 := sampleProcess "A" "p2" 2000 1 in
  let w := sampleWorld
             (Pool.mk 6 60000000 ALIVE
                [("A", sampleSuperGroup "A" [sampleGroup "A" 0 [p1; p2]])] []) in
  let first := Pool.detachProcess (C := queueingCollaborators) "p1" w in
  let second := Pool.detachProcess (C := queueingCollaborators) "p1" (snd first) in
  Pool.findProcessByGupid (Pool.pool w) "p1" = Some p1
  /\ fst first = true /\ fst second = false /\ snd second = snd first.
Proof.
  cbv zeta.
  set (p1 := sampleProcess "A" "p1" 1000 0).
  set (p2 := sampleProcess "A" "p2" 2000 1).
  set (group := sampleGroup "A" 0 [p1; p2]).
  set (w := sampleWorld _).
  assert (Hnd : NoDup (map Process.gupid (Pool.getProcesses (Pool.pool w)))).
  { apply NoDup_ListNoDup. cbn. repeat constructor; cbn; intuition discriminate. }
  split; [reflexivity|].
  apply (detachProcess_twice queueingCollaborators "p1" w p1 (0%nat, 0%nat) group
           eq_refl eq_refl Hnd eq_refl eq_refl (or_introl eq_refl)).
  - intros v sg o cb H. rewrite queueing_get_processes. exact H.
  - intros v g H. rewrite queueing_spawn_processes. exact H.
Defined.

(** ** Process: further properties *)

Lemma sampleProcess_inRange (group gupid : string) (lastUsed sessions : Z) :
  0 <= sessions <= 1 -> Process.inRange (sampleProcess group gupid lastUsed sessions).
Proof. intros H. split; [cbn; lia|]. right. cbn. lia. Qed.

(** ProcessList::get() is list indexing: it returns the Process at the
    index and throws exactly when the index is out of bounds. *)
Theorem ProcessList_get_lookup (l : ProcessList.t) (index : nat) :
  ProcessList.get l index = l !! index
  /\ (ProcessList.get l index = None <-> (length l <= index)%nat).
Proof.
  assert (H : forall it i, (i <= index)%nat ->
                ProcessList.get_from it i index = it !! (index - i)%nat).
  { induction it as [|x it IH]; intros i Hi; cbn [ProcessList.get_from].
    - reflexivity.
    - destruct (Nat.eqb_spec i index) as [-> | Hne].
      + rewrite Nat.sub_diag. reflexivity.
      + rewrite IH by lia. replace (index - i)%nat with (S (index - S i)) by lia.
        reflexivity. }
  unfold ProcessList.get. rewrite H by lia. rewrite Nat.sub_0_r.
  split; [reflexivity|]. apply lookup_ge_None.
Qed.

(** The two ways of asking whether a Process is saturated agree: with a
    limited concurrency, atFullUtilization() holds exactly when
    utilization() is INT_MAX. *)
Theorem atFullUtilization_max (p : Process.t) :
  Process.inRange p -> 0 < Process.concurrency p ->
  (Process.atFullUtilization p = true <-> Process.utilization p = Some INT_MAX).
Proof.
  intros H Hc. rewrite (utilization_in_range p H).
  destruct H as [Hs [H0 | [_ Hle]]]; [lia|].
  unfold Process.atFullUtilization.
  replace (Process.concurrency p =? 0) with false by (symmetry; apply Z.eqb_neq; lia).
  cbn [negb andb]. rewrite Z.leb_le. split.
  - intros Hge. assert (Process.sessions p = Process.concurrency p) as -> by lia.
    rewrite Z.mul_comm, Z.div_mul by lia. reflexivity.
  - intros Hq. inversion Hq as [Hq'].
    destruct (Z_le_gt_dec (Process.concurrency p) (Process.sessions p)) as [|Hlt];
      [assumption|exfalso].
    assert (Process.sessions p * INT_MAX < INT_MAX * Process.concurrency p)
      by (unfold INT_MAX; nia).
    pose proof (Z.div_lt_upper_bound (Process.sessions p * INT_MAX)
                  (Process.concurrency p) INT_MAX ltac:(lia) ltac:(lia)).
    lia.
Qed.

Lemma atFullUtilization_max_witness :
  let p := sampleProcess "A" "p1" 1000 1 in
  Process.atFullUtilization p = true <-> Process.utilization p = Some INT_MAX.
Proof.
  cbv zeta. apply atFullUtilization_max.
  - apply sampleProcess_inRange. lia.
  - cbn. lia.
Defined.

(** The order utilization() induces, as its comment asks: a Process
    with more sessions is never ranked before one with fewer at the same
    concurrency, and a busy Process with unlimited concurrency is ranked
    before every busy Process with a limited one. *)
Theorem utilization_order (p q : Process.t) (u v : Z) :
  Process.inRange p -> Process.inRange q ->
  Process.utilization p = Some u -> Process.utilization q = Some v ->
  (Process.concurrency p = Process.concurrency q ->
   Process.sessions p <= Process.sessions q -> u <= v)
  /\ (Process.concurrency p = 0 -> 0 < Process.concurrency q ->
      0 < Process.sessions q -> u < v).
Proof.
  intros Hp Hq Hu Hv.
  rewrite (utilization_in_range p Hp) in Hu. rewrite (utilization_in_range q Hq) in Hv.
  inversion Hu as [Hu']. inversion Hv as [Hv']. clear Hu Hv.
  destruct Hp as [Hps Hp], Hq as [Hqs Hq]. split.
  - intros Hc Hs. rewrite <- Hc.
    destruct (Z.eqb_spec (Process.concurrency p) 0) as [H0 | H0].
    + destruct (Z.eqb_spec (Process.sessions p) 0), (Z.eqb_spec (Process.sessions q) 0);
        lia.
    + apply Z.div_le_mono; [lia|]. unfold INT_MAX. nia.
  - intros Hc0 Hcq Hsq. rewrite Hc0. change (0 =? 0) with true. cbv iota.
    replace (Process.concurrency q =? 0) with false by (symmetry; apply Z.eqb_neq; lia).
    destruct Hq as [Hq | [Hq Hle]]; [lia|].
    assert (2 <= Process.sessions q * INT_MAX / Process.concurrency q).
    { apply Z.div_le_lower_bound; [lia|]. unfold INT_MAX.
      change (2 ^ 22) with 4194304 in Hq. nia. }
    destruct (Process.sessions p =? 0); lia.
Qed.

Lemma utilization_order_witness :
  let p := Process.mk "A" [] 1 "p" "" [] 0 0 0 false true 0 0 3 0 ALIVE ENABLED false true in
  let q := sampleProcess "A" "q" 0 1 in
  exists u v, Process.utilization p = Some u /\ Process.utilization q = Some v /\ u < v.
Proof.
  cbv zeta.
  set (p := Process.mk "A" [] 1 "p" "" [] 0 0 0 false true 0 0 3 0 ALIVE ENABLED false true).
  set (q := sampleProcess "A" "q" 0 1).
  assert (Hp : Process.inRange p) by (split; [cbn; lia|]; left; reflexivity).
  assert (Hq : Process.inRange q) by (apply sampleProcess_inRange; lia).
  eexists _, _. split; [exact (utilization_in_range p Hp)|].
  split; [exact (utilization_in_range q Hq)|].
  apply (utilization_order p q _ _ Hp Hq (utilization_in_range p Hp)
           (utilization_in_range q Hq)); cbn; lia.
Defined.




Lemma shutdown_unfold (p : Process.t) :
  Process.shutdown p
  = if Process.isShutDown p || negb (Process.requiresShutdown p) then Some p
    else if Process.sessions p =? 0 then Some (Process.set_lifeStatus SHUT_DOWN p)
    else None.
Proof.
  unfold Process.shutdown, Process.setShuttingDown.
  destruct (Process.isShutDown p || negb (Process.requiresShutdown p)); [reflexivity|].
  destruct (Process.sessions p =? 0); [|reflexivity].
  destruct (Process.isAlive p); reflexivity.
Qed.

(** shutdown() can be called again: it fails only on a Process that
    must be shut down, is not yet, and still has sessions (the
    assertion); when it succeeds, a Process that requires it is
    SHUT_DOWN and a second call changes nothing. *)
Theorem shutdown_idempotent (p : Process.t) :
  (Process.shutdown p = None
   <-> Process.isShutDown p = false /\ Process.requiresShutdown p = true
       /\ Process.sessions p <> 0)
  /\ forall p', Process.shutdown p = Some p' ->
       Process.shutdown p' = Some p'
       /\ (Process.requiresShutdown p = true -> Process.lifeStatus p' = SHUT_DOWN)
       /\ Process.sessions p' = Process.sessions p.
Proof.
  rewrite shutdown_unfold. split.
  - destruct (Process.isShutDown p), (Process.requiresShutdown p),
      (Z.eqb_spec (Process.sessions p) 0); cbn [orb negb];
      split; try discriminate; try tauto; intros (H1 & H2 & H3); congruence.
  - intros p' H. rewrite shutdown_unfold.
    destruct (Process.isShutDown p || negb (Process.requiresShutdown p)) eqn:E.
    + inversion H; subst p'. rewrite E. split; [reflexivity|]. split; [|reflexivity].
      intros Hr. rewrite Hr in E. cbn [negb] in E. rewrite orb_false_r in E.
      unfold Process.isShutDown in E. apply bool_decide_eq_true in E. exact E.
    + destruct (Process.sessions p =? 0); [|discriminate].
      inversion H; subst p'. split; [reflexivity|]. split; reflexivity.
Qed.

Lemma with_sessions_back (socket : Socket.t) (n : Z) :
  Socket.with_sessions (Socket.sessions socket) (Socket.with_sessions n socket) = socket.
Proof. destruct socket. reflexivity. Qed.

(** A session that is opened and closed again leaves the counters as
    they were: on a Process that is not saturated and whose counters
    are not negative, sessionClosed() accepts the session newSession()
    has just handed out, and the session counts of the Process and of
    every socket are back at their values, while processed and lastUsed
    keep the trace of the session. *)
Theorem newSession_sessionClosed (now : Z) (p p' : Process.t) (s : Session) :
  Process.newSession now p = Some (Some s, p') ->
  Process.atFullUtilization p = false ->
  0 <= Process.sessions p ->
  Forall (fun socket => 0 <= Socket.sessions socket) (Process.sockets p) ->
  exists p'',
    Process.sessionClosed s p' = Some p''
    /\ Process.sessions p'' = Process.sessions p
    /\ Process.sockets p'' = Process.sockets p
    /\ Process.processed p'' = wrap32 (Process.processed p + 1)
    /\ Process.lastUsed p'' = now.
Proof.
  unfold Process.newSession. intros Hnew Hfull Hs Hsockets.
  destruct (PriorityQueue.pop (Process.sessionSockets p)) as [[i q]|]; [|discriminate].
  destruct (Process.sockets p !! i) as [socket|] eqn:Hi; [|discriminate].
  destruct (Socket.atFullCapacity socket); [discriminate|].
  destruct ((Socket.sessions socket <? INT_MAX) && (Process.sessions p <? INT_MAX));
    [|discriminate].
  inversion Hnew; subst s p'. clear Hnew.
  assert (Hsock : 0 <= Socket.sessions socket).
  { rewrite Forall_forall in Hsockets. apply Hsockets.
    apply list_elem_of_lookup. exists i. exact Hi. }
  unfold Process.sessionClosed. cbn [session_socket].
  cbn [Process.sockets Process.set_lastUsed Process.set_sessionSockets
       Process.set_processed Process.set_sessions Process.set_sockets Process.sessions].
  rewrite list_lookup_insert_eq by (eapply lookup_lt_Some; exact Hi).
  cbn [Socket.sessions Socket.with_sessions].
  replace ((0 <? Socket.sessions socket + 1) && (0 <? Process.sessions p + 1)) with true
    by (symmetry; apply andb_true_intro; split; apply Z.ltb_lt; lia).
  replace (Socket.sessions socket + 1 - 1) with (Socket.sessions socket) by lia.
  replace (Process.sessions p + 1 - 1) with (Process.sessions p) by lia.
  rewrite list_insert_insert_eq.
  change (Socket.with_sessions (Socket.sessions socket)
            {| Socket.name := Socket.name socket; Socket.address := Socket.address socket;
               Socket.protocol := Socket.protocol socket;
               Socket.concurrency := Socket.concurrency socket;
               Socket.sessions := Socket.sessions socket + 1 |})
    with (Socket.with_sessions (Socket.sessions socket)
            (Socket.with_sessions (Socket.sessions socket + 1) socket)).
  rewrite with_sessions_back, (list_insert_id _ _ _ Hi).
  match goal with
  | |- context [if Process.atFullUtilization ?x then _ else _] =>
      change (Process.atFullUtilization x) with (Process.atFullUtilization p)
  end.
  rewrite Hfull. eexists. split; [reflexivity|]. repeat split.
Qed.

Lemma newSession_sessionClosed_witness :
  let s0 := Socket.mk "main" "unix:/tmp/a" "session" 2 1 in
  let p := Process.mk "grp" [(Socket.utilization s0, 0%nat)]
             7 "g" "pw" [s0] 0 0 2 false true 0 0 1 5 ALIVE ENABLED false true in
  exists s p' p'',
    Process.newSession 99 p = Some (Some s, p')
    /\ Process.sessionClosed s p' = Some p''
    /\ Process.sessions p'' = 1 /\ Process.sockets p'' = [s0].
Proof.
  cbv zeta.
  set (s0 := Socket.mk "main" "unix:/tmp/a" "session" 2 1).
  set (p := Process.mk "grp" _ 7 "g" "pw" [s0] 0 0 2 false true 0 0 1 5 ALIVE ENABLED
              false true).
  assert (Hnew : exists s p', Process.newSession 99 p = Some (Some s, p'))
    by (eexists _, _; reflexivity).
  destruct Hnew as (s & p' & Hnew).
  assert (HF : Forall (fun socket => 0 <= Socket.sessions socket) (Process.sockets p))
    by (repeat constructor; cbn; lia).
  destruct (newSession_sessionClosed 99 p p' s Hnew eq_refl ltac:(cbn; lia) HF)
    as (p'' & Hc & H1 & H2 & _).
  exists s, p', p''. repeat split; assumption.
Defined.

(** ** Pool: further properties *)

(** findBestProcessToTrash() finds nothing only in a Pool without
    enabled Processes; otherwise it returns an enabled Process of least
    lastUsed, busy or not, which is never younger than the Process
    findOldestIdleProcess() returns. *)
Theorem findBestProcessToTrash_oldest (p : Pool.t) :
  (Pool.findBestProcessToTrash p = None <-> Pool.enabledProcessesOf p = [])
  /\ forall r, Pool.findBestProcessToTrash p = Some r ->
       In r (Pool.enabledProcessesOf p)
       /\ (forall y, In y (Pool.enabledProcessesOf p) ->
             Process.lastUsed r <= Process.lastUsed y)
       /\ (forall i, Pool.findOldestIdleProcess p = Some i ->
             Process.lastUsed r <= Process.lastUsed i).
Proof.
  pose proof (findBestProcessToTrash_spec p) as H.
  pose proof (findOldestIdleProcess_spec p) as Hi.
  destruct (Pool.findBestProcessToTrash p) as [r|].
  - destruct H as [Hin Hmin]. split.
    + split; [discriminate|]. intros E. rewrite E in Hin. destruct Hin.
    + intros r' Hr. inversion Hr; subst r'. split; [exact Hin|]. split; [exact Hmin|].
      intros i Ei. rewrite Ei in Hi. apply Hmin, Hi.
  - split; [split; [intros _; exact H|reflexivity]|discriminate].
Qed.

(** updateProcessMetrics() schedules a Process for detaching only if ps
    did not report it, it is not a dummy and the OS process is gone,
    and then the Process remembers that it is gone; it does schedule
    every such Process for which kill() fails with ESRCH or which is
    already known to be gone. The list keeps its Processes. *)
Theorem updateProcessMetrics_detaches (known : Z -> bool) (kill : Z -> KillResult)
    (processes : list Process.t) :
  let result := Pool.updateProcessMetrics known kill processes in
  map Process.gupid (fst result) = map Process.gupid processes
  /\ (forall x, In x (snd result) ->
        In x (fst result) /\ known (Process.pid x) = false
        /\ Process.dummy x = false /\ Process.m_osProcessExists x = false)
  /\ (forall y, In y processes ->
        known (Process.pid y) = false -> Process.dummy y = false ->
        Process.m_osProcessExists y = false
        \/ (kill_ret (kill (Process.pid y)) <> 0
            /\ kill_errno (kill (Process.pid y)) = ESRCH) ->
        In (Process.set_osProcessExists false y) (snd result)).
Proof.
  cbv zeta. induction processes as [|x l IH]; cbn [Pool.updateProcessMetrics].
  - split; [reflexivity|]. split; intros ? [].
  - destruct (Pool.updateProcessMetrics known kill l) as [l' toDetach].
    cbn [fst snd] in IH. destruct IH as (Hg & Hd & Hc).
    destruct (known (Process.pid x)) eqn:Ek.
    + cbn [fst snd map]. split; [f_equal; exact Hg|]. split.
      * intros z Hz. destruct (Hd z Hz) as (H1 & H2). split; [right; exact H1|exact H2].
      * intros y [<- | Hy] Hk; [congruence|]. apply Hc; assumption.
    + destruct (Process.dummy x) eqn:Ed; cbn [negb].
      * cbn [fst snd map]. split; [f_equal; exact Hg|]. split.
        -- intros z Hz. destruct (Hd z Hz) as (H1 & H2).
           split; [right; exact H1|exact H2].
        -- intros y [<- | Hy] Hk Hdum; [congruence|]. apply Hc; assumption.
      * unfold Process.osProcessExists. rewrite Ed. cbn [negb andb].
        destruct (Process.m_osProcessExists x) eqn:Em.
        -- destruct ((kill_ret (kill (Process.pid x)) =? 0)
                     || negb (kill_errno (kill (Process.pid x)) =? ESRCH)) eqn:Eb;
             cbn [negb fst snd map Process.gupid Process.set_osProcessExists].
           ++ split; [f_equal; exact Hg|]. split.
              ** intros z Hz. destruct (Hd z Hz) as (H1 & H2).
                 split; [right; exact H1|exact H2].
              ** intros y [<- | Hy] Hk Hdum Hgone; [|apply Hc; assumption].
                 exfalso. destruct Hgone as [Hgone | [Hr He]]; [congruence|].
                 apply orb_true_iff in Eb. destruct Eb as [Eb | Eb].
                 --- apply Z.eqb_eq in Eb. contradiction.
                 --- rewrite He in Eb. discriminate.
           ++ split; [f_equal; exact Hg|]. split.
              ** intros z [<- | Hz].
                 --- split; [left; reflexivity|]. cbn. auto.
                 --- destruct (Hd z Hz) as (H1 & H2). split; [right; exact H1|exact H2].
              ** intros y [<- | Hy] Hk Hdum Hgone; [left; reflexivity|].
                 right. apply Hc; assumption.
        -- cbn [negb fst snd map]. split; [f_equal; exact Hg|]. split.
           ++ intros z [<- | Hz].
              ** split; [left; reflexivity|]. auto.
              ** destruct (Hd z Hz) as (H1 & H2). split; [right; exact H1|exact H2].
           ++ intros y [<- | Hy] Hk Hdum Hgone.
              ** left. clear - Em. destruct x. cbn in Em. subst. reflexivity.
              ** right. apply Hc; assumption.
Qed.

(** Lowering the limit needs no other work: setMax() with a value that
    is not bigger stores it, runs nothing and leaves the wait list and
    the groups alone, and the invariant "wait list not empty implies
    full" survives. *)
Theorem setMax_lower (C : Collaborators) (max' : Z) (w : Pool.World) :
  0 < max' -> max' <= Pool.max (Pool.pool w) ->
  Pool.verifyInvariants (Pool.pool w) = true ->
  Pool.setMax max' w
  = Pool.mkWorld (Pool.set_max max' (Pool.pool w)) false (Pool.trace w) (Pool.aborted w)
  /\ Pool.verifyInvariants (Pool.pool (Pool.setMax max' w)) = true.
Proof.
  intros Hpos Hle Hinv. unfold Pool.setMax. cbn [Pool.lock Pool.pool].
  replace (Pool.max (Pool.pool w) <? max') with false by (symmetry; apply Z.ltb_ge; lia).
  split; [reflexivity|].
  cbn [Pool.unlock Pool.with_pool Pool.pool].
  apply verifyInvariants_spec. intros Hw.
  pose proof (proj1 (verifyInvariants_spec (Pool.pool w)) Hinv Hw) as Hf.
  unfold Pool.atFullCapacity in *. apply Z.leb_le in Hf. apply Z.leb_le.
  change (Pool.utilization (Pool.set_max max' (Pool.pool w)))
    with (Pool.utilization (Pool.pool w)).
  cbn [Pool.set_max Pool.max]. lia.
Qed.

Lemma setMax_lower_witness :
  let p := Pool.mk 2 60000000 ALIVE
             [("A", sampleSuperGroup "A"
                      [sampleGroup "A" 0 [sampleProcess "A" "p1" 0 1;
                                          sampleProcess "A" "p2" 0 1]])]
             [mkGetWaiter (sampleOptions "B" 0 false) 7%nat] in
  Pool.verifyInvariants p = true
  /\ Pool.verifyInvariants
       (Pool.pool (Pool.setMax (C := queueingCollaborators) 1 (sampleWorld p))) = true.
Proof.
  cbv zeta. split; [reflexivity|].
  apply (setMax_lower queueingCollaborators 1); [lia | cbn; lia | reflexivity].
Defined.

Lemma StringMap_get_set {V} (m : list (string * V)) (k : string) (v : V) :
  StringMap.get (StringMap.set m k v) k = Some v.
Proof.
  induction m as [|[k' v'] m IH]; cbn [StringMap.set StringMap.get].
  - rewrite String.eqb_refl. reflexivity.
  - destruct (String.eqb k' k) eqn:E; cbn [StringMap.get].
    + rewrite String.eqb_refl. reflexivity.
    + rewrite E. exact IH.
Qed.

Lemma StringMap_get_set_ne {V} (m : list (string * V)) (k k' : string) (v : V) :
  k <> k' -> StringMap.get (StringMap.set m k v) k' = StringMap.get m k'.
Proof.
  intros Hne. induction m as [|[k0 v0] m IH]; cbn [StringMap.set StringMap.get].
  - destruct (String.eqb_spec k k'); [contradiction|reflexivity].
  - destruct (String.eqb_spec k0 k) as [-> | E]; cbn [StringMap.get].
    + destruct (String.eqb_spec k k'); [contradiction|reflexivity].
    + destruct (String.eqb k0 k'); [reflexivity|exact IH].
Qed.

(** asyncGet() for an application the Pool does not know, while there
    is room: no closure is run and nobody is put on the wait list of the
    Pool; a new SuperGroup is stored under the name of the app group,
    it is the initializing SuperGroup as its get() has left it, and the
    SuperGroups of the other applications are the ones they were. *)
Theorem asyncGet_creates_superGroup (C : Collaborators) (o : Options.t)
    (cb : GetCallback) (lockNow : bool) (w : Pool.World) :
  Pool.findMatchingSuperGroup (Pool.pool w) o = None ->
  Pool.atFullCapacity (Pool.pool w) = false ->
  let w' := Pool.asyncGet o cb lockNow w in
  Pool.trace w' = Pool.trace w
  /\ Pool.getWaitlist (Pool.pool w') = Pool.getWaitlist (Pool.pool w)
  /\ (exists v,
        Pool.findMatchingSuperGroup (Pool.pool w') o
        = Some (fst (SuperGroup_get v (SuperGroup.create o) o cb)))
  /\ forall name, name <> Options.getAppGroupName o ->
       StringMap.get (Pool.superGroups (Pool.pool w')) name
       = StringMap.get (Pool.superGroups (Pool.pool w)) name.
Proof.
  intros Hnone Hfull. cbv zeta. unfold Pool.asyncGet.
  assert (Hp : Pool.pool (if lockNow then Pool.lock w else w) = Pool.pool w)
    by (destruct lockNow; reflexivity).
  rewrite Hp, Hnone, Hfull. cbn [negb].
  assert (Hw : forall p' : Pool.t,
            Pool.pool (if lockNow
                       then Pool.unlock (Pool.with_pool p' (if lockNow then Pool.lock w else w))
                       else Pool.with_pool p' (if lockNow then Pool.lock w else w)) = p'
            /\ Pool.trace (if lockNow
                           then Pool.unlock (Pool.with_pool p' (if lockNow then Pool.lock w else w))
                           else Pool.with_pool p' (if lockNow then Pool.lock w else w))
               = Pool.trace w)
    by (intros p'; destruct lockNow; split; reflexivity).
  destruct (Hw (Pool.createSuperGroupAndAsyncGetFromIt (Pool.pool w) o cb)) as [-> ->].
  split; [reflexivity|].
  split; [apply getWaitlist_createSuperGroupAndAsyncGetFromIt|].
  unfold Pool.createSuperGroupAndAsyncGetFromIt, Pool.createSuperGroup, Pool.getFrom,
    Pool.findMatchingSuperGroup.
  destruct (SuperGroup_get _ (SuperGroup.create o) o cb) as [sg' session] eqn:E.
  cbn [fst Pool.superGroups Pool.set_superGroups]. split.
  - eexists. rewrite E. cbn [fst]. apply StringMap_get_set.
  - intros name Hne. rewrite !StringMap_get_set_ne by congruence. reflexivity.
Qed.

Lemma asyncGet_creates_superGroup_witness :
  let o := sampleOptions "B" 0 false in
  let w := sampleWorld (Pool.mk 6 60000000 ALIVE [] []) in
  exists sg,
    Pool.findMatchingSuperGroup
      (Pool.pool (Pool.asyncGet (C := queueingCollaborators) o 7%nat true w)) o = Some sg
    /\ SuperGroup.getWaitlist sg = [mkGetWaiter o 7%nat].
Proof.
  cbv zeta.
  destruct (asyncGet_creates_superGroup queueingCollaborators (sampleOptions "B" 0 false)
              7%nat true (sampleWorld (Pool.mk 6 60000000 ALIVE [] [])) eq_refl eq_refl)
    as (_ & _ & [v Hv] & _).
  eexists. split; [exact Hv|reflexivity].
Defined.

(** asyncGet() on a full Pool that can free nothing: the request goes
    to the end of the wait list, nothing else changes, no closure is
    run, and both assertions of the Pool still hold. *)
Theorem asyncGet_waits (C : Collaborators) (o : Options.t) (cb : GetCallback)
    (lockNow : bool) (w : Pool.World) :
  Pool.findMatchingSuperGroup (Pool.pool w) o = None ->
  Pool.atFullCapacity (Pool.pool w) = true ->
  Pool.processToFree (Pool.pool w) o = None ->
  Pool.verifyExpensiveInvariants (Pool.pool w) = true ->
  let w' := Pool.asyncGet o cb lockNow w in
  Pool.pool w'
  = Pool.set_getWaitlist (Pool.getWaitlist (Pool.pool w) ++ [mkGetWaiter o cb])
      (Pool.pool w)
  /\ Pool.trace w' = Pool.trace w
  /\ Pool.aborted w' = Pool.aborted w
  /\ Pool.verifyInvariants (Pool.pool w') = true
  /\ Pool.verifyExpensiveInvariants (Pool.pool w') = true.
Proof.
  intros Hnone Hfull Hfree Hexp. cbv zeta.
  pose proof (asyncGet_full o cb lockNow w Hnone Hfull) as Hpool.
  rewrite Hfree in Hpool. rewrite Hpool.
  split; [reflexivity|]. split; [|split; [|split]].
  - unfold Pool.asyncGet.
    assert (Hp : Pool.pool (if lockNow then Pool.lock w else w) = Pool.pool w)
      by (destruct lockNow; reflexivity).
    rewrite Hp, Hnone, Hfull, Hfree. destruct lockNow; reflexivity.
  - unfold Pool.asyncGet.
    assert (Hp : Pool.pool (if lockNow then Pool.lock w else w) = Pool.pool w)
      by (destruct lockNow; reflexivity).
    rewrite Hp, Hnone, Hfull, Hfree. destruct lockNow; reflexivity.
  - apply verifyInvariants_spec. intros _. exact Hfull.
  - unfold Pool.verifyExpensiveInvariants in *.
    cbn [Pool.getWaitlist Pool.set_getWaitlist Pool.superGroups].
    rewrite forallb_app, Hexp. cbn [forallb waiter_options andb].
    unfold Pool.findMatchingSuperGroup in Hnone. rewrite Hnone. reflexivity.
Qed.

Lemma asyncGet_waits_witness :
  let p := Pool.mk 1 60000000 ALIVE
             [("A", sampleSuperGroup "A" [sampleGroup "A" 0 [sampleProcess "A" "p1" 0 1]])]
             [] in
  let o := sampleOptions "B" 0 false in
  Pool.getWaitlist
    (Pool.pool (Pool.asyncGet (C := queueingCollaborators) o 7%nat true (sampleWorld p)))
  = [mkGetWaiter o 7%nat].
Proof.
  cbv zeta.
  destruct (asyncGet_waits queueingCollaborators (sampleOptions "B" 0 false) 7%nat true
              (sampleWorld
                 (Pool.mk 1 60000000 ALIVE
                    [("A", sampleSuperGroup "A"
                             [sampleGroup "A" 0 [sampleProcess "A" "p1" 0 1]])] []))
              eq_refl eq_refl eq_refl eq_refl) as [H _].
  rewrite H. reflexivity.
Defined.

(** realGarbageCollect() returns a time to sleep that is not zero
    unless maxIdleTime is, releases the lock before it runs any
    closure, and leaves max, maxIdleTime and the wait list of the Pool
    alone. *)
Theorem realGarbageCollect_sleeps (C : Collaborators) (now : Z) (w : Pool.World) :
  0 < Pool.maxIdleTime (Pool.pool w) ->
  let result := Pool.realGarbageCollect now w in
  0 < fst result
  /\ Pool.locked (snd result) = false
  /\ Pool.max (Pool.pool (snd result)) = Pool.max (Pool.pool w)
  /\ Pool.maxIdleTime (Pool.pool (snd result)) = Pool.maxIdleTime (Pool.pool w)
  /\ Pool.getWaitlist (Pool.pool (snd result)) = Pool.getWaitlist (Pool.pool w)
  /\ exists events,
       Pool.trace (snd result) = Pool.trace w ++ events
       /\ forall e, In e events -> Pool.ev_lockHeld e = false.
Proof.
  intros Hidle. cbv zeta. unfold Pool.realGarbageCollect, Pool.garbageCollectLocked.
  cbn [Pool.lock Pool.pool].
  destruct (fold_left _ _ _) as [[m actions] next].
  cbn [fst snd Pool.runAllActions Pool.unlock Pool.with_pool Pool.pool Pool.locked
       Pool.trace Pool.set_superGroups Pool.max Pool.maxIdleTime Pool.getWaitlist].
  split.
  - unfold Pool.gcSleepTime. cbn [Pool.maxIdleTime].
    destruct (Z.eqb_spec next 0); cbn [orb]; [exact Hidle|].
    destruct (Z.leb_spec next now); [exact Hidle|lia].
  - repeat split. eexists. split; [reflexivity|].
    intros e He. apply in_map_iff in He. destruct He as (a & <- & _). reflexivity.
Qed.

Lemma realGarbageCollect_sleeps_witness :
  let idle := sampleProcess "A" "p1" 1000 0 in
  let w := sampleWorld
             (Pool.mk 6 500 ALIVE [("A", sampleSuperGroup "A" [sampleGroup "A" 1 [idle]])]
                []) in
  0 < Pool.maxIdleTime (Pool.pool w)
  /\ 0 < fst (Pool.realGarbageCollect (C := queueingCollaborators) 1200 w)
  /\ Pool.locked (snd (Pool.realGarbageCollect (C := queueingCollaborators) 1200 w)) = false.
Proof.
  cbv zeta.
  assert (H : 0 < 500) by lia. split; [exact H|].
  destruct (realGarbageCollect_sleeps queueingCollaborators 1200
              (sampleWorld
                 (Pool.mk 6 500 ALIVE
                    [("A", sampleSuperGroup "A"
                             [sampleGroup "A" 1 [sampleProcess "A" "p1" 1000 0]])] []))
              H) as (H1 & H2 & _).
  split; [exact H1|exact H2].
Defined.

Lemma assignSessions_step_acc {C : Collaborators}
    (st : Pool.t * list Callback * list GetWaiter) (waiter : GetWaiter) :
  Pool.max (fst (fst (Pool.assignSessions_step st waiter))) = Pool.max (fst (fst st))
  /\ (exists kept,
        snd (Pool.assignSessions_step st waiter) = snd st ++ kept
        /\ sublist kept [waiter])
  /\ exists new,
       snd (fst (Pool.assignSessions_step st waiter)) = snd (fst st) ++ new
       /\ forall a, In a new ->
            exists s, a = CallGetCallback (waiter_callback waiter) (Some s) None.
Proof.
  destruct st as [[p actions] waitlist]. cbn [fst snd]. unfold Pool.assignSessions_step.
  destruct (Pool.findMatchingSuperGroup p (waiter_options waiter)) as [sg|].
  - unfold Pool.getFrom. destruct (SuperGroup_get _ _ _ _) as [sg' [s|]]; cbn [fst snd].
    + split; [reflexivity|]. split.
      * exists []. rewrite app_nil_r. split; [reflexivity|apply sublist_nil_l].
      * eexists. split; [reflexivity|]. intros a [<- | []]. eexists. reflexivity.
    + split; [reflexivity|]. split.
      * exists []. rewrite app_nil_r. split; [reflexivity|apply sublist_nil_l].
      * exists []. rewrite app_nil_r. split; [reflexivity|intros a []].
  - destruct (Pool.atFullCapacity p); cbn [negb fst snd].
    + split; [reflexivity|]. split.
      * exists [waiter]. split; reflexivity.
      * exists []. rewrite app_nil_r. split; [reflexivity|intros a []].
    + split.
      * unfold Pool.createSuperGroupAndAsyncGetFromIt, Pool.createSuperGroup, Pool.getFrom.
        destruct (SuperGroup_get _ _ _ _). reflexivity.
      * split.
        -- exists []. rewrite app_nil_r. split; [reflexivity|apply sublist_nil_l].
        -- exists []. rewrite app_nil_r. split; [reflexivity|intros a []].
Qed.

(** assignSessionsToGetWaiters() invents no waiter and keeps the order:
    the new wait list is a sub-list of the old one. The closures that
    were collected before are still there, in front; every closure that
    is added hands a session, and no exception, to the callback of a
    waiter of the old list. The limit of the Pool is not changed. *)
Theorem assignSessionsToGetWaiters_sublist (C : Collaborators) (p : Pool.t)
    (actions : list Callback) :
  let result := Pool.assignSessionsToGetWaiters p actions in
  sublist (Pool.getWaitlist (fst result)) (Pool.getWaitlist p)
  /\ Pool.max (fst result) = Pool.max p
  /\ exists new,
       snd result = actions ++ new
       /\ forall a, In a new ->
            exists waiter s,
              In waiter (Pool.getWaitlist p)
              /\ a = CallGetCallback (waiter_callback waiter) (Some s) None.
Proof.
  cbv zeta. unfold Pool.assignSessionsToGetWaiters.
  assert (H : forall l st,
            Pool.max (fst (fst (fold_left Pool.assignSessions_step l st)))
            = Pool.max (fst (fst st))
            /\ (exists kept,
                  snd (fold_left Pool.assignSessions_step l st) = snd st ++ kept
                  /\ sublist kept l)
            /\ exists new,
                 snd (fst (fold_left Pool.assignSessions_step l st)) = snd (fst st) ++ new
                 /\ forall a, In a new ->
                      exists waiter s,
                        In waiter l
                        /\ a = CallGetCallback (waiter_callback waiter) (Some s) None).
  { induction l as [|x l IH]; intros st; cbn [fold_left].
    - split; [reflexivity|]. split.
      + exists []. rewrite app_nil_r. split; [reflexivity|constructor].
      + exists []. rewrite app_nil_r. split; [reflexivity|intros a []].
    - destruct (assignSessions_step_acc st x) as (Hm & (k1 & Hk1 & Hs1) & (n1 & Hn1 & Ha1)).
      destruct (IH (Pool.assignSessions_step st x))
        as (Hm' & (k2 & Hk2 & Hs2) & (n2 & Hn2 & Ha2)).
      split; [congruence|]. split.
      + exists (k1 ++ k2). rewrite Hk2, Hk1, <- app_assoc. split; [reflexivity|].
        change (x :: l) with ([x] ++ l). apply sublist_app; assumption.
      + exists (n1 ++ n2). rewrite Hn2, Hn1, <- app_assoc. split; [reflexivity|].
        intros a Ha. apply in_app_iff in Ha. destruct Ha as [Ha | Ha].
        * destruct (Ha1 a Ha) as (s & ->). exists x, s. split; [left; reflexivity|reflexivity].
        * destruct (Ha2 a Ha) as (y & s & Hy & ->). exists y, s.
          split; [right; exact Hy|reflexivity]. }
  specialize (H (Pool.getWaitlist p) (p, actions, [])).
  destruct (fold_left _ _ _) as [[p' actions'] waitlist]. cbn [fst snd app] in *.
  destruct H as (Hm & (kept & -> & Hs) & Hnew).
  split; [exact Hs|]. split; [exact Hm|exact Hnew].
Qed.

(** possiblySpawnMoreProcessesForExistingGroups() touches the Groups
    only. *)
Lemma set_superGroups_same (p : Pool.t) : Pool.set_superGroups (Pool.superGroups p) p = p.
Proof. destruct p. reflexivity. Qed.

Lemma setGroupAt_frame (p : Pool.t) (pos : nat * nat) (g : Group.t) :
  Pool.setGroupAt p pos g
  = Pool.set_superGroups (Pool.superGroups (Pool.setGroupAt p pos g)) p.
Proof.
  unfold Pool.setGroupAt. destruct (Pool.superGroups p !! fst pos); [reflexivity|].
  symmetry. apply set_superGroups_same.
Qed.

Lemma spawnLoop_frame {C : Collaborators} (wants : PoolView -> Group.t -> bool)
    (positions : list (nat * nat)) (p : Pool.t) :
  exists m, fst (Pool.spawnLoop wants positions p) = Pool.set_superGroups m p.
Proof.
  revert p. induction positions as [|pos rest IH]; intros p; cbn [Pool.spawnLoop].
  - exists (Pool.superGroups p). symmetry. apply set_superGroups_same.
  - destruct (Pool.groupAt p pos) as [group|]; [|apply IH].
    destruct (wants (Pool.view p) group); [|apply IH].
    destruct (Pool.atFullCapacity _).
    + eexists. cbn [fst]. apply setGroupAt_frame.
    + destruct (IH (Pool.setGroupAt p pos (Group_spawn (Pool.view p) group))) as [m Hm].
      exists m. rewrite Hm, setGroupAt_frame. reflexivity.
Qed.

Lemma possiblySpawn_frame {C : Collaborators} (p : Pool.t) :
  exists m,
    Pool.possiblySpawnMoreProcessesForExistingGroups p = Pool.set_superGroups m p.
Proof.
  unfold Pool.possiblySpawnMoreProcessesForExistingGroups.
  destruct (spawnLoop_frame (fun _ g => Group_isWaitingForCapacity g)
              (Pool.groupPositions p) p) as [m1 H1].
  destruct (Pool.spawnLoop _ (Pool.groupPositions p) p) as [p1 returned].
  cbn [fst] in H1. destruct returned; [exists m1; exact H1|].
  destruct (spawnLoop_frame Group_shouldSpawn (Pool.groupPositions p1) p1) as [m2 H2].
  exists m2. rewrite H2, H1. reflexivity.
Qed.

Lemma names_setGroupAt (p : Pool.t) (pos : nat * nat) (g : Group.t) :
  map (fun e => SuperGroup.name (snd e)) (Pool.superGroups (Pool.setGroupAt p pos g))
  = map (fun e => SuperGroup.name (snd e)) (Pool.superGroups p).
Proof.
  unfold Pool.setGroupAt.
  destruct (Pool.superGroups p !! fst pos) as [e|] eqn:E; [|reflexivity].
  cbn [Pool.superGroups Pool.set_superGroups].
  rewrite list_fmap_insert. cbn [snd SuperGroup.name SuperGroup.set_groups].
  apply list_insert_id. rewrite list_lookup_fmap, E. reflexivity.
Qed.

Lemma names_spawnLoop {C : Collaborators} (wants : PoolView -> Group.t -> bool)
    (positions : list (nat * nat)) (p : Pool.t) :
  map (fun e => SuperGroup.name (snd e))
    (Pool.superGroups (fst (Pool.spawnLoop wants positions p)))
  = map (fun e => SuperGroup.name (snd e)) (Pool.superGroups p).
Proof.
  revert p. induction positions as [|pos rest IH]; intros p; cbn [Pool.spawnLoop];
    [reflexivity|].
  destruct (Pool.groupAt p pos) as [group|]; [|apply IH].
  destruct (wants (Pool.view p) group); [|apply IH].
  destruct (Pool.atFullCapacity _).
  - cbn [fst]. apply names_setGroupAt.
  - rewrite IH. apply names_setGroupAt.
Qed.

Lemma names_possiblySpawn {C : Collaborators} (p : Pool.t) :
  map (fun e => SuperGroup.name (snd e))
    (Pool.superGroups (Pool.possiblySpawnMoreProcessesForExistingGroups p))
  = map (fun e => SuperGroup.name (snd e)) (Pool.superGroups p).
Proof.
  unfold Pool.possiblySpawnMoreProcessesForExistingGroups.
  pose proof (names_spawnLoop (fun _ g => Group_isWaitingForCapacity g)
                (Pool.groupPositions p) p) as H1.
  destruct (Pool.spawnLoop _ (Pool.groupPositions p) p) as [p1 returned].
  cbn [fst] in H1. destruct returned; [exact H1|].
  rewrite names_spawnLoop. exact H1.
Qed.

(** With nobody waiting on the Pool both assertions hold. *)
Lemma assertions_hold_empty (p : Pool.t) :
  Pool.getWaitlist p = [] ->
  Pool.verifyInvariants p && Pool.verifyExpensiveInvariants p = true.
Proof.
  intros H. apply andb_true_iff. split.
  - apply verifyInvariants_spec. intros Hne. contradiction.
  - unfold Pool.verifyExpensiveInvariants. rewrite H. reflexivity.
Qed.

Lemma assertions_fail_waiting (p : Pool.t) :
  Pool.verifyInvariants p && Pool.verifyExpensiveInvariants p = false ->
  Pool.getWaitlist p <> [].
Proof. intros H E. rewrite (assertions_hold_empty p E) in H. discriminate. Qed.

(** The loop of destroy() ends when every SuperGroup is stored under
    its own name: either the map has been emptied, every closure having
    run without the lock, or an assertion of detachSuperGroupByName()
    has failed, which takes somebody waiting on the Pool. *)
Lemma destroy_loop_ends {C : Collaborators} (fuel : nat) (w : Pool.World) :
  map (fun e => SuperGroup.name (snd e)) (Pool.superGroups (Pool.pool w))
  = map fst (Pool.superGroups (Pool.pool w)) ->
  (length (Pool.superGroups (Pool.pool w)) <= fuel)%nat ->
  Pool.locked w = true ->
  (exists w',
     Pool.destroy_loop fuel w = Some (Pool.Returns tt w')
     /\ Pool.pool w' = Pool.set_superGroups [] (Pool.pool w)
     /\ Pool.locked w' = true
     /\ Pool.aborted w' = Pool.aborted w
     /\ exists events,
          Pool.trace w' = Pool.trace w ++ events
          /\ forall e, In e events -> Pool.ev_lockHeld e = false)
  \/ (Pool.getWaitlist (Pool.pool w) <> []
      /\ exists w', Pool.destroy_loop fuel w = Some (Pool.Aborts w')).
Proof.
  revert w. induction fuel as [|fuel IH]; intros w Hnames Hlen Hlocked.
  - destruct (Pool.superGroups (Pool.pool w)) as [|e l] eqn:E; [|cbn in Hlen; lia].
    left. exists w. cbn [Pool.destroy_loop]. rewrite E. split; [reflexivity|].
    split; [rewrite <- E; symmetry; apply set_superGroups_same|].
    split; [exact Hlocked|]. split; [reflexivity|].
    exists []. rewrite app_nil_r. split; [reflexivity|intros e []].
  - cbn [Pool.destroy_loop].
    destruct (Pool.superGroups (Pool.pool w)) as [|[k sg] rest] eqn:E.
    + left. exists w. split; [reflexivity|].
      split; [rewrite <- E; symmetry; apply set_superGroups_same|].
      split; [exact Hlocked|]. split; [reflexivity|].
      exists []. rewrite app_nil_r. split; [reflexivity|intros e []].
    + cbn [map fst snd] in Hnames. inversion Hnames as [[Hname Hrest]].
      assert (Hget : StringMap.get (Pool.superGroups (Pool.pool (Pool.unlock w)))
                       (SuperGroup.name sg) = Some sg).
      { cbn [Pool.unlock Pool.pool]. rewrite E, Hname. cbn [StringMap.get].
        rewrite String.eqb_refl. reflexivity. }
      rewrite (detachSuperGroupByName_found (SuperGroup.name sg) (Pool.unlock w) sg
                 Hget eq_refl).
      cbn [Pool.unlock Pool.pool].
      destruct (Pool.verifyInvariants (Pool.pool w)
                && Pool.verifyExpensiveInvariants (Pool.pool w)) eqn:Hentry;
        [|right; split; [apply assertions_fail_waiting, Hentry|eexists; reflexivity]].
      set (P := Pool.superGroupDetached (Pool.pool w) (SuperGroup.name sg)).
      assert (Hwait : Pool.getWaitlist P = Pool.getWaitlist (Pool.pool w))
        by apply getWaitlist_superGroupDetached.
      destruct (Pool.verifyInvariants P && Pool.verifyExpensiveInvariants P) eqn:Hexit;
        [|right; split; [rewrite <- Hwait; apply assertions_fail_waiting, Hexit
                        |eexists; reflexivity]].
      set (actions := _ ++ _).
      match goal with |- context [Pool.destroy_loop fuel ?x] => set (w2 := x) end.
      assert (Hpool2 : Pool.pool w2 = P) by reflexivity.
      assert (HP : P = Pool.possiblySpawnMoreProcessesForExistingGroups
                         (Pool.set_superGroups rest (Pool.pool w))).
      { unfold P, Pool.superGroupDetached. rewrite E, Hname.
        cbn [StringMap.remove]. rewrite String.eqb_refl. reflexivity. }
      assert (Hkeys : map fst (Pool.superGroups P) = map fst rest)
        by (rewrite HP, keys_possiblySpawn; reflexivity).
      assert (Hnames2 : map (fun e => SuperGroup.name (snd e)) (Pool.superGroups P)
                        = map fst (Pool.superGroups P)).
      { rewrite Hkeys, HP, names_possiblySpawn. exact Hrest. }
      assert (Hlen2 : (length (Pool.superGroups P) <= fuel)%nat).
      { rewrite <- (length_map fst), Hkeys, length_map. cbn [length] in Hlen. lia. }
      destruct (IH w2 Hnames2 Hlen2 eq_refl)
        as [(w' & Hw' & Hp' & Hl' & Ha' & ev & Ht' & He') | (Hne & w' & Hw')].
      * left. exists w'. split; [exact Hw'|]. split.
        -- rewrite Hp', Hpool2, HP.
           destruct (possiblySpawn_frame (Pool.set_superGroups rest (Pool.pool w)))
             as [m ->].
           reflexivity.
        -- split; [exact Hl'|]. split; [exact Ha'|].
           eexists. split.
           ++ rewrite Ht'. unfold w2.
              cbn [Pool.trace Pool.runAllActions Pool.locked Pool.lock
                   Pool.unlock Pool.with_pool].
              rewrite <- app_assoc. reflexivity.
           ++ intros e He. apply in_app_iff in He. destruct He as [He | He].
              ** apply in_map_iff in He. destruct He as (a & <- & _). reflexivity.
              ** apply He', He.
      * right. split; [rewrite <- Hwait, <- Hpool2; exact Hne|].
        exists w'. exact Hw'.
Qed.

(** destroy() is called on a Pool that is ALIVE and stores every
    SuperGroup under its own name. If nobody waits on the Pool itself,
    destroy() returns: it has emptied the map of SuperGroups and leaves
    the Pool SHUT_DOWN and unlocked, every closure having run without
    the lock, and nothing else of the Pool has changed. If somebody
    waits on the Pool (the limit being positive), destroy() does not
    return: the wait list of the Pool is never served, and an assertion
    fails, at the latest the one destroy() makes at its end. *)
Theorem destroy_empties (C : Collaborators) (w : Pool.World) :
  Pool.lifeStatus (Pool.pool w) = ALIVE ->
  map (fun e => SuperGroup.name (snd e)) (Pool.superGroups (Pool.pool w))
  = map fst (Pool.superGroups (Pool.pool w)) ->
  (Pool.getWaitlist (Pool.pool w) = [] ->
   exists w',
     Pool.destroy w = Some (Pool.Returns tt w')
     /\ Pool.pool w'
        = Pool.mk (Pool.max (Pool.pool w)) (Pool.maxIdleTime (Pool.pool w)) SHUT_DOWN [] []
     /\ Pool.locked w' = false
     /\ Pool.aborted w' = Pool.aborted w
     /\ exists events,
          Pool.trace w' = Pool.trace w ++ events
          /\ forall e, In e events -> Pool.ev_lockHeld e = false)
  /\ (Pool.getWaitlist (Pool.pool w) <> [] -> 0 < Pool.max (Pool.pool w) ->
      exists w', Pool.destroy w = Some (Pool.Aborts w')).
Proof.
  intros Halive Hnames. unfold Pool.destroy.
  cbn [Pool.lock Pool.pool]. rewrite Halive.
  rewrite bool_decide_eq_true_2 by reflexivity.
  set (w1 := Pool.with_pool _ (Pool.lock w)).
  destruct (destroy_loop_ends (length (Pool.superGroups (Pool.pool w1))) w1 Hnames
              (Nat.le_refl _) eq_refl)
    as [(w2 & Hw2 & Hp2 & _ & Ha2 & events & Ht & He) | (Hne & w2 & Hw2)].
  - rewrite Hw2.
    cbn [Pool.with_pool Pool.pool]. rewrite Hp2.
    cbn [w1 Pool.with_pool Pool.pool Pool.lock].
    change (Pool.set_lifeStatus SHUT_DOWN
              (Pool.set_superGroups [] (Pool.set_lifeStatus SHUTTING_DOWN (Pool.pool w))))
      with (Pool.mk (Pool.max (Pool.pool w)) (Pool.maxIdleTime (Pool.pool w))
              SHUT_DOWN [] (Pool.getWaitlist (Pool.pool w))).
    split.
    + intros Hempty. rewrite Hempty.
      rewrite (assertions_hold_empty
                 (Pool.mk (Pool.max (Pool.pool w)) (Pool.maxIdleTime (Pool.pool w))
                    SHUT_DOWN [] []) eq_refl).
      eexists. split; [reflexivity|].
      cbn [Pool.unlock Pool.pool Pool.locked Pool.trace Pool.aborted].
      split; [reflexivity|]. split; [reflexivity|]. split; [exact Ha2|].
      exists events. split; [exact Ht|exact He].
    + intros Hwaiting Hmax.
      assert (Hfails : Pool.verifyInvariants
                         (Pool.mk (Pool.max (Pool.pool w)) (Pool.maxIdleTime (Pool.pool w))
                            SHUT_DOWN [] (Pool.getWaitlist (Pool.pool w))) = false).
      { apply not_true_is_false. rewrite verifyInvariants_spec.
        cbn [Pool.getWaitlist]. intros H. specialize (H Hwaiting).
        unfold Pool.atFullCapacity, Pool.utilization in H.
        cbn [Pool.superGroups Pool.max fold_left] in H.
        change (wrap32 0) with 0 in H. apply Z.leb_le in H. lia. }
      rewrite Hfails. cbn [andb]. eexists. reflexivity.
  - rewrite Hw2. split.
    + intros Hempty. exfalso. apply Hne. exact Hempty.
    + intros _ _. exists w2. reflexivity.
Qed.

Lemma destroy_empties_witness :
  let o := sampleOptions "B" 0 false in
  let p := Pool.mk 1 60000000 ALIVE
             [("A", sampleSuperGroup "A" [sampleGroup "A" 0 [sampleProcess "A" "p1" 0 1]]);
              ("B", SuperGroup.mk "B" SuperGroup.INITIALIZING [] [mkGetWaiter o 3%nat] o)]
             [] in
  exists w',
    Pool.destroy (C := queueingCollaborators) (sampleWorld p) = Some (Pool.Returns tt w')
    /\ Pool.pool w' = Pool.mk 1 60000000 SHUT_DOWN [] []
    /\ Pool.locked w' = false.
Proof.
  cbv zeta.
  set (o := sampleOptions "B" 0 false).
  set (p := Pool.mk 1 60000000 ALIVE _ _).
  destruct (destroy_empties queueingCollaborators (sampleWorld p) eq_refl eq_refl)
    as (Hreturns & _).
  destruct (Hreturns eq_refl) as (w' & Hw' & Hp' & Hl' & _).
  exists w'. split; [exact Hw'|]. split; [exact Hp'|exact Hl'].
Defined.

Lemma updateProcessMetrics_known (known : Z -> bool) (kill : Z -> KillResult)
    (l : list Process.t) :
  (forall x, In x l -> known (Process.pid x) = true) ->
  Pool.updateProcessMetrics known kill l = (l, []).
Proof.
  induction l as [|x l IH]; intros H; cbn [Pool.updateProcessMetrics]; [reflexivity|].
  rewrite IH by (intros y Hy; apply H; right; exact Hy).
  rewrite (H x (or_introl eq_refl)). reflexivity.
Qed.

Lemma fold_left_snoc_id {A S} (f : list A * S -> A -> list A * S) (l : list A) :
  (forall done s x, In x l -> f (done, s) x = (done ++ [x], s)) ->
  forall done s, fold_left f l (done, s) = (done ++ l, s).
Proof.
  induction l as [|x l IH]; intros H done s; cbn [fold_left].
  - rewrite app_nil_r. reflexivity.
  - rewrite H by (left; reflexivity).
    rewrite IH by (intros d' s' y Hy; apply H; right; exact Hy).
    rewrite <- app_assoc. reflexivity.
Qed.

Lemma updateAllMetrics_known (known : Z -> bool) (kill : Z -> KillResult) (p : Pool.t) :
  (forall x, In x (Pool.getProcesses p) -> known (Process.pid x) = true) ->
  Pool.updateAllMetrics known kill p = (p, []).
Proof.
  intros H. unfold Pool.updateAllMetrics.
  rewrite (fold_left_snoc_id _ (Pool.superGroups p)).
  - cbn [app]. rewrite set_superGroups_same. reflexivity.
  - intros done s e He.
    rewrite (fold_left_snoc_id _ (SuperGroup.groups (snd e))).
    + cbn [app]. destruct e as [k [n st gs wl o]]. reflexivity.
    + intros done' s' g Hg.
      assert (Hin : forall x, In x (Group.processes g) -> known (Process.pid x) = true).
      { intros x Hx. apply H. rewrite getProcesses_flat. apply in_flat_map.
        exists e. split; [exact He|]. apply in_flat_map. exists g. split; assumption. }
      unfold Pool.updateGroupMetrics.
      rewrite (updateProcessMetrics_known known kill (Group.enabledProcesses g))
        by (intros x Hx; apply Hin; unfold Group.processes; rewrite !in_app_iff; auto).
      rewrite (updateProcessMetrics_known known kill (Group.disablingProcesses g))
        by (intros x Hx; apply Hin; unfold Group.processes; rewrite !in_app_iff; auto).
      rewrite (updateProcessMetrics_known known kill (Group.disabledProcesses g))
        by (intros x Hx; apply Hin; unfold Group.processes; rewrite !in_app_iff; auto).
      cbv beta iota. cbn [app]. rewrite app_nil_r. destruct g. reflexivity.
Qed.

(** The metrics collector leaves a healthy Pool alone: when the output
    of ps cannot be parsed nothing is done at all, and when ps reports
    every attached Process, kill() is not consulted, no Process is
    detached, no closure is run, and the Pool is what it was (the
    metrics a Process stores are not part of the model). *)
Theorem realCollectAnalytics_healthy (C : Collaborators) (known : Z -> bool)
    (kill : Z -> KillResult) (w : Pool.World) :
  (forall x, In x (Pool.getProcesses (Pool.pool w)) -> known (Process.pid x) = true) ->
  Pool.realCollectAnalytics None kill w = w
  /\ Pool.realCollectAnalytics (Some known) kill w
     = Pool.mkWorld (Pool.pool w) false (Pool.trace w) (Pool.aborted w).
Proof.
  intros H. split; [reflexivity|].
  unfold Pool.realCollectAnalytics. cbn [Pool.lock Pool.pool].
  rewrite (updateAllMetrics_known known kill (Pool.pool w) H).
  cbn [fold_left]. cbv beta iota.
  unfold Pool.runAllActions. cbn [map]. rewrite app_nil_r. reflexivity.
Qed.

Lemma realCollectAnalytics_healthy_witness :
  let p := Pool.mk 6 60000000 ALIVE
             [("A", sampleSuperGroup "A" [sampleGroup "A" 0 [sampleProcess "A" "p1" 0 1]])]
             [] in
  Pool.realCollectAnalytics (C := queueingCollaborators) (Some (fun pid => pid =? 100))
    (fun _ => mkKill (-1) ESRCH) (sampleWorld p)
  = sampleWorld p.
Proof.
  cbv zeta.
  set (p := Pool.mk 6 60000000 ALIVE _ []).
  destruct (realCollectAnalytics_healthy queueingCollaborators (fun pid => pid =? 100)
              (fun _ => mkKill (-1) ESRCH) (sampleWorld p)) as [_ H].
  - intros x [<- | []]. reflexivity.
  - rewrite H. reflexivity.
Defined.

(** ** Spawner: further properties *)

Lemma append_nil_r (a : string) : a +:+ EmptyString = a.
Proof. induction a as [|x a IH]; [reflexivity|]. rewrite append_cons, IH. reflexivity. Qed.

Lemma set_stderrCapturer_same (d : NegotiationDetails) :
  set_stderrCapturer (stderrCapturer d) d = d.
Proof. destruct d. reflexivity. Qed.

Lemma readMessageLine_loop_protocolLine (fuel : nat) (text rest : string)
    (d : NegotiationDetails) :
  noLineFeed text = true -> (String.length (protocolLine text) <= 4096)%nat ->
  pending (io d) = protocolLine text +:+ rest ->
  readMessageLine_loop (S fuel) d
  = (Return (text +:+ LF), set_io (mkIO rest (ending (io d))) d).
Proof.
  intros Htext Hlen Hp.
  cbn [readMessageLine_loop]. unfold bind at 1. unfold io_readLine.
  destruct (io d) as [pend e] eqn:Hio. cbn [pending ending] in *. subst pend.
  unfold protocolLine in *.
  rewrite !length_append in Hlen. cbn [String.length LF] in Hlen.
  replace (("!> " +:+ text +:+ LF) +:+ rest) with (("!> " +:+ text) +:+ LF +:+ rest)
    by (rewrite !append_assoc; reflexivity).
  rewrite readLine_line;
    [|rewrite noLineFeed_append, Htext; reflexivity
     |rewrite length_append; cbn [String.length]; lia].
  rewrite append_assoc. rewrite !append_cons, append_nil.
  cbn [String.eqb]. unfold startsWith. cbn [String.prefix].
  destruct (ascii_dec "!" "!"); [|contradiction].
  destruct (ascii_dec ">" ">"); [|contradiction].
  destruct (ascii_dec " " " "); [|contradiction].
  rewrite prefix_nil.
  cbn [String.length Nat.sub substring]. unfold ret.
  rewrite Nat.sub_0_r, substring_all. reflexivity.
Qed.

Lemma readMessageLine_loop_skips (ls : list string) :
  forall (fuel : nat) (text rest : string) (d : NegotiationDetails),
    forallb plainOk ls = true ->
    noLineFeed text = true -> (String.length (protocolLine text) <= 4096)%nat ->
    pending (io d) = plainLines ls +:+ protocolLine text +:+ rest ->
    (length ls < fuel)%nat ->
    readMessageLine_loop fuel d
    = (Return (text +:+ LF),
       set_io (mkIO rest (ending (io d)))
         (match stderrCapturer d with
          | Some data => set_stderrCapturer (Some (data +:+ plainLines ls)) d
          | None => d
          end)).
Proof.
  induction ls as [|l ls IH]; intros fuel text rest d Hok Htext Hlen Hp Hfuel.
  - cbn [plainLines] in *. rewrite append_nil in Hp.
    destruct fuel as [|fuel]; [lia|].
    rewrite (readMessageLine_loop_protocolLine fuel text rest d Htext Hlen Hp).
    destruct (stderrCapturer d) as [data|] eqn:E; [|reflexivity].
    rewrite append_nil_r, <- E, set_stderrCapturer_same. reflexivity.
  - destruct fuel as [|fuel]; [lia|].
    cbn [forallb] in Hok. apply andb_true_iff in Hok as [Hl Hok].
    unfold plainOk in Hl. apply andb_true_iff in Hl as [Hl Hl3].
    apply andb_true_iff in Hl as [Hl1 Hl2]. apply Nat.ltb_lt in Hl3.
    apply negb_true_iff in Hl2.
    cbn [plainLines] in Hp. rewrite !append_assoc in Hp.
    cbn [readMessageLine_loop]. unfold bind at 1. unfold io_readLine.
    destruct (io d) as [pend e] eqn:Hio. cbn [pending ending] in *. subst pend.
    rewrite (readLine_line l _ e Hl1 Hl3).
    assert (Hne : String.eqb (l +:+ LF) EmptyString = false).
    { destruct l; [reflexivity|]. rewrite append_cons. reflexivity. }
    rewrite Hne, Hl2. unfold bind at 1.
    set (d1 := set_io _ d).
    set (d2 := match stderrCapturer d1 with
               | Some data => set_stderrCapturer (Some (data +:+ (l +:+ LF))) d1
               | None => d1
               end).
    assert (Hp2 : pending (io d2) = plainLines ls +:+ protocolLine text +:+ rest).
    { unfold d2, d1. destruct d as [sc ? ? ? ? ? ? ? ? ? ? ? ? ?]. destruct sc; reflexivity. }
    rewrite (IH fuel text rest d2 Hok Htext Hlen Hp2) by (cbn [length] in Hfuel; lia).
    f_equal. unfold d2, d1.
    destruct d as [sc ? ? ? ? ? ? ? ? io0 ? ? ? ?]. cbn in Hio. subst io0.
    destruct sc as [data|]; cbn; [|reflexivity].
    rewrite !append_assoc. reflexivity.
Qed.

(** readMessageLine() skips what is not protocol: lines without the
    prefix "!> " that come before a protocol line are appended, in
    order, to the captured output (when there is a capturer) and the
    protocol line is returned without its prefix; the data after it is
    left unread. *)
Theorem readMessageLine_skips (ls : list string) (text rest : string)
    (d : NegotiationDetails) :
  forallb plainOk ls = true ->
  noLineFeed text = true -> (String.length (protocolLine text) <= 4096)%nat ->
  pending (io d) = plainLines ls +:+ protocolLine text +:+ rest ->
  readMessageLine d
  = (Return (text +:+ LF),
     set_io (mkIO rest (ending (io d)))
       (match stderrCapturer d with
        | Some data => set_stderrCapturer (Some (data +:+ plainLines ls)) d
        | None => d
        end)).
Proof.
  intros Hok Htext Hlen Hp. unfold readMessageLine.
  apply (readMessageLine_loop_skips ls _ text rest d Hok Htext Hlen Hp).
  rewrite Hp. clear. induction ls as [|l ls IH]; cbn [plainLines length]; [lia|].
  rewrite !length_append in *. cbn [String.length LF]. lia.
Qed.

Lemma readMessageLine_skips_witness :
  let d := mkDetails (Some "boot") "" 42 (sampleOptions "A" 0 false) None
             (fun _ => inl 0) 0 [] ""
             (mkIO ("warning: x" +:+ LF +:+ "!> Ready" +:+ LF +:+ "!> " +:+ LF) EndOfFile)
             "" "" 0 0 in
  fst (readMessageLine d) = Return ("Ready" +:+ LF)
  /\ stderrCapturer (snd (readMessageLine d)) = Some ("boot" +:+ "warning: x" +:+ LF).
Proof.
  cbv zeta.
  set (d := mkDetails _ _ _ _ _ _ _ _ _ _ _ _ _ _).
  rewrite (readMessageLine_skips ["warning: x"] "Ready" ("!> " +:+ LF) d);
    [split; reflexivity | reflexivity | reflexivity | vm_compute; lia | reflexivity].
Defined.

Lemma takeLine_partial (max : nat) (s : string) :
  noLineFeed s = true -> (String.length s < max)%nat -> takeLine max s = (s, EmptyString).
Proof.
  revert max. induction s as [|x s IH]; intros max Hs Hmax.
  - destruct max; [lia|]. reflexivity.
  - destruct max; [cbn in Hmax; lia|]. cbn in Hs. apply andb_true_iff in Hs as [Hx Hs].
    cbn [takeLine]. apply negb_true_iff in Hx. rewrite Hx.
    rewrite (IH max Hs) by (cbn in Hmax; lia). reflexivity.
Qed.

Lemma get_noLineFeed (s : string) (n : nat) (c : ascii) :
  noLineFeed s = true -> String.get n s = Some c -> Ascii.eqb c "010" = false.
Proof.
  revert n. induction s as [|x s IH]; intros n Hs Hg; [discriminate|].
  cbn in Hs. apply andb_true_iff in Hs as [Hx Hs].
  destruct n as [|n]; cbn in Hg.
  - inversion Hg; subst. apply negb_true_iff, Hx.
  - apply (IH n Hs Hg).
Qed.

Lemma endsWithNewline_noLineFeed (s : string) :
  noLineFeed s = true -> endsWithNewline s = false.
Proof.
  intros Hs. unfold endsWithNewline.
  destruct (String.get _ s) as [c|] eqn:E; [|reflexivity].
  apply (get_noLineFeed s _ c Hs E).
Qed.

Lemma readMessageLine_fails (partial : string) (d : NegotiationDetails) :
  noLineFeed partial = true -> (String.length partial < 4096)%nat ->
  pending (io d) = partial ->
  match ending (io d) with
  | EndOfFile => True
  | FailsWith sys code =>
      readMessageLine d
      = (Throw (SystemException sys code), set_io (mkIO EmptyString (ending (io d))) d)
  | TimesOut =>
      readMessageLine d
      = (Throw TimeoutException, set_io (mkIO EmptyString (ending (io d))) d)
  end.
Proof.
  intros Hs Hlen Hp.
  assert (Hr : io_readLine 4096 d
               = match ending (io d) with
                 | EndOfFile => (Return partial, set_io (mkIO EmptyString (ending (io d))) d)
                 | FailsWith sys code =>
                     (Throw (SystemException sys code),
                      set_io (mkIO EmptyString (ending (io d))) d)
                 | TimesOut =>
                     (Throw TimeoutException, set_io (mkIO EmptyString (ending (io d))) d)
                 end).
  { unfold io_readLine, readLine. rewrite Hp.
    rewrite (takeLine_partial 4096 partial Hs Hlen), (endsWithNewline_noLineFeed _ Hs).
    replace (Nat.eqb (String.length partial) 4096) with false
      by (symmetry; apply Nat.eqb_neq; lia).
    cbn [orb]. destruct (ending (io d)); reflexivity. }
  unfold readMessageLine. cbn [readMessageLine_loop].
  destruct (ending (io d)); [exact I| |]; unfold bind; rewrite Hr; reflexivity.
Qed.

Lemma bind_throw {A B} (m : M A) (f : A -> M B) (d d' : NegotiationDetails)
    (e : Exception) :
  m d = (Throw e, d') -> bind m f d = (Throw e, d').
Proof. intros H. unfold bind. rewrite H. reflexivity. Qed.

Lemma try_catch_throw {A} (m : M A) (h : Exception -> M A) (d d' : NegotiationDetails)
    (e : Exception) :
  m d = (Throw e, d') -> try_catch m h d = h e d'.
Proof. intros H. unfold try_catch. rewrite H. reflexivity. Qed.

(** The child writes no complete line and the read of the handshake
    fails: negotiateSpawn() sends nothing and turns a timeout into a
    SpawnException of kind APP_STARTUP_TIMEOUT whose error page is the
    output captured so far, and an I/O error into one of kind
    APP_STARTUP_PROTOCOL_ERROR whose message ends with the system's
    error text and whose error page also has what the child still
    writes on its stderr. *)
Theorem handshake_read_failure (c : Config) (now now' : Z) (g pw partial : string)
    (d : NegotiationDetails) :
  noLineFeed partial = true -> (String.length partial < 4096)%nat ->
  pending (io d) = partial ->
  let result := negotiateSpawn c now g pw now' d in
  (ending (io d) = TimesOut ->
   sent (snd result) = sent d
   /\ fst result
      = Throw (SpawnException
                 ("An error occurred while starting the " +:+
                  "web application: it did not write a handshake message in time.")
                 (default EmptyString (stderrCapturer d)) false APP_STARTUP_TIMEOUT
                 (annotations_of d)))
  /\ (forall sys code, ending (io d) = FailsWith sys code ->
      sent (snd result) = sent d
      /\ fst result
         = Throw (SpawnException
                    ("An error occurred while starting the " +:+
                     "web application. There was an I/O error while reading its " +:+
                     "handshake message: " +:+ sys)
                    (match stderrCapturer d with
                     | Some data => data +:+ stderrRest d
                     | None => EmptyString
                     end) false APP_STARTUP_PROTOCOL_ERROR (annotations_of d))).
Proof.
  intros Hs Hlen Hp. cbv zeta. unfold negotiateSpawn.
  set (d1 := set_start _ _ _ _ d).
  pose proof (readMessageLine_fails partial d1 Hs Hlen Hp) as Hread.
  change (io d1) with (io d) in Hread.
  split.
  - intros E. rewrite E in Hread.
    erewrite bind_throw;
      [|erewrite try_catch_throw; [|exact Hread];
        unfold readFailed, throwAppSpawnException; reflexivity].
    cbn [fst snd]. split; [reflexivity|].
    destruct d as [sc ? ? ? ? ? ? ? ? ? ? ? ? ?]. destruct sc; reflexivity.
  - intros sys code E. rewrite E in Hread.
    erewrite bind_throw;
      [|erewrite try_catch_throw; [|exact Hread];
        unfold readFailed, throwAppSpawnException; reflexivity].
    cbn [fst snd]. split; [reflexivity|].
    destruct d as [sc ? ? ? ? ? ? ? ? ? ? ? ? ?]. destruct sc; reflexivity.
Qed.

Lemma handshake_read_failure_witness :
  let d := mkDetails (Some "boot") "late" 42 (sampleOptions "A" 0 false) None
             (fun _ => inl 0) 0 [] "" (mkIO "" TimesOut) "" "" 0 0 in
  exists msg,
    fst (negotiateSpawn
           (mkConfig "/root" "4.0" "/lib" "/gen" 0 (fun s => s) (fun _ => "err"))
           5 "g" "pw" 9 d)
    = Throw (SpawnException msg "boot" false APP_STARTUP_TIMEOUT ∅).
Proof.
  cbv zeta.
  set (d := mkDetails _ _ _ _ _ _ _ _ _ _ _ _ _ _).
  destruct (handshake_read_failure
              (mkConfig "/root" "4.0" "/lib" "/gen" 0 (fun s => s) (fun _ => "err"))
              5 9 "g" "pw" "" d eq_refl ltac:(cbn; lia) eq_refl) as [H _].
  destruct (H eq_refl) as [_ H']. eexists. exact H'.
Defined.

Lemma append_literal_not_empty (x : ascii) (a b : string) :
  String x a +:+ b <> EmptyString.
Proof. rewrite append_cons. discriminate. Qed.

(** validateSocketAddress() never returns an empty text for an address
    it rejects, so that its caller accepts exactly: every tcp://
    address; and a unix: address whose file name, after the chroot
    directories have been put in front, is an absolute path without
    empty, "." or ".." components and belongs to the expected user. *)
Theorem validateSocketAddress_accepts (c : Config) (d : NegotiationDetails)
    (address : string) :
  validateSocketAddress c d address = EmptyString
  <-> getSocketAddressType address = SAT_TCP
      \/ (getSocketAddressType address = SAT_UNIX
          /\ let filename :=
               parseUnixSocketAddress (fixupSocketAddress (options d) address) in
             isAbsolutePath filename = true
             /\ fileOwner d filename = inl (expectedUid d)).
Proof.
  unfold validateSocketAddress. cbv zeta.
  destruct (getSocketAddressType address).
  - destruct (isAbsolutePath _) eqn:Ea; cbn [negb].
    + destruct (fileOwner d _) as [uid|e] eqn:Eo.
      * destruct (Z.eqb_spec uid (expectedUid d)) as [-> | Hne]; cbn [negb].
        -- split; [intros _; right; auto|reflexivity].
        -- split.
           ++ intros H. exfalso. revert H. apply append_literal_not_empty.
           ++ intros [H | (_ & _ & H)]; [discriminate|]. congruence.
      * split.
        -- intros H. exfalso. revert H. apply append_literal_not_empty.
        -- intros [H | (_ & _ & H)]; discriminate.
    + split.
      * intros H. exfalso. revert H. apply append_literal_not_empty.
      * intros [H | (_ & H & _)]; discriminate.
  - split; [intros _; left; reflexivity|reflexivity].
  - split.
    + intros H. exfalso. revert H. apply append_literal_not_empty.
    + intros [H | (H & _)]; discriminate.
Qed.

(** A startup response line whose key is not "socket" ends the
    negotiation: handleSpawnResponse() throws a SpawnException of kind
    APP_STARTUP_PROTOCOL_ERROR that names the key, with the captured
    output and what the child still writes on stderr as error page. *)
Theorem handleSpawnResponse_unknown_key (c : Config) (now : Z) (key value rest : string)
    (d : NegotiationDetails) :
  attributeOk (key, value) = true ->
  key <> "socket" ->
  pending (io d) = attributeLine (key, value) +:+ rest ->
  fst (handleSpawnResponse c now d)
  = Throw (SpawnException
             ("An error occurred while starting the " +:+
              "web application. It sent an unknown startup response line " +:+
              "called '" +:+ key +:+ "'.")
             (match stderrCapturer d with
              | Some data => data +:+ stderrRest d
              | None => EmptyString
              end) false APP_STARTUP_PROTOCOL_ERROR (annotations_of d)).
Proof.
  intros Hok Hkey Hp. unfold attributeOk in Hok. cbn [fst snd] in Hok.
  apply andb_true_iff in Hok as [Hok Hlen]. apply andb_true_iff in Hok as [Hok Hfind].
  apply andb_true_iff in Hok as [Hk Hv]. apply bool_decide_eq_true in Hfind.
  apply Nat.leb_le in Hlen. unfold attributeLine in Hp, Hlen. cbn [fst snd] in Hp, Hlen.
  assert (Htext : noLineFeed (key +:+ ": " +:+ value) = true).
  { rewrite !noLineFeed_append, Hk, Hv. reflexivity. }
  pose proof (readMessageLine_protocolLine _ rest d Htext Hlen Hp) as Hread.
  destruct (attribute_line_parse key value Hfind) as (H1 & H2 & H3 & H4 & H5 & H6).
  unfold handleSpawnResponse. erewrite bind_throw; [reflexivity|].
  cbn [handleSpawnResponse_loop].
  unfold bind at 1. unfold try_catch at 1. rewrite Hread.
  rewrite H1, H2, H3, H4. cbn [negb]. rewrite H5.
  replace (String.eqb key "socket") with false by (symmetry; apply String.eqb_neq, Hkey).
  unfold throwAppSpawnException.
  destruct d as [sc ? ? ? ? ? ? ? ? ? ? ? ? ?]. destruct sc; reflexivity.
Qed.

Lemma handleSpawnResponse_unknown_key_witness :
  let d := mkDetails None "" 42 (sampleOptions "A" 0 false) None
             (fun _ => inl 0) 0 [] ""
             (mkIO ("!> colour: blue" +:+ LF +:+ "!> " +:+ LF) EndOfFile) "" "" 0 0 in
  exists msg page,
    fst (handleSpawnResponse
           (mkConfig "/root" "4.0" "/lib" "/gen" 0 (fun s => s) (fun _ => "err")) 9 d)
    = Throw (SpawnException msg page false APP_STARTUP_PROTOCOL_ERROR ∅).
Proof.
  cbv zeta. eexists _, _.
  apply (handleSpawnResponse_unknown_key _ 9 "colour" "blue" ("!> " +:+ LF));
    [vm_compute; reflexivity | discriminate | reflexivity].
Defined.

Lemma appendArgs_pairs (pairs : list (string * string)) (data : string) :
  appendArgs data (flat_map (fun kv => [fst kv; snd kv]) pairs)
  = Some (data +:+ requestLines pairs).
Proof.
  revert data. induction pairs as [|kv pairs IH]; intros data.
  - cbn. rewrite append_nil_r. reflexivity.
  - cbn [flat_map app appendArgs requestLines]. rewrite IH.
    rewrite !append_assoc. reflexivity.
Qed.

(** What the child reads when both writes succeed: the header, one
    "key: value" line for every pair of the flattened options, in
    order, and an empty line. Nothing of the child's output is
    consumed. *)
Theorem sendSpawnRequest_wire (c : Config) (d : NegotiationDetails)
    (pairs : list (string * string)) :
  Options.toVector (options d) = flat_map (fun kv => [fst kv; snd kv]) pairs ->
  sendFailure (writes d) = None ->
  fst (sendSpawnRequest c d) = Return tt
  /\ sent (snd (sendSpawnRequest c d))
     = sent d +:+ (spawnRequestHeader c d +:+ requestLines pairs) +:+ LF
  /\ io (snd (sendSpawnRequest c d)) = io d.
Proof.
  intros Hv Hw. unfold sendSpawnRequest, try_catch.
  rewrite Hv, appendArgs_pairs. unfold bind, writeExact.
  destruct (writes d) as [|[|sys code|] [|[|sys' code'|] ws]];
    cbn [writes set_writes tail sent io fst snd] in *; try discriminate;
    rewrite ?append_assoc; repeat split; reflexivity.
Qed.

Lemma sendSpawnRequest_wire_witness :
  let o := Options.mk "/app" "A" 90000 "" "" 0 false 300 ["app_root"; "/app"] in
  let d := mkDetails None "" 42 o None (fun _ => inl 0) 0 [] "" (mkIO "" EndOfFile)
             "g1" "pw" 0 0 in
  let c := mkConfig "/root" "4.0" "/lib" "/gen" 0 (fun s => s) (fun _ => "err") in
  sent (snd (sendSpawnRequest c d))
  = spawnRequestHeader c d +:+ "app_root: /app" +:+ LF +:+ LF.
Proof.
  cbv zeta.
  set (o := Options.mk _ _ _ _ _ _ _ _ _).
  set (d := mkDetails _ _ _ _ _ _ _ _ _ _ _ _ _ _).
  set (c := mkConfig _ _ _ _ _ _ _).
  destruct (sendSpawnRequest_wire c d [("app_root", "/app")] eq_refl eq_refl)
    as (_ & H & _).
  rewrite H. reflexivity.
Defined.

(** *** The startup response *)

Lemma split_aux_component (sep : ascii) (a cur rest : string) :
  lacks sep a = true ->
  split_aux sep cur (a +:+ String sep rest) = (cur +:+ a) :: split_aux sep EmptyString rest.
Proof.
  revert cur. induction a as [|x a IH]; intros cur Ha.
  - rewrite append_nil, append_nil_r. cbn [split_aux]. rewrite Ascii.eqb_refl. reflexivity.
  - cbn [lacks] in Ha. apply andb_true_iff in Ha as [Hx Ha]. apply negb_true_iff in Hx.
    rewrite append_cons. cbn [split_aux]. rewrite Hx, (IH _ Ha).
    rewrite append_assoc, append_cons, append_nil. reflexivity.
Qed.

Lemma split_aux_last (sep : ascii) (a cur : string) :
  lacks sep a = true -> split_aux sep cur a = [cur +:+ a].
Proof.
  revert cur. induction a as [|x a IH]; intros cur Ha.
  - rewrite append_nil_r. reflexivity.
  - cbn [lacks] in Ha. apply andb_true_iff in Ha as [Hx Ha]. apply negb_true_iff in Hx.
    cbn [split_aux]. rewrite Hx, (IH _ Ha).
    rewrite append_assoc, append_cons, append_nil. reflexivity.
Qed.

Lemma split_socketValue (a : Advertised) :
  lacks ";" (adv_name a) = true -> lacks ";" (adv_address a) = true ->
  lacks ";" (adv_protocol a) = true -> lacks ";" (adv_concurrency a) = true ->
  split (socketValue a) ";"
  = [adv_name a; adv_address a; adv_protocol a; adv_concurrency a].
Proof.
  intros H0 H1 H2 H3. unfold socketValue.
  assert (Hs : forall x y : string, x +:+ ";" +:+ y = x +:+ String ";" y).
  { intros x y. rewrite append_cons, append_nil. reflexivity. }
  rewrite !Hs.
  assert (Hsplit : split (adv_name a +:+ String ";"
                            (adv_address a +:+ String ";"
                               (adv_protocol a +:+ String ";" (adv_concurrency a)))) ";"
                   = split_aux ";" EmptyString
                       (adv_name a +:+ String ";"
                          (adv_address a +:+ String ";"
                             (adv_protocol a +:+ String ";" (adv_concurrency a))))).
  { destruct (adv_name a); [rewrite append_nil|rewrite append_cons]; reflexivity. }
  rewrite Hsplit, !split_aux_component, split_aux_last by assumption.
  rewrite !append_nil. reflexivity.
Qed.

Lemma tcp_address_type (address : string) :
  startsWith address "tcp://" = true -> getSocketAddressType address = SAT_TCP.
Proof.
  intros H. unfold getSocketAddressType. rewrite H.
  destruct (startsWith address "unix:") eqn:E; [|reflexivity].
  exfalso. unfold startsWith in *. destruct address as [|x address]; [discriminate|].
  cbn [String.prefix] in *.
  destruct (ascii_dec "t" x) as [<- |]; [|discriminate].
  destruct (ascii_dec "u" "t"); discriminate.
Qed.

Lemma fixupSocketAddress_tcp (o : Options.t) (address : string) :
  getSocketAddressType address = SAT_TCP -> fixupSocketAddress o address = address.
Proof.
  intros H. unfold fixupSocketAddress. rewrite H. destruct (_ && _); reflexivity.
Qed.

Lemma socketLines_length (l : list Advertised) :
  (length l <= String.length (socketLines l))%nat.
Proof.
  induction l as [|a l IH]; cbn [socketLines length]; [lia|].
  rewrite length_append. unfold socketLine, attributeLine, protocolLine.
  rewrite !length_append. cbn [String.length LF]. lia.
Qed.

Lemma handleSpawnResponse_loop_sockets (c : Config) (l : list Advertised) :
  forall (fuel : nat) (sockets : list Socket.t) (rest : string) (d : NegotiationDetails),
    forallb advertisedOk l = true ->
    pending (io d) = socketLines l +:+ protocolLine EmptyString +:+ rest ->
    (length l < fuel)%nat ->
    handleSpawnResponse_loop c fuel sockets d
    = (Return (sockets ++ map socketOf l), set_io (mkIO rest (ending (io d))) d).
Proof.
  induction l as [|a l IH]; intros fuel sockets rest d Hok Hp Hfuel.
  - destruct fuel as [|fuel]; [lia|].
    cbn [socketLines] in Hp. rewrite append_nil in Hp.
    cbn [handleSpawnResponse_loop]. unfold bind at 1. unfold try_catch at 1.
    rewrite (readMessageLine_protocolLine EmptyString rest d eq_refl
               ltac:(vm_compute; lia) Hp).
    rewrite append_nil. cbn [map]. rewrite app_nil_r. reflexivity.
  - destruct fuel as [|fuel]; [cbn in Hfuel; lia|].
    cbn [forallb] in Hok. apply andb_true_iff in Hok as [Ha Hok].
    unfold advertisedOk in Ha.
    repeat (apply andb_true_iff in Ha; destruct Ha as [Ha ?]).
    match goal with H : bool_decide _ = true |- _ => apply bool_decide_eq_true in H;
      destruct H as [n Hn] end.
    match goal with H : Nat.leb _ _ = true |- _ => apply Nat.leb_le in H end.
    cbn [socketLines] in Hp. rewrite append_assoc in Hp.
    unfold socketLine, attributeLine in *. cbn [fst snd] in *.
    assert (Htext : noLineFeed ("socket" +:+ ": " +:+ socketValue a) = true).
    { rewrite !noLineFeed_append. cbn [noLineFeed Ascii.eqb Bool.eqb negb andb].
      assumption. }
    cbn [handleSpawnResponse_loop]. unfold bind at 1. unfold try_catch at 1.
    rewrite (readMessageLine_protocolLine _ _ d Htext ltac:(assumption) Hp).
    destruct (attribute_line_parse "socket" (socketValue a) eq_refl)
      as (P1 & P2 & P3 & P4 & P5 & P6).
    rewrite P1, P2, P3, P4. cbn [negb]. rewrite P5, P6.
    change (String.eqb "socket" "socket") with true. cbv iota.
    rewrite split_socketValue by assumption.
    assert (Htcp : getSocketAddressType (adv_address a) = SAT_TCP)
      by (apply tcp_address_type; assumption).
    unfold validateSocketAddress. rewrite Htcp.
    change (negb (String.eqb EmptyString EmptyString)) with false. cbv iota.
    rewrite Hn.
    rewrite (IH fuel _ rest
               (set_io (mkIO (socketLines l +:+ protocolLine EmptyString +:+ rest)
                          (ending (io d))) d) Hok eq_refl)
      by (cbn [length] in Hfuel; lia).
    cbn [io ending set_io options]. rewrite set_io_set_io.
    rewrite fixupSocketAddress_tcp by exact Htcp.
    rewrite <- app_assoc. cbn [app map]. unfold socketOf. rewrite Hn. reflexivity.
Qed.

Lemma handleSpawnResponse_sockets (c : Config) (now : Z) (l : list Advertised)
    (rest : string) (d : NegotiationDetails) :
  forallb advertisedOk l = true ->
  pending (io d) = socketLines l +:+ protocolLine EmptyString +:+ rest ->
  handleSpawnResponse c now d
  = if hasSessionSockets (map socketOf l) then
      match Process.make now (pid d) (gupid d) (connectPassword d) (map socketOf l)
              (creationTime c) (spawnStartTime d) with
      | Some p => (Return p, set_io (mkIO rest (ending (io d))) d)
      | None => (Undefined, set_io (mkIO rest (ending (io d))) d)
      end
    else
      throwAppSpawnException
        ("An error occured while starting the web " +:+
         "application. It did not advertise any session sockets.")
        APP_STARTUP_PROTOCOL_ERROR (set_io (mkIO rest (ending (io d))) d).
Proof.
  intros Hok Hp. unfold handleSpawnResponse. unfold bind.
  rewrite (handleSpawnResponse_loop_sockets c l _ [] rest d Hok Hp).
  - cbn [app]. destruct (hasSessionSockets (map socketOf l)); reflexivity.
  - rewrite Hp, length_append. pose proof (socketLines_length l). lia.
Qed.

(** The child is ready: it advertises its sockets, one line each, and
    ends with an empty line. handleSpawnResponse() reads exactly these
    lines; if none of the sockets is a session socket it throws the
    protocol error "did not advertise any session sockets", otherwise it
    returns the Process that the constructor builds from the list of
    advertised sockets, in their order, with no session open. *)
Theorem handleSpawnResponse_ready (c : Config) (now : Z) (l : list Advertised)
    (rest : string) (d : NegotiationDetails) :
  forallb advertisedOk l = true ->
  pending (io d) = socketLines l +:+ protocolLine EmptyString +:+ rest ->
  let sockets := map socketOf l in
  let d' := set_io (mkIO rest (ending (io d))) d in
  handleSpawnResponse c now d
  = if hasSessionSockets sockets then
      match Process.make now (pid d) (gupid d) (connectPassword d) sockets
              (creationTime c) (spawnStartTime d) with
      | Some p => (Return p, d')
      | None => (Undefined, d')
      end
    else
      throwAppSpawnException
        ("An error occured while starting the web " +:+
         "application. It did not advertise any session sockets.")
        APP_STARTUP_PROTOCOL_ERROR d'.
Proof.
  intros Hok Hp. cbv zeta. apply handleSpawnResponse_sockets; assumption.
Qed.

Lemma handleSpawnResponse_ready_witness :
  let l := [mkAdvertised "main" "tcp://127.0.0.1:4000" "session" "8";
            mkAdvertised "admin" "tcp://127.0.0.1:4001" "http" "1"] in
  let d := mkDetails None "" 42 (sampleOptions "A" 0 false) None
             (fun _ => inl 0) 0 [] ""
             (mkIO (socketLines l +:+ protocolLine "" +:+ "") EndOfFile) "g1" "pw" 7 0 in
  let c := mkConfig "/root" "4.0" "/lib" "/gen" 3 (fun s => s) (fun _ => "err") in
  exists p,
    fst (handleSpawnResponse c 99 d) = Return p
    /\ Process.concurrency p = 8 /\ Process.pid p = 42
    /\ map Socket.name (Process.sockets p) = ["main"; "admin"].
Proof.
  cbv zeta.
  set (l := [mkAdvertised "main" _ _ _; _]).
  set (d := mkDetails _ _ _ _ _ _ _ _ _ _ _ _ _ _).
  set (c := mkConfig _ _ _ _ _ _ _).
  rewrite (handleSpawnResponse_ready c 99 l "" d eq_refl eq_refl).
  eexists. split; [reflexivity|]. repeat split.
Defined.

Lemma sendSpawnRequest_state (c : Config) (d : NegotiationDetails) :
  sendCompletes (writes d) = true ->
  Nat.even (length (Options.toVector (options d))) = true ->
  exists ws data, sendSpawnRequest c d = (Return tt, set_writes ws data d).
Proof.
  intros Hw Hev. unfold sendSpawnRequest, try_catch.
  destruct (appendArgs_even _ Hev (spawnRequestHeader c d)) as [data ->].
  unfold bind, writeExact, sendCompletes, sendFailure in *.
  destruct (writes d) as [|[|sys code|] [|[|sys' code'|] ws]];
    cbn [writes set_writes tail sent] in *; try discriminate; try rewrite Hw;
    unfold ret; eexists _, _; reflexivity.
Qed.

(** The whole negotiation when all goes well: the child sends the
    handshake, the parent's request is written (or the write ends in
    EPIPE), the child answers "Ready", advertises its sockets and ends
    with an empty line. negotiateSpawn() returns the Process built from
    these sockets, with the gupid and the connect password it has
    chosen and the time of its start as spawnStartTime; what the child
    writes afterwards is not read. *)
Theorem negotiateSpawn_ready (c : Config) (now now' : Z) (g pw rest : string)
    (l : list Advertised) (d : NegotiationDetails) (p : Process.t) :
  pending (io d)
  = protocolLine "I have control 1.0" +:+ protocolLine "Ready" +:+ socketLines l
    +:+ protocolLine EmptyString +:+ rest ->
  sendCompletes (writes d) = true ->
  Nat.even (length (Options.toVector (options d))) = true ->
  forallb advertisedOk l = true ->
  hasSessionSockets (map socketOf l) = true ->
  Process.make now' (pid d) g pw (map socketOf l) (creationTime c) now = Some p ->
  fst (negotiateSpawn c now g pw now' d) = Return p
  /\ io (snd (negotiateSpawn c now g pw now' d)) = mkIO rest (ending (io d)).
Proof.
  intros Hp Hw Hev Hok Hsess Hmake.
  cut (exists d', negotiateSpawn c now g pw now' d = (Return p, d')
                  /\ io d' = mkIO rest (ending (io d))).
  { intros (d' & -> & Hio). split; [reflexivity|exact Hio]. }
  unfold negotiateSpawn.
  unfold bind at 1.
  rewrite (handshake_read c now g pw _ d Hp).
  rewrite String.eqb_refl.
  set (d2 := set_io _ _).
  destruct (sendSpawnRequest_state c d2 Hw Hev) as (ws & data & Hsend).
  unfold bind at 1. rewrite Hsend.
  set (d3 := set_writes ws data d2).
  unfold bind at 1. unfold try_catch at 1.
  rewrite (readMessageLine_protocolLine "Ready"
             (socketLines l +:+ protocolLine EmptyString +:+ rest) d3 eq_refl
             ltac:(vm_compute; lia) eq_refl).
  rewrite String.eqb_refl.
  set (d4 := set_io _ d3).
  rewrite (handleSpawnResponse_sockets c now' l rest d4 Hok eq_refl).
  rewrite Hsess.
  change (Process.make now' _ _ _ (map socketOf l) (creationTime c) _)
    with (Process.make now' (pid d) g pw (map socketOf l) (creationTime c) now).
  rewrite Hmake. eexists. split; reflexivity.
Qed.

Lemma negotiateSpawn_ready_witness :
  let l := [mkAdvertised "main" "tcp://127.0.0.1:4000" "session" "8"] in
  let d := mkDetails None "" 42 (sampleOptions "A" 0 false) None
             (fun _ => inl 0) 0 [] ""
             (mkIO (protocolLine "I have control 1.0" +:+ protocolLine "Ready"
                    +:+ socketLines l +:+ protocolLine "" +:+ "")
                EndOfFile) "" "" 0 0 in
  let c := mkConfig "/root" "4.0" "/lib" "/gen" 3 (fun s => s) (fun _ => "err") in
  exists p,
    fst (negotiateSpawn c 5 "g1" "pw" 9 d) = Return p
    /\ Process.gupid p = "g1" /\ Process.concurrency p = 8
    /\ Process.spawnStartTime p = 5 /\ Process.lastUsed p = 9.
Proof.
  cbv zeta.
  set (l := [mkAdvertised "main" _ _ _]).
  set (d := mkDetails _ _ _ _ _ _ _ _ _ _ _ _ _ _).
  set (c := mkConfig _ _ _ _ _ _ _).
  assert (Hmake : exists p,
             Process.make 9 (pid d) "g1" "pw" (map socketOf l) (creationTime c) 5 = Some p)
    by (eexists; reflexivity).
  destruct Hmake as [p Hmake].
  destruct (negotiateSpawn_ready c 5 9 "g1" "pw" "" l d p eq_refl eq_refl eq_refl
              eq_refl eq_refl Hmake) as [H _].
  exists p. split; [exact H|].
  inversion Hmake; subst p. repeat split.
Defined.

Lemma append_LF_inj (a b : string) : a +:+ LF = b +:+ LF -> a = b.
Proof.
  revert b. induction a as [|x a IH]; intros [|y b] H.
  - reflexivity.
  - rewrite append_nil, append_cons in H. inversion H as [[Hx Hb]].
    destruct b; discriminate.
  - rewrite append_nil, append_cons in H. inversion H as [[Hx Ha]].
    destruct a; discriminate.
  - rewrite !append_cons in H. inversion H as [[Hx Hab]]. f_equal. apply IH, Hab.
Qed.

(** A first line that is neither the handshake nor "Error": nothing is
    sent to the child, and negotiateSpawn() throws a SpawnException of
    kind APP_STARTUP_PROTOCOL_ERROR that quotes the line. *)
Theorem handshake_unknown (c : Config) (now now' : Z) (g pw text rest : string)
    (d : NegotiationDetails) :
  noLineFeed text = true -> (String.length (protocolLine text) <= 4096)%nat ->
  text <> "I have control 1.0" -> text <> "Error" ->
  pending (io d) = protocolLine text +:+ rest ->
  let result := negotiateSpawn c now g pw now' d in
  sent (snd result) = sent d
  /\ fst result
     = Throw (SpawnException
                ("An error occurred while starting " +:+
                 "the web application. It sent an unknown response type " +:+ DQUOTE +:+
                 cEscapeString c (text +:+ LF) +:+ DQUOTE +:+ ".")
                (match stderrCapturer d with
                 | Some data => data +:+ stderrRest d
                 | None => EmptyString
                 end) false APP_STARTUP_PROTOCOL_ERROR (annotations_of d)).
Proof.
  intros Htext Hlen Hne1 Hne2 Hp. cbv zeta.
  cut (exists d',
         negotiateSpawn c now g pw now' d
         = (Throw (SpawnException
                     ("An error occurred while starting " +:+
                      "the web application. It sent an unknown response type " +:+
                      DQUOTE +:+ cEscapeString c (text +:+ LF) +:+ DQUOTE +:+ ".")
                     (match stderrCapturer d with
                      | Some data => data +:+ stderrRest d
                      | None => EmptyString
                      end) false APP_STARTUP_PROTOCOL_ERROR (annotations_of d)), d')
         /\ sent d' = sent d).
  { intros (d' & -> & Hsent). split; [exact Hsent|reflexivity]. }
  unfold negotiateSpawn.
  set (d1 := set_start _ _ _ _ d).
  unfold bind at 1. unfold try_catch at 1.
  rewrite (readMessageLine_protocolLine text rest d1 Htext Hlen Hp).
  replace (String.eqb (text +:+ LF) ("I have control 1.0" +:+ LF)) with false
    by (symmetry; apply String.eqb_neq; intros H; apply Hne1, append_LF_inj, H).
  replace (String.eqb (text +:+ LF) ("Error" +:+ LF)) with false
    by (symmetry; apply String.eqb_neq; intros H; apply Hne2, append_LF_inj, H).
  unfold handleInvalidSpawnResponseType, throwAppSpawnException.
  eexists. split.
  - apply (f_equal2 pair); [|reflexivity].
    destruct d as [sc ? ? ? ? ? ? ? ? ? ? ? ? ?]. destruct sc; reflexivity.
  - reflexivity.
Qed.

Lemma handshake_unknown_witness :
  let d := mkDetails None "" 42 (sampleOptions "A" 0 false) None
             (fun _ => inl 0) 0 [] "" (mkIO ("!> Hello" +:+ LF) EndOfFile) "" "" 0 0 in
  let c := mkConfig "/root" "4.0" "/lib" "/gen" 3 (fun s => s) (fun _ => "err") in
  exists msg,
    fst (negotiateSpawn c 5 "g1" "pw" 9 d)
    = Throw (SpawnException msg "" false APP_STARTUP_PROTOCOL_ERROR ∅).
Proof.
  cbv zeta.
  set (d := mkDetails _ _ _ _ _ _ _ _ _ _ _ _ _ _).
  set (c := mkConfig _ _ _ _ _ _ _).
  destruct (handshake_unknown c 5 9 "g1" "pw" "Hello" "" d eq_refl
              ltac:(vm_compute; lia) ltac:(discriminate) ltac:(discriminate) eq_refl)
    as [_ H].
  eexists. exact H.
Defined.
